(** * PHI protection subsystem of medical_scribe

    A shallow embedding of [security/encryption.py] (the cipher engine:
    [PHIEncryption], [FieldLevelEncryption]) and of [security/audit.py]
    (the audit ledger: [AuditEvent], [AuditLogger]), and the properties of
    the specification that concern them.

    Conventions.
    - A Python [str] is a list of Unicode code points ([pystr]); [bytes] is
      a list of [byte].
    - A Python call that may raise returns an [outcome]: [Ok v] or
      [Raise e].
    - Methods that read or write object fields, the heap, the random source
      or the outside world are functions from a state to an outcome and a
      new state.  A raised exception keeps the state changes made before
      it, as in Python. *)

From Stdlib Require Import NArith ZArith List Lia String Ascii DecimalString.
From Stdlib.Strings Require Import Byte.
From stdpp Require Import base option list gmap strings.
Import ListNotations.

Ltac Zify.zify_post_hook ::= Z.to_euclidean_division_equations.

(** ** Outcomes and exceptions *)

Abbreviation pystr := (list N).
Abbreviation bytes := (list byte).

(** The exception classes that the modelled code can see.  [ServiceError]
    stands for any failure of a remote service (secret store, blob store);
    [OSError] is what a broken local log sink raises. *)
Inductive exn : Type :=
| ValueError
| TypeError
| UnicodeEncodeError
| UnicodeDecodeError
| BinasciiError
| InvalidTag
| ResourceExistsError
| SerializationError
| OSError
| ServiceError (code : N).

Inductive outcome (A : Type) : Type :=
| Ok (v : A)
| Raise (e : exn).
Arguments Ok {A} v.
Arguments Raise {A} e.

Definition outcome_bind {A B} (m : outcome A) (f : A -> outcome B) : outcome B :=
  match m with
  | Ok v => f v
  | Raise e => Raise e
  end.

Definition outcome_map {A B} (f : A -> B) (m : outcome A) : outcome B :=
  match m with
  | Ok v => Ok (f v)
  | Raise e => Raise e
  end.

Definition is_ok {A} (m : outcome A) : bool :=
  match m with Ok _ => true | Raise _ => false end.

(** ** Bytes *)

Definition b8 (n : N) : byte :=
  match Byte.of_N (n mod 256) with
  | Some b => b
  | None => x00
  end.

Definition byte_eqb (a b : byte) : bool := N.eqb (Byte.to_N a) (Byte.to_N b).

Fixpoint bytes_eqb (x y : bytes) : bool :=
  match x, y with
  | [], [] => true
  | a :: x', b :: y' => byte_eqb a b && bytes_eqb x' y'
  | _, _ => false
  end.

(** A string literal of the source, as code points. *)
Definition lit (s : string) : pystr :=
  map N_of_ascii (list_ascii_of_string s).

(** ** [str.encode('utf-8')] and [bytes.decode('utf-8')] *)

Section Utf8.
Local Open Scope N_scope.

Definition is_surrogate (c : N) : bool := (0xD800 <=? c) && (c <? 0xE000).

Definition utf8_encode_cp (c : N) : option bytes :=
  if c <? 0x80 then Some [b8 c]
  else if c <? 0x800 then
    Some [b8 (0xC0 + c / 64); b8 (0x80 + c mod 64)]
  else if c <? 0x10000 then
    if is_surrogate c then None
    else Some [b8 (0xE0 + c / 4096); b8 (0x80 + (c / 64) mod 64);
               b8 (0x80 + c mod 64)]
  else if c <? 0x110000 then
    Some [b8 (0xF0 + c / 262144); b8 (0x80 + (c / 4096) mod 64);
          b8 (0x80 + (c / 64) mod 64); b8 (0x80 + c mod 64)]
  else None.

(** [s.encode('utf-8')]: a lone surrogate raises [UnicodeEncodeError]. *)
Fixpoint str_encode (s : pystr) : outcome bytes :=
  match s with
  | [] => Ok []
  | c :: r =>
    match utf8_encode_cp c with
    | None => Raise UnicodeEncodeError
    | Some bs => outcome_map (app bs) (str_encode r)
    end
  end.

Definition is_cont (b : byte) : bool :=
  (0x80 <=? Byte.to_N b) && (Byte.to_N b <? 0xC0).

Definition cont_bits (b : byte) : N := Byte.to_N b - 0x80.

(** [b.decode('utf-8')], the strict decoder: overlong forms, surrogates,
    code points above U+10FFFF and truncated sequences raise
    [UnicodeDecodeError]. *)
Fixpoint bytes_decode (bs : bytes) : outcome pystr :=
  match bs with
  | [] => Ok []
  | b0 :: r0 =>
    let n0 := Byte.to_N b0 in
    if n0 <? 0x80 then outcome_map (cons n0) (bytes_decode r0)
    else if n0 <? 0xC2 then Raise UnicodeDecodeError
    else if n0 <? 0xE0 then
      match r0 with
      | b1 :: r1 =>
        if is_cont b1
        then outcome_map (cons ((n0 - 0xC0) * 64 + cont_bits b1)) (bytes_decode r1)
        else Raise UnicodeDecodeError
      | _ => Raise UnicodeDecodeError
      end
    else if n0 <? 0xF0 then
      match r0 with
      | b1 :: b2 :: r2 =>
        let c := (n0 - 0xE0) * 4096 + cont_bits b1 * 64 + cont_bits b2 in
        if is_cont b1 && is_cont b2 && (0x800 <=? c) && negb (is_surrogate c)
        then outcome_map (cons c) (bytes_decode r2)
        else Raise UnicodeDecodeError
      | _ => Raise UnicodeDecodeError
      end
    else if n0 <? 0xF5 then
      match r0 with
      | b1 :: b2 :: b3 :: r3 =>
        let c := (n0 - 0xF0) * 262144 + cont_bits b1 * 4096
                 + cont_bits b2 * 64 + cont_bits b3 in
        if is_cont b1 && is_cont b2 && is_cont b3
           && (0x10000 <=? c) && (c <? 0x110000)
        then outcome_map (cons c) (bytes_decode r3)
        else Raise UnicodeDecodeError
      | _ => Raise UnicodeDecodeError
      end
    else Raise UnicodeDecodeError
  end.

End Utf8.

(** ** [base64.b64encode] and [base64.b64decode] *)

Section Base64.
Local Open Scope N_scope.

Definition b64_alphabet : bytes :=
  map byte_of_ascii (list_ascii_of_string
    "ABCDEFGHIJKLMNOPQRSTUVWXYZabcdefghijklmnopqrstuvwxyz0123456789+/").

Definition table_b2a_base64 (i : N) : byte := nth (N.to_nat i) b64_alphabet x00.

Definition BASE64_PAD : byte := x3d.

(** The value of a base64 digit; [None] for a byte outside the alphabet. *)
Definition table_a2b_base64 (c : byte) : option N :=
  let n := Byte.to_N c in
  if (65 <=? n) && (n <=? 90) then Some (n - 65)
  else if (97 <=? n) && (n <=? 122) then Some (n - 71)
  else if (48 <=? n) && (n <=? 57) then Some (n + 4)
  else if n =? 43 then Some 62
  else if n =? 47 then Some 63
  else None.

(** [base64.b64encode]: three bytes become four digits, the last group is
    padded with [=]. *)
Fixpoint b64encode (s : bytes) : bytes :=
  match s with
  | [] => []
  | [a] =>
    let a := Byte.to_N a in
    [table_b2a_base64 (a / 4); table_b2a_base64 ((a mod 4) * 16);
     BASE64_PAD; BASE64_PAD]
  | [a; b] =>
    let a := Byte.to_N a in
    let b := Byte.to_N b in
    [table_b2a_base64 (a / 4); table_b2a_base64 ((a mod 4) * 16 + b / 16);
     table_b2a_base64 ((b mod 16) * 4); BASE64_PAD]
  | a :: b :: c :: rest =>
    let a := Byte.to_N a in
    let b := Byte.to_N b in
    let c := Byte.to_N c in
    table_b2a_base64 (a / 4)
    :: table_b2a_base64 ((a mod 4) * 16 + b / 16)
    :: table_b2a_base64 ((b mod 16) * 4 + c / 64)
    :: table_b2a_base64 (c mod 64)
    :: b64encode rest
  end.

(** [binascii.a2b_base64] without strict mode, as [base64.b64decode] calls
    it: bytes outside the alphabet are skipped, a complete pad sequence
    ends the input, a dangling group raises [binascii.Error].  The state
    is the position in the current group of four digits, the bits left
    over from the previous digit and the number of pad bytes seen. *)
Fixpoint a2b_loop (ascii_data : bytes) (quad_pos : nat) (leftchar : N)
    (pads : nat) : outcome bytes :=
  match ascii_data with
  | [] => if Nat.eqb quad_pos 0 then Ok [] else Raise BinasciiError
  | this_ch :: rest =>
    if byte_eqb this_ch BASE64_PAD then
      if Nat.leb 2 quad_pos then
        if Nat.leb 4 (quad_pos + S pads) then Ok []
        else a2b_loop rest quad_pos leftchar (S pads)
      else a2b_loop rest quad_pos leftchar pads
    else
      match table_a2b_base64 this_ch with
      | None => a2b_loop rest quad_pos leftchar pads
      | Some v =>
        match quad_pos with
        | O => a2b_loop rest 1 v 0
        | 1%nat =>
          outcome_map (cons (b8 (leftchar * 4 + v / 16)))
                      (a2b_loop rest 2 (v mod 16) 0)
        | 2%nat =>
          outcome_map (cons (b8 (leftchar * 16 + v / 4)))
                      (a2b_loop rest 3 (v mod 4) 0)
        | _ =>
          outcome_map (cons (b8 (leftchar * 64 + v)))
                      (a2b_loop rest 0 0 0)
        end
      end
  end.

Definition a2b_base64 (ascii_data : bytes) : outcome bytes :=
  a2b_loop ascii_data 0 0 0.

(** [base64.b64decode(s)] for a [str] argument: the string must be ASCII
    ([ValueError] otherwise), then [binascii.a2b_base64]. *)
Definition b64decode (s : pystr) : outcome bytes :=
  if forallb (fun c => c <? 128) s then a2b_base64 (map b8 s)
  else Raise ValueError.

End Base64.

(** ** The AES-GCM primitive of the [cryptography] package

    The package is not part of the repository: the engine is stated over
    any implementation of its interface.  [AESGCM key] is the constructor
    (it rejects a key of the wrong size); the two operations take the key
    of the constructed object, the nonce, the data and the associated
    data. *)

Record aead : Type := {
  AESGCM : bytes -> outcome unit;
  aesgcm_encrypt : bytes -> bytes -> bytes -> bytes -> outcome bytes;
  aesgcm_decrypt : bytes -> bytes -> bytes -> bytes -> outcome bytes
}.

(** ** Python values held in a record, and the state

    The values of a record are the scalars [None], [bool], [int] and
    [str]; a record is a [dict] with string keys. *)

Inductive pyvalue : Type :=
| VNone
| VBool (b : bool)
| VInt (z : Z)
| VStr (s : pystr).

(** Truth value of a value in an [if]. *)
Definition truthy (v : pyvalue) : bool :=
  match v with
  | VNone => false
  | VBool b => b
  | VInt z => negb (Z.eqb z 0)
  | VStr s => match s with [] => false | _ => true end
  end.

(** [str(v)]. *)
Definition py_str (v : pyvalue) : pystr :=
  match v with
  | VNone => lit "None"
  | VBool true => lit "True"
  | VBool false => lit "False"
  | VInt z => lit (NilZero.string_of_int (Z.to_int z))
  | VStr s => s
  end.

Definition truthy_str (s : option pystr) : bool :=
  match s with
  | Some (_ :: _) => true
  | _ => false
  end.

Definition truthy_bytes (b : option bytes) : bool :=
  match b with
  | Some (_ :: _) => true
  | _ => false
  end.

(** The mutable state: the [_key_cache] attribute of the engine, how many
    bytes of the system random source have been consumed, and the heap of
    [dict] objects, addressed by reference. *)
Record state : Type := mkState {
  _key_cache : option bytes;
  urandom_pos : nat;
  heap : gmap nat (gmap pystr pyvalue)
}.

Definition set_key_cache (k : option bytes) (st : state) : state :=
  mkState k (urandom_pos st) (heap st).

Definition set_urandom_pos (n : nat) (st : state) : state :=
  mkState (_key_cache st) n (heap st).

Definition set_heap (h : gmap nat (gmap pystr pyvalue)) (st : state) : state :=
  mkState (_key_cache st) (urandom_pos st) h.

(** Stateful computations that may raise, over a state of type [S]. *)
Definition ST (S A : Type) : Type := S -> outcome A * S.

Definition ret {S A} (v : A) : ST S A := fun st => (Ok v, st).

Definition bind {S A B} (m : ST S A) (f : A -> ST S B) : ST S B :=
  fun st =>
    match m st with
    | (Ok v, st') => f v st'
    | (Raise e, st') => (Raise e, st')
    end.

Definition lift {S A} (o : outcome A) : ST S A := fun st => (o, st).

(** [try: body except Exception as e: handler e] *)
Definition try_except {S A} (body : ST S A) (handler : exn -> ST S A) : ST S A :=
  fun st =>
    match body st with
    | (Ok v, st') => (Ok v, st')
    | (Raise e, st') => handler e st'
    end.

Notation "x <- m ;; k" := (bind m (fun x => k))
  (at level 20, m at level 99, k at level 200, only parsing).

Abbreviation M := (ST state).

(** ** [PHIEncryption] *)

Section PHIEncryption.

(** The collaborators of one engine: the AES-GCM implementation, the bytes
    that [os.urandom] will deliver, the secret store behind
    [secret_client.get_secret(name).value], and the two constructor
    arguments.  The calls of the module's logger are left out: they take
    no part in the results or in the state of the engine. *)
Context (lib : aead)
        (entropy : nat -> byte)
        (get_secret : pystr -> outcome pystr)
        (key_vault_url : option pystr)
        (encryption_key_name : pystr).

(** [os.urandom(n)]. *)
Definition os_urandom (n : nat) : M bytes :=
  fun st =>
    (Ok (map entropy (seq (urandom_pos st) n)),
     set_urandom_pos (urandom_pos st + n) st).

Definition _get_encryption_key : M bytes :=
  fun st =>
    if truthy_bytes (_key_cache st) then
      (Ok (default [] (_key_cache st)), st)
    else if negb (truthy_str key_vault_url) then
      os_urandom 32 st
    else
      match get_secret encryption_key_name with
      | Raise e => (Raise e, st)
      | Ok value =>
        match b64decode value with
        | Raise e => (Raise e, st)
        | Ok key => (Ok key, set_key_cache (Some key) st)
        end
      end.

(** [associated_data.encode('utf-8') if associated_data else b''] *)
Definition prepare_aad (associated_data : option pystr) : outcome bytes :=
  if truthy_str associated_data
  then str_encode (default [] associated_data)
  else Ok [].

Definition encrypt (plaintext : pystr) (associated_data : option pystr)
  : M pystr :=
  key <- _get_encryption_key ;;
  _ <- lift (AESGCM lib key) ;;
  nonce <- os_urandom 12 ;;
  aad <- lift (prepare_aad associated_data) ;;
  data <- lift (str_encode plaintext) ;;
  ciphertext <- lift (aesgcm_encrypt lib key nonce data aad) ;;
  let encrypted_data := nonce ++ ciphertext in
  lift (bytes_decode (b64encode encrypted_data)).

Definition decrypt (encrypted_data : pystr) (associated_data : option pystr)
  : M pystr :=
  key <- _get_encryption_key ;;
  _ <- lift (AESGCM lib key) ;;
  data <- lift (b64decode encrypted_data) ;;
  let nonce := firstn 12 data in
  let ciphertext := skipn 12 data in
  aad <- lift (prepare_aad associated_data) ;;
  plaintext <- lift (aesgcm_decrypt lib key nonce ciphertext aad) ;;
  lift (bytes_decode plaintext).

(** [decrypt] called with a value that is not a [str]: the key is resolved
    and the cipher constructed as usual, then [base64.b64decode] raises
    [TypeError]. *)
Definition decrypt_not_str : M pystr :=
  key <- _get_encryption_key ;;
  _ <- lift (AESGCM lib key) ;;
  lift (Raise TypeError).

(** ** [FieldLevelEncryption] *)

(** Reading the [dict] behind a reference.  A reference held by running
    code always points to an object; the error branch is never taken from
    a well-formed heap. *)
Definition deref (l : nat) : M (gmap pystr pyvalue) :=
  fun st =>
    match heap st !! l with
    | Some d => (Ok d, st)
    | None => (Raise TypeError, st)
    end.

(** [data.copy()]: a new object with the same items. *)
Definition dict_copy (data : nat) : M nat :=
  d <- deref data ;;
  fun st =>
    let l := fresh (dom (heap st)) in
    (Ok l, set_heap (<[l := d]> (heap st)) st).

(** [d[field] = v], in place. *)
Definition dict_setitem (l : nat) (field : pystr) (v : pyvalue) : M unit :=
  d <- deref l ;;
  fun st => (Ok tt, set_heap (<[l := <[field := v]> d]> (heap st)) st).

Fixpoint encrypt_fields_loop (encrypted_data : nat) (sensitive_fields : list pystr)
  : M unit :=
  match sensitive_fields with
  | [] => ret tt
  | field :: rest =>
    d <- deref encrypted_data ;;
    _ <- match d !! field with
    | Some v =>
      if truthy v then
        let original_value := py_str v in
        e <- encrypt original_value (Some field) ;;
        dict_setitem encrypted_data field (VStr e)
      else ret tt
    | None => ret tt
    end ;;
    encrypt_fields_loop encrypted_data rest
  end.

Definition encrypt_fields (data : nat) (sensitive_fields : list pystr) : M nat :=
  encrypted_data <- dict_copy data ;;
  _ <- encrypt_fields_loop encrypted_data sensitive_fields ;;
  ret encrypted_data.

Fixpoint decrypt_fields_loop (decrypted_data : nat) (sensitive_fields : list pystr)
  : M unit :=
  match sensitive_fields with
  | [] => ret tt
  | field :: rest =>
    d <- deref decrypted_data ;;
    _ <- match d !! field with
    | Some v =>
      if truthy v then
        let encrypted_value := v in
        p <- match encrypted_value with
             | VStr s => decrypt s (Some field)
             | _ => decrypt_not_str
             end ;;
        dict_setitem decrypted_data field (VStr p)
      else ret tt
    | None => ret tt
    end ;;
    decrypt_fields_loop decrypted_data rest
  end.

Definition decrypt_fields (data : nat) (sensitive_fields : list pystr) : M nat :=
  decrypted_data <- dict_copy data ;;
  _ <- decrypt_fields_loop decrypted_data sensitive_fields ;;
  ret decrypted_data.

End PHIEncryption.

(** ** Vocabulary for the field-level properties *)

(** How often a field is named in the list of sensitive fields. *)
Fixpoint occurrences (k : pystr) (fields : list pystr) : nat :=
  match fields with
  | [] => 0
  | h :: rest => (if bool_decide (h = k) then 1 else 0) + occurrences k rest
  end.

(** The record that a round trip through [encrypt_fields] and
    [decrypt_fields] is expected to give back: a listed field with a true
    value holds [str] of that value, everything else is as it was. *)
Definition restored (fields : list pystr) (d : gmap pystr pyvalue)
  : gmap pystr pyvalue :=
  map_imap (fun k v =>
    Some (if bool_decide (k ∈ fields) && truthy v then VStr (py_str v) else v)) d.

Section Sealing.

Context (lib : aead)
        (entropy : nat -> byte)
        (get_secret : pystr -> outcome pystr)
        (key_vault_url : option pystr)
        (encryption_key_name : pystr).

(** The body shared by the two loops: [op field value] computes the new
    text of a listed field whose value is true. *)
Fixpoint fields_loop (op : pystr -> pyvalue -> M pystr) (l : nat)
    (fields : list pystr) : M unit :=
  match fields with
  | [] => ret tt
  | field :: rest =>
    d <- deref l ;;
    _ <- match d !! field with
         | Some v =>
           if truthy v then
             p <- op field v ;;
             dict_setitem l field (VStr p)
           else ret tt
         | None => ret tt
         end ;;
    fields_loop op l rest
  end.

Definition encrypt_op (field : pystr) (v : pyvalue) : M pystr :=
  encrypt lib entropy get_secret key_vault_url encryption_key_name
    (py_str v) (Some field).

Definition decrypt_op (field : pystr) (v : pyvalue) : M pystr :=
  match v with
  | VStr s =>
    decrypt lib entropy get_secret key_vault_url encryption_key_name s (Some field)
  | _ =>
    decrypt_not_str lib entropy get_secret key_vault_url encryption_key_name
  end.

(** The cache holds a key, and resolving it changes nothing. *)
Definition settled (st : state) : Prop :=
  exists key,
    _key_cache st = Some key
    /\ forall st2, _key_cache st2 = Some key ->
         _get_encryption_key entropy get_secret key_vault_url
           encryption_key_name st2 = (Ok key, st2).

(** In every state whose cache is [c], the envelope [e] of field [field]
    decrypts to [x] and the state stays as it is. *)
Definition opens_to (c : option bytes) (field e x : pystr) : Prop :=
  forall st, _key_cache st = c ->
    decrypt lib entropy get_secret key_vault_url encryption_key_name
      e (Some field) st = (Ok x, st).

(** [e] is [x] sealed [n] times over, each layer a non-empty envelope. *)
Inductive layered (c : option bytes) (field : pystr)
  : nat -> pystr -> pystr -> Prop :=
| layered_O x : layered c field 0 x x
| layered_S n x e e' :
    e' <> [] -> opens_to c field e' e -> layered c field n x e ->
    layered c field (S n) x e'.

Definition sealed_value (c : option bytes) (field : pystr) (n : nat)
    (v w : pyvalue) : Prop :=
  match n with
  | O => w = v
  | S _ => exists e, w = VStr e /\ layered c field n (py_str v) e
  end.

(** [d'] is [d] with every true value of a listed field sealed once per
    occurrence of the field in the list. *)
Definition fields_sealed (c : option bytes) (fields : list pystr)
    (d d' : gmap pystr pyvalue) : Prop :=
  forall k,
    match d !! k with
    | None => d' !! k = None
    | Some v =>
      if truthy v
      then exists w, d' !! k = Some w
                     /\ sealed_value c k (occurrences k fields) v w
      else d' !! k = Some v
    end.

(** What the decrypting loop still has to undo at one field. *)
Definition to_unseal (c : option bytes) (field : pystr) (n : nat)
    (now goal : option pyvalue) : Prop :=
  match n with
  | O => now = goal
  | S _ =>
    (now = goal /\ (now = None \/ exists v, now = Some v /\ truthy v = false))
    \/ (exists e x, now = Some (VStr e) /\ goal = Some (VStr x)
                    /\ layered c field n x e)
  end.

End Sealing.

(** *** What the package promises

    [aead_correct]: what was sealed opens, under the same key, nonce and
    associated data.  [aead_tag16]: the sealed box is the ciphertext, as
    long as the data, and a 16-byte tag.  [aead_checks_tag]: the box is a
    body followed by a 16-byte tag of nonce, associated data and body
    under the key, and opening recomputes the tag under the associated
    data it is given and compares it with the one in the box; that is all
    the authentication there is, so that associated data with the same tag
    open the box too. *)

Definition aead_correct (lib : aead) : Prop :=
  forall key nonce data aad ct,
    aesgcm_encrypt lib key nonce data aad = Ok ct ->
    aesgcm_decrypt lib key nonce ct aad = Ok data.

Definition aead_tag16 (lib : aead) : Prop :=
  forall key nonce data aad ct,
    aesgcm_encrypt lib key nonce data aad = Ok ct ->
    length ct = length data + 16.

Definition aead_checks_tag (lib : aead)
    (tag : bytes -> bytes -> bytes -> bytes -> bytes) : Prop :=
  forall key nonce data aad ct,
    aesgcm_encrypt lib key nonce data aad = Ok ct ->
    exists body,
      ct = body ++ tag key nonce aad body
      /\ length (tag key nonce aad body) = 16
      /\ forall aad',
           aesgcm_decrypt lib key nonce ct aad'
           = if bytes_eqb (tag key nonce aad' body) (tag key nonce aad body)
             then Ok data else Raise InvalidTag.

(** ** A small implementation of the AES-GCM interface

    It is used to run the engine on concrete inputs where only the sizes
    matter: it checks the key and nonce sizes as the package does, seals
    with an additive keystream and appends a 16-byte tag. *)

Section ReferenceAead.
Local Open Scope N_scope.

Definition key_size_ok (key : bytes) : bool :=
  Nat.eqb (length key) 16 || Nat.eqb (length key) 24 || Nat.eqb (length key) 32.

Definition nonce_size_ok (nonce : bytes) : bool :=
  Nat.leb 8 (length nonce) && Nat.leb (length nonce) 128.

Definition check_key (key : bytes) : outcome unit :=
  if key_size_ok key then Ok tt else Raise ValueError.

Definition digest (data : bytes) : N :=
  fold_left (fun h b => (h * 257 + Byte.to_N b + 1) mod 2 ^ 128) data 0.

Definition pad_of (key nonce : bytes) : N := digest (key ++ nonce) mod 256.

Fixpoint stream_add (pad i : N) (data : bytes) : bytes :=
  match data with
  | [] => []
  | b :: r => b8 (Byte.to_N b + (pad + i) mod 256) :: stream_add pad (N.succ i) r
  end.

Fixpoint stream_sub (pad i : N) (data : bytes) : bytes :=
  match data with
  | [] => []
  | b :: r =>
    b8 (Byte.to_N b + 256 - (pad + i) mod 256) :: stream_sub pad (N.succ i) r
  end.

Definition size_prefixed (data : bytes) : bytes :=
  b8 (N.of_nat (length data)) :: data.

(** A 16-byte tag over key, nonce, associated data and ciphertext. *)
Definition tag16 (key nonce aad ct : bytes) : bytes :=
  let h := digest (size_prefixed key ++ size_prefixed nonce
                   ++ size_prefixed aad ++ ct) in
  map (fun i => b8 (h / 256 ^ N.of_nat i)) (seq 0 16).

Definition tagged_encrypt (key nonce data aad : bytes) : outcome bytes :=
  if negb (key_size_ok key) then Raise ValueError
  else if negb (nonce_size_ok nonce) then Raise ValueError
  else
    let ct := stream_add (pad_of key nonce) 0 data in
    Ok (ct ++ tag16 key nonce aad ct).

Definition tagged_decrypt (key nonce data aad : bytes) : outcome bytes :=
  if negb (key_size_ok key) then Raise ValueError
  else if negb (nonce_size_ok nonce) then Raise ValueError
  else if Nat.ltb (length data) 16 then Raise InvalidTag
  else
    let ct := firstn (length data - 16) data in
    let tag := skipn (length data - 16) data in
    if bytes_eqb tag (tag16 key nonce aad ct)
    then Ok (stream_sub (pad_of key nonce) 0 ct)
    else Raise InvalidTag.

(** Sealing with a 16-byte tag, the sizes of AES-GCM. *)
Definition tagged_aead : aead :=
  {| AESGCM := check_key;
     aesgcm_encrypt := tagged_encrypt;
     aesgcm_decrypt := tagged_decrypt |}.

End ReferenceAead.

(** ** AES-GCM

    [AESGCM] of the [cryptography] package, as FIPS 197 and NIST
    SP 800-38D define it: the forward cipher of AES for keys of 128, 192
    and 256 bits, the counter mode that seals the data, and the tag, the
    GHASH of associated data and ciphertext masked with the encryption of
    the pre-counter block.  Blocks are numbers below [2^128], first byte
    most significant.  The substitution table is computed from its
    definition, the inverse in GF(2^8) followed by the affine map. *)

Section AesGcm.
Local Open Scope N_scope.

(** Multiplication by [x] and by any element in GF(2^8), modulo
    [x^8 + x^4 + x^3 + x + 1]. *)
Definition xtime (a : N) : N :=
  if a <? 128 then a * 2 else N.lxor (a * 2 - 256) 27.

Fixpoint gf8_mul_bits (n : nat) (a b : N) : N :=
  match n with
  | O => 0
  | S n' => N.lxor (if N.odd b then a else 0) (gf8_mul_bits n' (xtime a) (b / 2))
  end.

Definition gf8_mul (a b : N) : N := gf8_mul_bits 8 a b.

(** The inverse is the 254th power; the inverse of 0 is 0. *)
Definition gf8_inv (a : N) : N :=
  let a2 := gf8_mul a a in
  let a4 := gf8_mul a2 a2 in
  let a8 := gf8_mul a4 a4 in
  let a16 := gf8_mul a8 a8 in
  let a32 := gf8_mul a16 a16 in
  let a64 := gf8_mul a32 a32 in
  let a128 := gf8_mul a64 a64 in
  gf8_mul a2 (gf8_mul a4 (gf8_mul a8 (gf8_mul a16 (gf8_mul a32
    (gf8_mul a64 a128))))).

Definition rotl8 (n x : N) : N :=
  N.lor (N.shiftl x n mod 256) (N.shiftr x (8 - n)).

Definition sbox_of (a : N) : N :=
  let b := gf8_inv a in
  N.lxor (N.lxor (N.lxor (N.lxor (N.lxor b (rotl8 1 b)) (rotl8 2 b)) (rotl8 3 b))
            (rotl8 4 b)) 99.

Definition sbox_table : list N :=
  Eval vm_compute in map (fun i => sbox_of (N.of_nat i)) (seq 0 256).

Definition sub_byte (a : N) : N := nth (N.to_nat a) sbox_table 0.

Definition xor_block (x y : list N) : list N :=
  map (fun p => N.lxor (fst p) (snd p)) (combine x y).

(** The state is the block in input order: byte [4 * c + r] is row [r] of
    column [c]. *)
Definition shift_rows (s : list N) : list N :=
  map (fun i => nth (4 * ((i / 4 + i mod 4) mod 4) + i mod 4)%nat s 0) (seq 0 16).

Fixpoint mix_columns (s : list N) : list N :=
  match s with
  | a0 :: a1 :: a2 :: a3 :: r =>
    N.lxor (N.lxor (N.lxor (gf8_mul a0 2) (gf8_mul a1 3)) a2) a3
    :: N.lxor (N.lxor (N.lxor a0 (gf8_mul a1 2)) (gf8_mul a2 3)) a3
    :: N.lxor (N.lxor (N.lxor a0 a1) (gf8_mul a2 2)) (gf8_mul a3 3)
    :: N.lxor (N.lxor (N.lxor (gf8_mul a0 3) a1) a2) (gf8_mul a3 2)
    :: mix_columns r
  | _ => []
  end.

Fixpoint words4 (bs : list N) : list (list N) :=
  match bs with
  | a :: b :: c :: d :: r => [a; b; c; d] :: words4 r
  | _ => []
  end.

Definition rot_word (w : list N) : list N :=
  match w with
  | a :: r => r ++ [a]
  | [] => []
  end.

Fixpoint rcon (j : nat) : N :=
  match j with
  | O => 1
  | S j' => xtime (rcon j')
  end.

(** The key schedule, newest word first; [i] is the index of the next
    word and [nk] the number of words of the key. *)
Fixpoint expand_key (count i nk : nat) (w : list (list N)) : list (list N) :=
  match count with
  | O => w
  | S count' =>
    let prev := nth 0 w [] in
    let temp :=
      if Nat.eqb (i mod nk) 0
      then xor_block (map sub_byte (rot_word prev)) [rcon (i / nk - 1); 0; 0; 0]
      else if Nat.ltb 6 nk && Nat.eqb (i mod nk) 4
           then map sub_byte prev
           else prev in
    expand_key count' (S i) nk (xor_block (nth (nk - 1) w []) temp :: w)
  end.

Fixpoint round_key_list (n : nat) (ws : list (list N)) : list (list N) :=
  match n with
  | O => []
  | S n' =>
    match ws with
    | a :: b :: c :: d :: r => (a ++ b ++ c ++ d) :: round_key_list n' r
    | _ => []
    end
  end.

Definition round_keys (key : list N) : list (list N) :=
  let nk := Nat.div (length key) 4 in
  let ws := rev (expand_key (3 * nk + 28) nk nk (rev (words4 key))) in
  round_key_list (nk + 7) ws.

Definition aes_round (s rk : list N) : list N :=
  xor_block (mix_columns (shift_rows (map sub_byte s))) rk.

(** The forward cipher on one block. *)
Definition aes_block (rks : list (list N)) (block : list N) : list N :=
  match rks with
  | rk0 :: rest =>
    let s := fold_left aes_round (removelast rest) (xor_block block rk0) in
    xor_block (shift_rows (map sub_byte s)) (List.last rest [])
  | [] => block
  end.

(** A block as a number, first byte most significant. *)
Definition block_of (bs : list N) : N :=
  fold_left (fun acc b => acc * 256 + b) bs 0.

Definition block_bytes (x : N) : list N :=
  map (fun i => (x / 256 ^ N.of_nat (15 - i)) mod 256) (seq 0 16).

Definition cipher (rks : list (list N)) (x : N) : N :=
  block_of (aes_block rks (block_bytes x)).

(** Multiplication in GF(2^128) as GCM defines it: the first bit of a
    block is the coefficient of [x^0]. *)
Definition gf128_step (x : N) (zv : N * N) (i : nat) : N * N :=
  (if N.testbit x (N.of_nat (127 - i)) then N.lxor (fst zv) (snd zv) else fst zv,
   if N.odd (snd zv)
   then N.lxor (N.shiftr (snd zv) 1) (225 * 2 ^ 120)
   else N.shiftr (snd zv) 1).

Definition gf128_mul (x y : N) : N :=
  fst (fold_left (gf128_step x) (seq 0 128) (0, y)).

Definition ghash (h : N) (blocks : list N) : N :=
  fold_left (fun y x => gf128_mul (N.lxor y x) h) blocks 0.

(** The 16-byte blocks of a byte string, the last one filled with zeros. *)
Fixpoint blocks16 (fuel : nat) (bs : list N) : list N :=
  match fuel with
  | O => []
  | S fuel' =>
    match bs with
    | [] => []
    | _ => block_of (firstn 16 (bs ++ repeat 0 15)) :: blocks16 fuel' (skipn 16 bs)
    end
  end.

Definition padded_blocks (bs : bytes) : list N :=
  blocks16 (length bs) (map Byte.to_N bs).

Definition bit_length (bs : bytes) : N := N.of_nat (length bs) * 8.

(** The pre-counter block: a 96-bit nonce is followed by the number 1, any
    other nonce is hashed. *)
Definition pre_counter (h : N) (nonce : bytes) : N :=
  if Nat.eqb (length nonce) 12
  then block_of (map Byte.to_N nonce) * 2 ^ 32 + 1
  else ghash h (padded_blocks nonce ++ [bit_length nonce]).

Definition inc32 (x k : N) : N := (x / 2 ^ 32) * 2 ^ 32 + (x + k) mod 2 ^ 32.

Definition gcm_tag (key nonce aad body : bytes) : bytes :=
  let rks := round_keys (map Byte.to_N key) in
  let h := cipher rks 0 in
  let j0 := pre_counter h nonce in
  let s := ghash h (padded_blocks aad ++ padded_blocks body
                    ++ [bit_length aad * 2 ^ 64 + bit_length body]) in
  map b8 (block_bytes (N.lxor s (cipher rks j0))).

Definition xor_byte (b k : byte) : byte := b8 (N.lxor (Byte.to_N b) (Byte.to_N k)).

Fixpoint xor_stream (ks : nat -> byte) (i : nat) (data : bytes) : bytes :=
  match data with
  | [] => []
  | b :: r => xor_byte b (ks i) :: xor_stream ks (S i) r
  end.

(** The key stream: the encryptions of the counter blocks after the
    pre-counter block. *)
Definition key_stream (key nonce : bytes) (n : nat) : bytes :=
  let rks := round_keys (map Byte.to_N key) in
  let j0 := pre_counter (cipher rks 0) nonce in
  flat_map (fun j => map b8 (block_bytes (cipher rks (inc32 j0 (N.of_nat (S j))))))
    (seq 0 (Nat.div (n + 15) 16)).

Definition gctr (key nonce data : bytes) : bytes :=
  let ks := key_stream key nonce (length data) in
  xor_stream (fun i => nth i ks x00) 0 data.

Definition gcm_encrypt (key nonce data aad : bytes) : outcome bytes :=
  if negb (key_size_ok key) then Raise ValueError
  else if negb (nonce_size_ok nonce) then Raise ValueError
  else
    let body := gctr key nonce data in
    Ok (body ++ gcm_tag key nonce aad body).

Definition gcm_decrypt (key nonce data aad : bytes) : outcome bytes :=
  if negb (key_size_ok key) then Raise ValueError
  else if negb (nonce_size_ok nonce) then Raise ValueError
  else if Nat.ltb (length data) 16 then Raise InvalidTag
  else
    let body := firstn (length data - 16) data in
    let tag := skipn (length data - 16) data in
    if bytes_eqb (gcm_tag key nonce aad body) tag
    then Ok (gctr key nonce body)
    else Raise InvalidTag.

Definition aes_gcm : aead :=
  {| AESGCM := check_key;
     aesgcm_encrypt := gcm_encrypt;
     aesgcm_decrypt := gcm_decrypt |}.

End AesGcm.

(** ** [security/audit.py]: events *)

Inductive AuditEventType : Type :=
| LOGIN_SUCCESS | LOGIN_FAILURE | LOGOUT | MFA_CHALLENGE
| PHI_VIEW | PHI_CREATE | PHI_UPDATE | PHI_DELETE | PHI_EXPORT
| SYSTEM_ACCESS | CONFIG_CHANGE | PERMISSION_CHANGE
| SECURITY_VIOLATION | UNAUTHORIZED_ACCESS | ENCRYPTION_KEY_ACCESS
| TRANSCRIPTION_START | TRANSCRIPTION_COMPLETE | SOAP_NOTE_GENERATED
| ICD10_LOOKUP.

Definition AuditEventType_value (t : AuditEventType) : pystr :=
  match t with
  | LOGIN_SUCCESS => lit "login_success"
  | LOGIN_FAILURE => lit "login_failure"
  | LOGOUT => lit "logout"
  | MFA_CHALLENGE => lit "mfa_challenge"
  | PHI_VIEW => lit "phi_view"
  | PHI_CREATE => lit "phi_create"
  | PHI_UPDATE => lit "phi_update"
  | PHI_DELETE => lit "phi_delete"
  | PHI_EXPORT => lit "phi_export"
  | SYSTEM_ACCESS => lit "system_access"
  | CONFIG_CHANGE => lit "config_change"
  | PERMISSION_CHANGE => lit "permission_change"
  | SECURITY_VIOLATION => lit "security_violation"
  | UNAUTHORIZED_ACCESS => lit "unauthorized_access"
  | ENCRYPTION_KEY_ACCESS => lit "encryption_key_access"
  | TRANSCRIPTION_START => lit "transcription_start"
  | TRANSCRIPTION_COMPLETE => lit "transcription_complete"
  | SOAP_NOTE_GENERATED => lit "soap_note_generated"
  | ICD10_LOOKUP => lit "icd10_lookup"
  end.

Inductive AuditSeverity : Type := INFO | WARNING | ERROR | CRITICAL.

Definition AuditSeverity_value (s : AuditSeverity) : pystr :=
  match s with
  | INFO => lit "info"
  | WARNING => lit "warning"
  | ERROR => lit "error"
  | CRITICAL => lit "critical"
  end.

Record datetime : Type := mkDatetime {
  year : nat; month : nat; day : nat;
  hour : nat; minute : nat; second : nat; microsecond : nat
}.

Record AuditEvent : Type := mkAuditEvent {
  event_id : pystr;
  timestamp : datetime;
  event_type : AuditEventType;
  severity : AuditSeverity;
  user_id : option pystr;
  username : option pystr;
  role : option pystr;
  ip_address : option pystr;
  user_agent : option pystr;
  session_id : option pystr;
  resource_type : option pystr;
  resource_id : option pystr;
  patient_id_hash : option pystr;
  action : pystr;
  result : pystr;
  reason : option pystr;
  metadata : gmap pystr pyvalue;
  service_name : pystr;
  environment : pystr
}.

(** ** The local log sink and the blob container *)

Inductive log_level : Type := LvlDebug | LvlInfo | LvlWarning | LvlError.

Record blob : Type := mkBlob {
  blob_data : pystr;
  blob_metadata : list (pystr * pystr)
}.

(** The container of the storage account: its blobs, and the failure, if
    any, with which the service answers every request (unreachable,
    unauthorised, ...). *)
Record container : Type := mkContainer {
  blobs : gmap pystr blob;
  outage : option exn
}.

(** What the logger does to the outside, in the order it happens. *)
Inductive effect : Type :=
| Emitted (level : log_level) (event : pystr) (fields : list (pystr * pyvalue))
| EmitFailed (level : log_level) (event : pystr)
| Uploaded (blob_name : pystr) (data : pystr) (overwrite : bool)
           (outcome_of_call : outcome unit).

Record world : Type := mkWorld {
  sink_up : bool;
  trace : list effect;
  storage : container;
  ticks : nat
}.

Definition is_audit_record (e : effect) : bool :=
  match e with
  | Emitted LvlInfo ev _ => bool_decide (ev = lit "audit_event")
  | _ => false
  end.

Definition is_upload (e : effect) : bool :=
  match e with
  | Uploaded _ _ _ _ => true
  | _ => false
  end.

Definition record_effect (e : effect) (w : world) : world :=
  mkWorld (sink_up w) (trace w ++ [e]) (storage w) (ticks w).

Definition set_storage (c : container) (w : world) : world :=
  mkWorld (sink_up w) (trace w) c (ticks w).

(** A call of the [structlog] logger: the line reaches the sink, or the
    sink is broken and the call raises. *)
Definition logger_call (level : log_level) (event : pystr)
    (fields : list (pystr * pyvalue)) : ST world unit :=
  fun w =>
    if sink_up w then (Ok tt, record_effect (Emitted level event fields) w)
    else (Raise OSError, record_effect (EmitFailed level event) w).

(** [blob_client.upload_blob(data, overwrite=..., metadata=...)] on a
    container: with [overwrite=False] an existing name is refused. *)
Definition container_upload (name data : pystr) (overwrite : bool)
    (meta : list (pystr * pystr)) (c : container) : outcome unit * container :=
  match outage c with
  | Some e => (Raise e, c)
  | None =>
    if overwrite then (Ok tt, mkContainer (<[name := mkBlob data meta]> (blobs c)) None)
    else
      match blobs c !! name with
      | Some _ => (Raise ResourceExistsError, c)
      | None => (Ok tt, mkContainer (<[name := mkBlob data meta]> (blobs c)) None)
      end
  end.

Definition upload_blob (name data : pystr) (overwrite : bool)
    (meta : list (pystr * pystr)) : ST world unit :=
  fun w =>
    let '(r, c) := container_upload name data overwrite meta (storage w) in
    (r, record_effect (Uploaded name data overwrite r) (set_storage c w)).

(** ** [AuditLogger] *)

Record AuditLogger : Type := mkAuditLogger {
  container_name : pystr;
  local_backup : bool;
  container_client : option pystr
}.

(** [AuditLogger.__init__] *)
Definition AuditLogger_init (storage_account_url : option pystr)
    (container_name : pystr) (local_backup : bool) : AuditLogger :=
  mkAuditLogger container_name local_backup
    (if truthy_str storage_account_url then Some container_name else None).

Definition opt_value (o : option pystr) : pyvalue :=
  match o with
  | Some s => VStr s
  | None => VNone
  end.

(** [str(e)] of an exception, for the log line. *)
Definition exn_str (e : exn) : pystr :=
  match e with
  | ValueError => lit "ValueError"
  | TypeError => lit "TypeError"
  | UnicodeEncodeError => lit "UnicodeEncodeError"
  | UnicodeDecodeError => lit "UnicodeDecodeError"
  | BinasciiError => lit "Incorrect padding"
  | InvalidTag => []
  | ResourceExistsError => lit "The specified blob already exists."
  | SerializationError => lit "Unable to serialize"
  | OSError => lit "OSError"
  | ServiceError _ => lit "ServiceError"
  end.

Definition decimal (n : nat) : pystr :=
  lit (NilZero.string_of_uint (Nat.to_uint n)).

Definition zfill (width : nat) (s : pystr) : pystr :=
  repeat 48%N (width - length s) ++ s.

(** [d.strftime("%Y/%m/%d")], as the C library of Linux renders it: month
    and day with two digits, the year as it is, without padding.  (Other
    C libraries pad a year below 1000 with zeros; from the year 1000 on
    all of them give the four digits.) *)
Definition strftime_Ymd (d : datetime) : pystr :=
  decimal (year d) ++ lit "/" ++ zfill 2 (decimal (month d))
  ++ lit "/" ++ zfill 2 (decimal (day d)).

(** [s.lower()].  Only the letters A to Z are mapped: no other code point
    lowers to a letter of the keys of [action_map]. *)
Definition str_lower (s : pystr) : pystr :=
  map (fun c => if (65 <=? c)%N && (c <=? 90)%N then (c + 32)%N else c) s.

Definition action_map : gmap pystr AuditEventType :=
  list_to_map
    [ (lit "view", PHI_VIEW);
      (lit "read", PHI_VIEW);
      (lit "create", PHI_CREATE);
      (lit "update", PHI_UPDATE);
      (lit "modify", PHI_UPDATE);
      (lit "delete", PHI_DELETE);
      (lit "export", PHI_EXPORT) ].

Definition _get_phi_event_type (action : pystr) : AuditEventType :=
  default PHI_VIEW (action_map !! str_lower action).

Definition str_eqb (a b : pystr) : bool := bool_decide (a = b).

(** The line that [_write_to_storage] logs after the upload. *)
Definition storage_line (name : pystr) (r : outcome unit) : effect :=
  match r with
  | Ok _ =>
    Emitted LvlDebug (lit "Audit event written to storage")
      [(lit "blob_name", VStr name)]
  | Raise e =>
    Emitted LvlError (lit "Failed to write audit event to storage")
      [(lit "error", VStr (exn_str e))]
  end.

Section AuditLogger.

(** The collaborators: [event.model_dump_json(indent=2)] of pydantic,
    [datetime.isoformat()], and the values that the default factories of
    [event_id] and [timestamp] deliver. *)
Context (model_dump_json : AuditEvent -> outcome pystr)
        (isoformat : datetime -> pystr)
        (uuid4 : nat -> pystr)
        (utcnow : nat -> datetime).

Definition blob_name_of (event : AuditEvent) : pystr :=
  let date_partition := strftime_Ymd (timestamp event) in
  date_partition ++ lit "/" ++ event_id event ++ lit ".json".

Definition storage_metadata (event : AuditEvent) : list (pystr * pystr) :=
  [ (lit "event_type", AuditEventType_value (event_type event));
    (lit "severity", AuditSeverity_value (severity event));
    (lit "user_id",
       if truthy_str (user_id event) then default [] (user_id event)
       else lit "anonymous");
    (lit "timestamp", isoformat (timestamp event)) ].

Definition _write_to_storage (self : AuditLogger) (event : AuditEvent)
    (event_json : pystr) : ST world unit :=
  try_except
    (let blob_name := blob_name_of event in
     _ <- upload_blob blob_name event_json false (storage_metadata event) ;;
     logger_call LvlDebug (lit "Audit event written to storage")
       [(lit "blob_name", VStr blob_name)])
    (fun e =>
       logger_call LvlError (lit "Failed to write audit event to storage")
         [(lit "error", VStr (exn_str e))]).

Definition audit_record_fields (event : AuditEvent) : list (pystr * pyvalue) :=
  [ (lit "event_id", VStr (event_id event));
    (lit "event_type", VStr (AuditEventType_value (event_type event)));
    (lit "user_id", opt_value (user_id event));
    (lit "action", VStr (action event));
    (lit "result", VStr (result event));
    (lit "severity", VStr (AuditSeverity_value (severity event))) ].

Definition log_event (self : AuditLogger) (event : AuditEvent) : ST world unit :=
  try_except
    (event_json <- lift (model_dump_json event) ;;
     _ <- (if local_backup self
           then logger_call LvlInfo (lit "audit_event") (audit_record_fields event)
           else ret tt) ;;
     match container_client self with
     | Some _ => _write_to_storage self event event_json
     | None => ret tt
     end)
    (fun e =>
       _ <- logger_call LvlError (lit "Failed to log audit event")
              [(lit "error", VStr (exn_str e));
               (lit "event_type", VStr (AuditEventType_value (event_type event)))] ;;
       lift (Raise e)).

(** The default factories of [event_id] and [timestamp]. *)
Definition event_defaults : ST world (pystr * datetime) :=
  fun w =>
    (Ok (uuid4 (ticks w), utcnow (ticks w)),
     mkWorld (sink_up w) (trace w) (storage w) (S (ticks w))).

(** The [AuditEvent(...)] expression of [log_phi_access]. *)
Definition phi_access_event (defaults : pystr * datetime)
    (user_id patient_id_hash action resource_type resource_id result : pystr)
    (ip_address : option pystr) (metadata : option (gmap pystr pyvalue))
  : AuditEvent :=
  {| event_id := fst defaults;
     timestamp := snd defaults;
     event_type := _get_phi_event_type action;
     severity := if str_eqb result (lit "success") then INFO else WARNING;
     user_id := Some user_id;
     username := None;
     role := None;
     ip_address := ip_address;
     user_agent := None;
     session_id := None;
     resource_type := Some resource_type;
     resource_id := Some resource_id;
     patient_id_hash := Some patient_id_hash;
     action := action;
     result := result;
     reason := None;
     metadata := default ∅ metadata;
     service_name := lit "medical-scribe-ai";
     environment := lit "production" |}.

Definition log_phi_access (self : AuditLogger)
    (user_id patient_id_hash action resource_type resource_id result : pystr)
    (ip_address : option pystr) (metadata : option (gmap pystr pyvalue))
  : ST world unit :=
  defaults <- event_defaults ;;
  log_event self
    (phi_access_event defaults user_id patient_id_hash action resource_type
       resource_id result ip_address metadata).

(** The [AuditEvent(...)] expression of [log_authentication]. *)
Definition authentication_event (defaults : pystr * datetime)
    (user_id : pystr) (success : bool) (ip_address reason : option pystr)
  : AuditEvent :=
  {| event_id := fst defaults;
     timestamp := snd defaults;
     event_type := if success then LOGIN_SUCCESS else LOGIN_FAILURE;
     severity := if success then INFO else WARNING;
     user_id := Some user_id;
     username := None;
     role := None;
     ip_address := ip_address;
     user_agent := None;
     session_id := None;
     resource_type := None;
     resource_id := None;
     patient_id_hash := None;
     action := lit "authenticate";
     result := if success then lit "success" else lit "failure";
     reason := reason;
     metadata := ∅;
     service_name := lit "medical-scribe-ai";
     environment := lit "production" |}.

Definition log_authentication (self : AuditLogger) (user_id : pystr)
    (success : bool) (ip_address reason : option pystr) : ST world unit :=
  defaults <- event_defaults ;;
  log_event self (authentication_event defaults user_id success ip_address reason).

End AuditLogger.

(** ** Sample collaborators

    Concrete values on which the model is run: a random source, a vault
    that holds one 256-bit key under the default name, and an engine
    state before the first call. *)

Definition sample_entropy (i : nat) : byte := b8 (N.of_nat (7 * i + 3)).

Definition sample_key : bytes := map (fun i => b8 (N.of_nat i)) (seq 0 32).

Definition default_key_name : pystr := lit "phi-encryption-key".

Definition sample_vault (name : pystr) : outcome pystr :=
  if bool_decide (name = default_key_name)
  then Ok (map Byte.to_N (b64encode sample_key))
  else Raise (ServiceError 404).

Definition no_vault (name : pystr) : outcome pystr := Raise (ServiceError 0).

Definition sample_vault_url : option pystr := Some (lit "https://vault.example").

Definition fresh_state : state := mkState None 0 ∅.

(** The text that is authenticated: an omitted and an empty
    [associated_data] both stand for the empty text. *)
Definition aad_text (associated_data : option pystr) : pystr :=
  if truthy_str associated_data then default [] associated_data else [].

(** The engine of the test suite, [PHIEncryption()], and an engine with a
    vault, both over the 16-byte-tag implementation; and a vault-backed
    engine over AES-GCM. *)

Definition dev_encrypt := encrypt tagged_aead sample_entropy no_vault None default_key_name.
Definition dev_decrypt := decrypt tagged_aead sample_entropy no_vault None default_key_name.
Definition dev_get_key := _get_encryption_key sample_entropy no_vault None default_key_name.

Definition vault_encrypt :=
  encrypt tagged_aead sample_entropy sample_vault sample_vault_url default_key_name.
Definition vault_decrypt :=
  decrypt tagged_aead sample_entropy sample_vault sample_vault_url default_key_name.

Definition gcm_encrypt_run :=
  encrypt aes_gcm sample_entropy sample_vault sample_vault_url default_key_name.
Definition gcm_decrypt_run :=
  decrypt aes_gcm sample_entropy sample_vault sample_vault_url default_key_name.

(** The envelope and the state of a run that succeeded. *)
Definition envelope_of (r : outcome pystr * state) : pystr :=
  match fst r with Ok e => e | Raise _ => [] end.

Definition ssn_text : pystr := lit "SSN: 123-45-6789".

Definition ssn_run_gcm : outcome pystr * state :=
  Eval vm_compute in gcm_encrypt_run ssn_text (Some (lit "ssn")) fresh_state.

(** Two associated-data texts of 48 characters whose blocks have the same
    GHASH under the sample key, and the run that seals under the first. *)
Definition at_signs : pystr :=
  lit "@@@@@@@@@@@@@@@@@@@@@@@@@@@@@@@@@@@@@@@@@@@@@@@@".

Definition colliding_text : pystr :=
  lit "OQNDGDHCHAJIRKHOVQQYN@IBHA@@@@H@@@@@@@@@@@@@@@@@".

Definition collision_run : outcome pystr * state :=
  Eval vm_compute in gcm_encrypt_run ssn_text (Some at_signs) fresh_state.

(** The parts of an envelope: after base64, 12 bytes of nonce, then the
    box, whose last 16 bytes are the tag. *)
Definition envelope_bytes (e : pystr) : bytes :=
  match b64decode e with Ok d => d | Raise _ => [] end.

Definition envelope_nonce (e : pystr) : bytes := firstn 12 (envelope_bytes e).

Definition envelope_box (e : pystr) : bytes := skipn 12 (envelope_bytes e).

Definition envelope_body (e : pystr) : bytes :=
  firstn (length (envelope_box e) - 16) (envelope_box e).

Definition envelope_tag (e : pystr) : bytes :=
  skipn (length (envelope_box e) - 16) (envelope_box e).

Definition ssn_run : outcome pystr * state :=
  Eval vm_compute in vault_encrypt ssn_text (Some (lit "ssn")) fresh_state.

(** The record of the specification, [{a: "x", b: 5, c: "y"}], alone in the
    heap at reference 0, and a record of false values next to a true
    integer. *)

Definition sample_record : gmap pystr pyvalue :=
  <[lit "a" := VStr (lit "x")]>
    (<[lit "b" := VInt 5]> (<[lit "c" := VStr (lit "y")]> ∅)).

Definition sample_store : state := mkState None 0 (<[0 := sample_record]> ∅).

Definition falsy_record : gmap pystr pyvalue :=
  <[lit "none" := VNone]>
    (<[lit "empty" := VStr []]>
       (<[lit "zero" := VInt 0]>
          (<[lit "false" := VBool false]> (<[lit "age" := VInt 45]> ∅)))).

Definition falsy_fields : list pystr :=
  [lit "none"; lit "empty"; lit "zero"; lit "false"; lit "age"; lit "absent"].

Definition falsy_store : state := mkState None 0 (<[0 := falsy_record]> ∅).

Definition vault_encrypt_fields :=
  encrypt_fields tagged_aead sample_entropy sample_vault sample_vault_url
    default_key_name.
Definition vault_decrypt_fields :=
  decrypt_fields tagged_aead sample_entropy sample_vault sample_vault_url
    default_key_name.

Definition reference_of (r : outcome nat * state) : nat :=
  match fst r with Ok l => l | Raise _ => 0 end.

(** The field [k] of the record behind [l]. *)
Definition field_at (st : state) (l : nat) (k : pystr) : option pyvalue :=
  match heap st !! l with
  | Some d => d !! k
  | None => None
  end.

Definition sample_fields_run : outcome nat * state :=
  Eval vm_compute in vault_encrypt_fields 0 [lit "a"; lit "c"] sample_store.

Definition falsy_fields_run : outcome nat * state :=
  Eval vm_compute in vault_encrypt_fields 0 falsy_fields falsy_store.

(** A sample audit event, PHI_VIEW by "dr_smith" on an encounter, the two
    loggers that write to a container, and a world with a working sink and
    an empty container.  The collaborators are stand-ins: a serialiser that
    only names the event, and fixed default values. *)

Definition sample_dump (event : AuditEvent) : outcome pystr :=
  Ok (lit "{event_id: " ++ event_id event ++ lit "}").

Definition sample_isoformat (d : datetime) : pystr :=
  strftime_Ymd d ++ lit "T" ++ zfill 2 (decimal (hour d)) ++ lit ":"
  ++ zfill 2 (decimal (minute d)) ++ lit ":" ++ zfill 2 (decimal (second d)).

Definition sample_uuid4 (n : nat) : pystr := lit "event-" ++ decimal n.

Definition sample_utcnow (n : nat) : datetime := mkDatetime 2026 3 7 9 30 n 0.

Definition sample_event : AuditEvent :=
  phi_access_event (lit "0f8fad5b-d9cb-469f-a165-70867728950e", sample_utcnow 0)
    (lit "dr_smith") (lit "5e884898da28047151d0e56f8dc62927")
    (lit "view") (lit "encounter") (lit "enc_abcdef123456") (lit "success")
    None None.

Definition durable_logger : AuditLogger :=
  AuditLogger_init (Some (lit "https://account.blob.example")) (lit "audit-logs") true.

Definition durable_only_logger : AuditLogger :=
  AuditLogger_init (Some (lit "https://account.blob.example")) (lit "audit-logs") false.

Definition quiet_world : world := mkWorld true [] (mkContainer ∅ None) 0.

Definition sample_log_event := log_event sample_dump sample_isoformat.

Definition action_keys : list pystr :=
  [lit "view"; lit "read"; lit "create"; lit "update"; lit "modify";
   lit "delete"; lit "export"].

Definition is_failed_upload (e : effect) : bool :=
  match e with
  | Uploaded _ _ _ (Raise _) => true
  | _ => false
  end.

(** [{YYYY}/{MM}/{DD}/{event_id}.json], spelled out with a four-digit
    year; it is the name that the code computes for the years from 1000. *)
Definition dated_name (event : AuditEvent) : pystr :=
  zfill 4 (decimal (year (timestamp event))) ++ lit "/"
  ++ zfill 2 (decimal (month (timestamp event))) ++ lit "/"
  ++ zfill 2 (decimal (day (timestamp event))) ++ lit "/"
  ++ event_id event ++ lit ".json".

(** ** [hash_identifier] and [generate_encryption_key]

    SHA-256 as FIPS 180-4 defines it, which is what
    [hashes.Hash(hashes.SHA256())] computes: words are numbers below
    [2^32], the message is padded to whole 64-byte blocks, and each block
    is compressed into the eight words of the state. *)

Section Sha256.
Local Open Scope N_scope.

Definition w32 (x : N) : N := x mod 2 ^ 32.

Definition rotr (n x : N) : N :=
  w32 (N.lor (N.shiftr x n) (N.shiftl x (32 - n))).

Definition sha_ch (x y z : N) : N :=
  N.lxor (N.land x y) (N.land (N.lxor x 0xffffffff) z).

Definition sha_maj (x y z : N) : N :=
  N.lxor (N.lxor (N.land x y) (N.land x z)) (N.land y z).

Definition big_sigma0 (x : N) : N :=
  N.lxor (N.lxor (rotr 2 x) (rotr 13 x)) (rotr 22 x).

Definition big_sigma1 (x : N) : N :=
  N.lxor (N.lxor (rotr 6 x) (rotr 11 x)) (rotr 25 x).

Definition small_sigma0 (x : N) : N :=
  N.lxor (N.lxor (rotr 7 x) (rotr 18 x)) (N.shiftr x 3).

Definition small_sigma1 (x : N) : N :=
  N.lxor (N.lxor (rotr 17 x) (rotr 19 x)) (N.shiftr x 10).

(** The constants are defined from the prime numbers, as the standard
    does: the first 32 bits of the fractional parts of the cube roots of
    the first 64 primes for the rounds, and of the square roots of the
    first 8 primes for the initial state. *)
Definition is_prime (n : nat) : bool :=
  forallb (fun d => negb (Nat.eqb (Nat.modulo n d) 0)) (seq 2 (n - 2)).

Definition first_primes : list N :=
  map N.of_nat (firstn 64 (filter is_prime (seq 2 320))).

Fixpoint icbrt_bits (b : nat) (n r : N) : N :=
  match b with
  | O => r
  | S b' =>
    let c := r + 2 ^ N.of_nat b' in
    icbrt_bits b' n (if c * c * c <=? n then c else r)
  end.

(** The integer cube root of a number below [2^120]. *)
Definition icbrt (n : N) : N := icbrt_bits 40 n 0.

Definition sha256_k : list N :=
  Eval vm_compute in map (fun p => w32 (icbrt (p * 2 ^ 96))) first_primes.

Definition sha256_h0 : list N :=
  Eval vm_compute in map (fun p => w32 (N.sqrt (p * 2 ^ 64))) (firstn 8 first_primes).

(** The big-endian words of a block. *)
Fixpoint be_words (bs : bytes) : list N :=
  match bs with
  | a :: b :: c :: d :: r =>
    (Byte.to_N a * 16777216 + Byte.to_N b * 65536 + Byte.to_N c * 256
     + Byte.to_N d) :: be_words r
  | _ => []
  end.

Definition word_bytes (x : N) : bytes :=
  [b8 (x / 16777216); b8 (x / 65536); b8 (x / 256); b8 x].

(** The message schedule, newest word first. *)
Fixpoint extend_schedule (n : nat) (w : list N) : list N :=
  match n with
  | O => w
  | S n' =>
    extend_schedule n'
      (w32 (small_sigma1 (nth 1 w 0) + nth 6 w 0
            + small_sigma0 (nth 14 w 0) + nth 15 w 0) :: w)
  end.

Definition sha_round (s : list N) (kw : N * N) : list N :=
  match s with
  | [a; b; c; d; e; f; g; h] =>
    let t1 := h + big_sigma1 e + sha_ch e f g + fst kw + snd kw in
    let t2 := big_sigma0 a + sha_maj a b c in
    [w32 (t1 + t2); a; b; c; w32 (d + t1); e; f; g]
  | _ => s
  end.

Definition sha_compress (h : list N) (block : bytes) : list N :=
  let w := rev (extend_schedule 48 (rev (be_words block))) in
  let s := fold_left sha_round (combine sha256_k w) h in
  map (fun p => w32 (fst p + snd p)) (combine h s).

Fixpoint sha_blocks (n : nat) (h : list N) (msg : bytes) : list N :=
  match n with
  | O => h
  | S n' => sha_blocks n' (sha_compress h (firstn 64 msg)) (skipn 64 msg)
  end.

Definition sha_pad (msg : bytes) : bytes :=
  let l := N.of_nat (length msg) in
  let zeros := N.to_nat ((119 - l mod 64) mod 64) in
  msg ++ x80 :: repeat x00 zeros
  ++ map (fun i => b8 (l * 8 / 256 ^ N.of_nat (7 - i))) (seq 0 8).

Definition sha256 (msg : bytes) : bytes :=
  let p := sha_pad msg in
  flat_map word_bytes (sha_blocks (Nat.div (length p) 64) sha256_h0 p).

(** [bytes.hex()]: two lower-case hexadecimal digits per byte. *)
Definition hex_digit (n : N) : N := if n <? 10 then 48 + n else 87 + n.

Definition hex (bs : bytes) : pystr :=
  flat_map (fun b => [hex_digit (Byte.to_N b / 16);
                      hex_digit (Byte.to_N b mod 16)]) bs.

Definition is_hex_digit (c : N) : bool :=
  ((48 <=? c) && (c <=? 57)) || ((97 <=? c) && (c <=? 102)).

(** [bytes.fromhex] on lower-case digits. *)
Definition hex_value (c : N) : N := if c <? 58 then c - 48 else c - 87.

Fixpoint hex_bytes (s : pystr) : bytes :=
  match s with
  | a :: b :: r => b8 (hex_value a * 16 + hex_value b) :: hex_bytes r
  | _ => []
  end.

End Sha256.

(** [PHIEncryption.hash_identifier]; it uses neither the key nor any
    other attribute of the engine. *)
Definition hash_identifier (identifier : pystr) : outcome pystr :=
  outcome_map (fun data => hex (sha256 data)) (str_encode identifier).

(** The module function [generate_encryption_key]. *)
Definition generate_encryption_key (entropy : nat -> byte) : M pystr :=
  key <- os_urandom entropy 32 ;;
  lift (bytes_decode (b64encode key)).

(** ** The rest of [AuditLogger], and the logger of the process *)

Section AuditProcess.

(** [connect url] stands for the construction of the credential and of
    the blob service and container clients, which may reject the URL. *)
Context (model_dump_json : AuditEvent -> outcome pystr)
        (isoformat : datetime -> pystr)
        (uuid4 : nat -> pystr)
        (utcnow : nat -> datetime)
        (connect : pystr -> outcome unit).

(** The [AuditEvent(...)] expression of [log_security_event]. *)
Definition security_event (defaults : pystr * datetime)
    (event_type : AuditEventType) (severity : AuditSeverity) (action : pystr)
    (user_id ip_address : option pystr) (metadata : option (gmap pystr pyvalue))
  : AuditEvent :=
  {| event_id := fst defaults;
     timestamp := snd defaults;
     event_type := event_type;
     severity := severity;
     user_id := user_id;
     username := None;
     role := None;
     ip_address := ip_address;
     user_agent := None;
     session_id := None;
     resource_type := None;
     resource_id := None;
     patient_id_hash := None;
     action := action;
     result := lit "detected";
     reason := None;
     metadata := default ∅ metadata;
     service_name := lit "medical-scribe-ai";
     environment := lit "production" |}.

Definition log_security_event (self : AuditLogger)
    (event_type : AuditEventType) (severity : AuditSeverity) (action : pystr)
    (user_id ip_address : option pystr) (metadata : option (gmap pystr pyvalue))
  : ST world unit :=
  defaults <- event_defaults uuid4 utcnow ;;
  log_event model_dump_json isoformat self
    (security_event defaults event_type severity action user_id ip_address
       metadata).

(** [AuditLogger.__init__] with its effects: the clients are constructed
    when a URL is given, and one line is logged either way. *)
Definition AuditLogger_new (storage_account_url : option pystr)
    (container_name : pystr) (local_backup : bool) : ST world AuditLogger :=
  _ <- (if truthy_str storage_account_url then
          _ <- lift (connect (default [] storage_account_url)) ;;
          logger_call LvlInfo (lit "Audit logger initialized with Azure Storage")
            [(lit "container", VStr container_name)]
        else
          logger_call LvlWarning (lit "Audit logger initialized in local-only mode")
            []) ;;
  ret (AuditLogger_init storage_account_url container_name local_backup).

(** The module global [_audit_logger] next to the outside world. *)
Record process : Type := mkProcess {
  _audit_logger : option AuditLogger;
  outside : world
}.

Definition get_audit_logger : ST process AuditLogger :=
  fun p =>
    match _audit_logger p with
    | Some l => (Ok l, p)
    | None =>
      match AuditLogger_new None (lit "audit-logs") true (outside p) with
      | (Ok l, w) => (Ok l, mkProcess (Some l) w)
      | (Raise e, w) => (Raise e, mkProcess None w)
      end
    end.

Definition initialize_audit_logger (storage_account_url : option pystr)
  : ST process AuditLogger :=
  fun p =>
    match AuditLogger_new storage_account_url (lit "audit-logs") true (outside p) with
    | (Ok l, w) => (Ok l, mkProcess (Some l) w)
    | (Raise e, w) => (Raise e, mkProcess (_audit_logger p) w)
    end.

End AuditProcess.

(** ** Vocabulary for the further properties *)

(** Every run of [m] relates the world before to the world after. *)
Definition respects {A} (R : world -> world -> Prop) (m : ST world A) : Prop :=
  forall w r w', m w = (r, w') -> R w w'.

(** No blob that exists is changed or removed. *)
Definition append_only (w w' : world) : Prop :=
  forall name b,
    blobs (storage w) !! name = Some b -> blobs (storage w') !! name = Some b.

(** No blob is new, except possibly [name]. *)
Definition only_adds (name : pystr) (w w' : world) : Prop :=
  forall n b,
    blobs (storage w') !! n = Some b ->
    n = name \/ blobs (storage w) !! n = Some b.

(** The container is as it was, and what happened is local. *)
Definition storage_untouched (w w' : world) : Prop :=
  storage w' = storage w
  /\ exists new, trace w' = trace w ++ new
                 /\ forallb (fun e => negb (is_upload e)) new = true.

(** The number that a string of decimal digits denotes. *)
Definition decimal_value (s : pystr) : nat :=
  fold_left (fun acc c => acc * 10 + (N.to_nat c - 48)) s 0.

(** A vault whose secret is the base64 text of a 5-byte key, which no
    AES-GCM implementation accepts. *)
Definition short_key_vault (name : pystr) : outcome pystr := Ok (lit "aGVsbG8=").

Definition down_vault (name : pystr) : outcome pystr := Raise (ServiceError 503).

Definition always_connect (url : pystr) : outcome unit := Ok tt.

Definition unserialisable (event : AuditEvent) : outcome pystr :=
  Raise SerializationError.

(** A vault that holds the key which [generate_encryption_key] makes from
    the first 32 bytes of the sample random source. *)
Definition generated_vault (name : pystr) : outcome pystr :=
  Ok (map Byte.to_N (b64encode (map sample_entropy (seq 0 32)))).

(** A record in which the envelope made for the field [ssn] is found under
    [dob], in an engine that holds the key. *)
Definition swapped_record : gmap pystr pyvalue :=
  <[lit "dob" := VStr (envelope_of ssn_run_gcm)]> ∅.

Definition swapped_store : state :=
  mkState (_key_cache (snd ssn_run_gcm)) 0 (<[0 := swapped_record]> ∅).

Definition no_true_fields : list pystr :=
  [lit "none"; lit "empty"; lit "zero"; lit "false"; lit "absent"].

(** A logger built with the empty string as storage URL, a second event
    with the identifier and the date of the sample event, and a process
    that has no logger yet. *)
Definition empty_url_logger : AuditLogger :=
  AuditLogger_init (Some []) (lit "audit-logs") true.

Definition later_event : AuditEvent :=
  phi_access_event (lit "0f8fad5b-d9cb-469f-a165-70867728950e", sample_utcnow 45)
    (lit "nurse_lee") (lit "5e884898da28047151d0e56f8dc62927")
    (lit "update") (lit "encounter") (lit "enc_abcdef123456") (lit "success")
    None None.

Definition new_process : process := mkProcess None quiet_world.

(** A storage account whose client cannot be built, and a process that
    already has a logger. *)
Definition refusing_connect (url : pystr) : outcome unit := Raise ValueError.

Definition running_process : process := mkProcess (Some empty_url_logger) quiet_world.

(** * Properties *)

(** ** Bytes *)

Lemma to_N_b8 (n : N) : Byte.to_N (b8 n) = (n mod 256)%N.
Proof.
  unfold b8. destruct (Byte.of_N (n mod 256)) as [b|] eqn:E.
  - now apply Byte.to_of_N in E.
  - apply Byte.of_N_None_iff in E. lia.
Qed.

Lemma to_N_b8_small (n : N) : (n < 256)%N -> Byte.to_N (b8 n) = n.
Proof. intros H. rewrite to_N_b8. now apply N.mod_small. Qed.

Lemma b8_to_N (b : byte) : b8 (Byte.to_N b) = b.
Proof.
  unfold b8. pose proof (Byte.to_N_bounded b) as Hb.
  rewrite N.mod_small by lia. now rewrite Byte.of_to_N.
Qed.

Lemma to_N_lt (b : byte) : (Byte.to_N b < 256)%N.
Proof. pose proof (Byte.to_N_bounded b). lia. Qed.

Lemma to_N_inj (a b : byte) : Byte.to_N a = Byte.to_N b -> a = b.
Proof. intros H. rewrite <- (b8_to_N a), <- (b8_to_N b). now rewrite H. Qed.

Lemma map_b8_to_N (bs : bytes) : map b8 (map Byte.to_N bs) = bs.
Proof.
  induction bs as [|b bs IH]; simpl; [reflexivity|].
  now rewrite b8_to_N, IH.
Qed.

Lemma byte_eqb_eq (a b : byte) : byte_eqb a b = true <-> a = b.
Proof.
  unfold byte_eqb. rewrite N.eqb_eq. split; [apply to_N_inj | now intros ->].
Qed.

Lemma bytes_eqb_eq (x y : bytes) : bytes_eqb x y = true <-> x = y.
Proof.
  revert y. induction x as [|a x IH]; intros [|b y]; simpl; try easy.
  rewrite andb_true_iff, byte_eqb_eq, IH. split.
  - now intros [-> ->].
  - intros H. now inversion H.
Qed.

Lemma bytes_eqb_refl (x : bytes) : bytes_eqb x x = true.
Proof. now apply bytes_eqb_eq. Qed.

Lemma bytes_eqb_neq (x y : bytes) : x <> y -> bytes_eqb x y = false.
Proof.
  intros H. destruct (bytes_eqb x y) eqn:E; [|reflexivity].
  now apply bytes_eqb_eq in E.
Qed.

Lemma outcome_map_Ok {A B} (f : A -> B) (m : outcome A) (y : B) :
  outcome_map f m = Ok y -> exists x, m = Ok x /\ y = f x.
Proof. destruct m as [x|e]; simpl; [|discriminate]. intros [= <-]. eauto. Qed.

(** ** UTF-8 *)

Section Utf8Facts.
Local Open Scope N_scope.

(** Settles the comparisons of a goal whose operands are known by [lia]. *)
Ltac settle_tests :=
  repeat match goal with
  | |- context [N.ltb ?a ?b] =>
      first [ rewrite (proj2 (N.ltb_lt a b)) by lia
            | rewrite (proj2 (N.ltb_ge a b)) by lia ]
  | |- context [N.leb ?a ?b] =>
      first [ rewrite (proj2 (N.leb_le a b)) by lia
            | rewrite (proj2 (N.leb_gt a b)) by lia ]
  end.

Lemma decode_seq1 (c : N) (r : bytes) :
  c < 0x80 ->
  bytes_decode (b8 c :: r) = outcome_map (cons c) (bytes_decode r).
Proof.
  intros H. cbn [bytes_decode]. rewrite to_N_b8_small by lia.
  now settle_tests.
Qed.

Lemma decode_seq2 (c : N) (r : bytes) :
  0x80 <= c < 0x800 ->
  bytes_decode (b8 (0xC0 + c / 64) :: b8 (0x80 + c mod 64) :: r)
  = outcome_map (cons c) (bytes_decode r).
Proof.
  intros H. cbn [bytes_decode]. unfold is_cont, cont_bits.
  rewrite !to_N_b8_small by lia. settle_tests. cbn [andb].
  f_equal. f_equal. lia.
Qed.

Lemma decode_seq3 (c : N) (r : bytes) :
  0x800 <= c < 0x10000 -> is_surrogate c = false ->
  bytes_decode (b8 (0xE0 + c / 4096) :: b8 (0x80 + (c / 64) mod 64)
                :: b8 (0x80 + c mod 64) :: r)
  = outcome_map (cons c) (bytes_decode r).
Proof.
  intros H Hs. cbn [bytes_decode]. unfold is_cont, cont_bits.
  rewrite !to_N_b8_small by lia.
  replace ((0xE0 + c / 4096 - 0xE0) * 4096 + (0x80 + (c / 64) mod 64 - 0x80) * 64
           + (0x80 + c mod 64 - 0x80)) with c by lia.
  rewrite Hs. settle_tests. reflexivity.
Qed.

Lemma decode_seq4 (c : N) (r : bytes) :
  0x10000 <= c < 0x110000 ->
  bytes_decode (b8 (0xF0 + c / 262144) :: b8 (0x80 + (c / 4096) mod 64)
                :: b8 (0x80 + (c / 64) mod 64) :: b8 (0x80 + c mod 64) :: r)
  = outcome_map (cons c) (bytes_decode r).
Proof.
  intros H. cbn [bytes_decode]. unfold is_cont, cont_bits.
  rewrite !to_N_b8_small by lia.
  replace ((0xF0 + c / 262144 - 0xF0) * 262144
           + (0x80 + (c / 4096) mod 64 - 0x80) * 4096
           + (0x80 + (c / 64) mod 64 - 0x80) * 64
           + (0x80 + c mod 64 - 0x80)) with c by lia.
  settle_tests. reflexivity.
Qed.

Lemma decode_encode_cp (c : N) (bs r : bytes) :
  utf8_encode_cp c = Some bs ->
  bytes_decode (bs ++ r) = outcome_map (cons c) (bytes_decode r).
Proof.
  unfold utf8_encode_cp.
  destruct (N.ltb_spec c 0x80).
  { intros [= <-]. now apply decode_seq1. }
  destruct (N.ltb_spec c 0x800).
  { intros [= <-]. apply decode_seq2. lia. }
  destruct (N.ltb_spec c 0x10000).
  { destruct (is_surrogate c) eqn:Hs; [discriminate|].
    intros [= <-]. apply decode_seq3; [lia | assumption]. }
  destruct (N.ltb_spec c 0x110000); [|discriminate].
  intros [= <-]. apply decode_seq4. lia.
Qed.

(** Decoding gives back the string that was encoded. *)
Lemma decode_encode (s : pystr) (bs : bytes) :
  str_encode s = Ok bs -> bytes_decode bs = Ok s.
Proof.
  revert bs. induction s as [|c s IH]; intros bs; simpl.
  - now intros [= <-].
  - destruct (utf8_encode_cp c) as [cs|] eqn:Ec; [|discriminate].
    intros H. apply outcome_map_Ok in H as (bs' & Hbs' & ->).
    rewrite (decode_encode_cp _ _ _ Ec), (IH _ Hbs'). reflexivity.
Qed.

Lemma str_encode_inj (s1 s2 : pystr) (bs : bytes) :
  str_encode s1 = Ok bs -> str_encode s2 = Ok bs -> s1 = s2.
Proof.
  intros H1 H2. apply decode_encode in H1, H2. congruence.
Qed.

(** ASCII text is its own encoding. *)
Lemma decode_ascii (bs : bytes) :
  Forall (fun b => Byte.to_N b < 0x80) bs ->
  bytes_decode bs = Ok (map Byte.to_N bs).
Proof.
  induction 1 as [|b bs Hb _ IH]; [reflexivity|].
  cbn [bytes_decode map]. rewrite (proj2 (N.ltb_lt _ _) Hb), IH. reflexivity.
Qed.

End Utf8Facts.

(** ** Base64 *)

Section Base64Facts.
Local Open Scope N_scope.

Lemma digit_facts (i : N) :
  i < 64 ->
  table_a2b_base64 (table_b2a_base64 i) = Some i
  /\ byte_eqb (table_b2a_base64 i) BASE64_PAD = false
  /\ Byte.to_N (table_b2a_base64 i) < 128.
Proof.
  intros H. rewrite <- (N2Nat.id i).
  assert (Hn : (N.to_nat i < 64)%nat) by lia.
  generalize dependent (N.to_nat i). clear. intros n Hn.
  do 64 (destruct n as [|n]; [vm_compute; repeat split; reflexivity|]).
  lia.
Qed.

Lemma a2b_digit (i : N) (rest : bytes) (q : nat) (lc : N) (p : nat) :
  i < 64 ->
  a2b_loop (table_b2a_base64 i :: rest) q lc p =
  match q with
  | O => a2b_loop rest 1 i 0
  | 1%nat => outcome_map (cons (b8 (lc * 4 + i / 16))) (a2b_loop rest 2 (i mod 16) 0)
  | 2%nat => outcome_map (cons (b8 (lc * 16 + i / 4))) (a2b_loop rest 3 (i mod 4) 0)
  | _ => outcome_map (cons (b8 (lc * 64 + i))) (a2b_loop rest 0 0 0)
  end.
Proof.
  intros H. destruct (digit_facts i H) as (Ha & Hp & _).
  cbn [a2b_loop]. rewrite Hp, Ha. reflexivity.
Qed.

Lemma outcome_map_map {A B C} (f : B -> C) (g : A -> B) (m : outcome A) :
  outcome_map f (outcome_map g m) = outcome_map (fun x => f (g x)) m.
Proof. now destruct m. Qed.

Lemma a2b_group (a b c : byte) (rest : bytes) (lc : N) (p : nat) :
  a2b_loop (table_b2a_base64 (Byte.to_N a / 4)
            :: table_b2a_base64 ((Byte.to_N a mod 4) * 16 + Byte.to_N b / 16)
            :: table_b2a_base64 ((Byte.to_N b mod 16) * 4 + Byte.to_N c / 64)
            :: table_b2a_base64 (Byte.to_N c mod 64) :: rest) 0 lc p
  = outcome_map (fun r => a :: b :: c :: r) (a2b_loop rest 0 0 0).
Proof.
  pose proof (to_N_lt a). pose proof (to_N_lt b). pose proof (to_N_lt c).
  rewrite !a2b_digit by lia. rewrite !outcome_map_map.
  replace (Byte.to_N a / 4 * 4 + (Byte.to_N a mod 4 * 16 + Byte.to_N b / 16) / 16)
    with (Byte.to_N a) by lia.
  replace ((Byte.to_N a mod 4 * 16 + Byte.to_N b / 16) mod 16 * 16
           + (Byte.to_N b mod 16 * 4 + Byte.to_N c / 64) / 4)
    with (Byte.to_N b) by lia.
  replace ((Byte.to_N b mod 16 * 4 + Byte.to_N c / 64) mod 4 * 64
           + Byte.to_N c mod 64)
    with (Byte.to_N c) by lia.
  now rewrite !b8_to_N.
Qed.

Lemma a2b_tail1 (a : byte) (lc : N) (p : nat) :
  a2b_loop [table_b2a_base64 (Byte.to_N a / 4);
            table_b2a_base64 ((Byte.to_N a mod 4) * 16);
            BASE64_PAD; BASE64_PAD] 0 lc p = Ok [a].
Proof.
  pose proof (to_N_lt a).
  rewrite !a2b_digit by lia. cbn.
  replace (Byte.to_N a / 4 * 4 + Byte.to_N a mod 4 * 16 / 16)
    with (Byte.to_N a) by lia.
  now rewrite b8_to_N.
Qed.

Lemma a2b_tail2 (a b : byte) (lc : N) (p : nat) :
  a2b_loop [table_b2a_base64 (Byte.to_N a / 4);
            table_b2a_base64 ((Byte.to_N a mod 4) * 16 + Byte.to_N b / 16);
            table_b2a_base64 ((Byte.to_N b mod 16) * 4);
            BASE64_PAD] 0 lc p = Ok [a; b].
Proof.
  pose proof (to_N_lt a). pose proof (to_N_lt b).
  rewrite !a2b_digit by lia. cbn.
  replace (Byte.to_N a / 4 * 4 + (Byte.to_N a mod 4 * 16 + Byte.to_N b / 16) / 16)
    with (Byte.to_N a) by lia.
  replace ((Byte.to_N a mod 4 * 16 + Byte.to_N b / 16) mod 16 * 16
           + Byte.to_N b mod 16 * 4 / 4)
    with (Byte.to_N b) by lia.
  now rewrite !b8_to_N.
Qed.

Lemma a2b_b64encode_bounded (n : nat) :
  forall (s : bytes) (lc : N) (p : nat),
    (length s <= n)%nat -> a2b_loop (b64encode s) 0 lc p = Ok s.
Proof.
  induction n as [|n IH]; intros s lc p Hlen.
  - destruct s; [reflexivity | simpl in Hlen; lia].
  - destruct s as [|a [|b [|c rest]]].
    + reflexivity.
    + apply a2b_tail1.
    + apply a2b_tail2.
    + cbn [b64encode]. rewrite a2b_group, IH by (simpl in Hlen; lia).
      reflexivity.
Qed.

(** [binascii.a2b_base64] undoes [base64.b64encode]. *)
Lemma a2b_b64encode (s : bytes) : a2b_base64 (b64encode s) = Ok s.
Proof. unfold a2b_base64. now apply (a2b_b64encode_bounded (length s)). Qed.

Lemma b64encode_ascii_bounded (n : nat) :
  forall s : bytes,
    (length s <= n)%nat ->
    Forall (fun b => Byte.to_N b < 0x80) (b64encode s).
Proof.
  assert (Hpad : Byte.to_N BASE64_PAD < 0x80) by (vm_compute; reflexivity).
  induction n as [|n IH]; intros s Hlen.
  - destruct s; [constructor | simpl in Hlen; lia].
  - destruct s as [|a [|b [|c rest]]]; cbn [b64encode].
    + constructor.
    + pose proof (to_N_lt a).
      repeat constructor; try assumption; apply digit_facts; lia.
    + pose proof (to_N_lt a). pose proof (to_N_lt b).
      repeat constructor; try assumption; apply digit_facts; lia.
    + pose proof (to_N_lt a). pose proof (to_N_lt b). pose proof (to_N_lt c).
      repeat (constructor; [apply digit_facts; lia|]).
      apply IH. simpl in Hlen. lia.
Qed.

Lemma b64encode_ascii (s : bytes) :
  Forall (fun b => Byte.to_N b < 0x80) (b64encode s).
Proof. now apply (b64encode_ascii_bounded (length s)). Qed.

(** [base64.b64encode(s).decode('utf-8')] is the text of the digits. *)
Lemma decode_b64encode (s : bytes) :
  bytes_decode (b64encode s) = Ok (map Byte.to_N (b64encode s)).
Proof. apply decode_ascii, b64encode_ascii. Qed.

(** [base64.b64decode] of that text gives the bytes back. *)
Lemma b64decode_b64encode (s : bytes) :
  b64decode (map Byte.to_N (b64encode s)) = Ok s.
Proof.
  unfold b64decode.
  assert (H : forallb (fun c => c <? 128) (map Byte.to_N (b64encode s)) = true).
  { apply forallb_forall. intros c Hc. apply in_map_iff in Hc as (b & <- & Hb).
    pose proof (b64encode_ascii s) as Hall.
    rewrite Forall_forall in Hall. apply N.ltb_lt. apply Hall.
    now apply list_elem_of_In. }
  rewrite H, map_b8_to_N. apply a2b_b64encode.
Qed.

Lemma b64encode_inj (s1 s2 : bytes) : b64encode s1 = b64encode s2 -> s1 = s2.
Proof.
  intros H. pose proof (a2b_b64encode s1) as H1.
  rewrite H, a2b_b64encode in H1. congruence.
Qed.

End Base64Facts.

(** ** The implementations keep the promises of the package *)

Section ReferenceAeadFacts.
Local Open Scope N_scope.

Lemma stream_sub_add (pad : N) (data : bytes) :
  forall i, stream_sub pad i (stream_add pad i data) = data.
Proof.
  induction data as [|b r IH]; intros i; simpl; [reflexivity|].
  rewrite IH. f_equal.
  pose proof (to_N_lt b). apply to_N_inj. rewrite !to_N_b8. lia.
Qed.

Lemma length_stream_add (pad : N) (data : bytes) :
  forall i, length (stream_add pad i data) = length data.
Proof. induction data; intros i; simpl; [reflexivity | now rewrite IHdata]. Qed.

Lemma length_tag16 (key nonce aad ct : bytes) : length (tag16 key nonce aad ct) = 16%nat.
Proof. unfold tag16. now rewrite length_map, length_seq. Qed.

Lemma tagged_encrypt_Ok (key nonce data aad ct : bytes) :
  tagged_encrypt key nonce data aad = Ok ct ->
  key_size_ok key = true /\ nonce_size_ok nonce = true
  /\ ct = stream_add (pad_of key nonce) 0 data
          ++ tag16 key nonce aad (stream_add (pad_of key nonce) 0 data).
Proof.
  unfold tagged_encrypt.
  destruct (key_size_ok key); [|discriminate].
  destruct (nonce_size_ok nonce); [|discriminate].
  simpl. intros [= <-]. auto.
Qed.

Lemma tagged_aead_correct : aead_correct tagged_aead.
Proof.
  intros key nonce data aad ct H. simpl in *.
  apply tagged_encrypt_Ok in H as (Hk & Hn & ->).
  unfold tagged_decrypt. rewrite Hk, Hn. simpl.
  set (c := stream_add (pad_of key nonce) 0 data).
  assert (Hlen : (length (c ++ tag16 key nonce aad c) - 16 = length c)%nat).
  { rewrite length_app, length_tag16. lia. }
  rewrite Hlen.
  replace (length (c ++ tag16 key nonce aad c) <? 16)%nat with false
    by (symmetry; apply Nat.ltb_ge; rewrite length_app, length_tag16; lia).
  rewrite take_app_length, drop_app_length, bytes_eqb_refl.
  unfold c. now rewrite stream_sub_add.
Qed.

Lemma tagged_aead_tag16 : aead_tag16 tagged_aead.
Proof.
  intros key nonce data aad ct H. simpl in *.
  apply tagged_encrypt_Ok in H as (_ & _ & ->).
  now rewrite length_app, length_tag16, length_stream_add.
Qed.

End ReferenceAeadFacts.

(** ** AES-GCM keeps the promises of the package *)

Section GcmFacts.
Local Open Scope N_scope.

Lemma lxor_small (a c : N) : a < 256 -> c < 256 -> N.lxor a c < 256.
Proof.
  intros Ha Hc.
  assert (H : N.shiftr (N.lxor a c) 8 = 0).
  { rewrite N.shiftr_lxor, !N.shiftr_div_pow2.
    rewrite (N.div_small a), (N.div_small c) by assumption. reflexivity. }
  rewrite N.shiftr_div_pow2 in H. apply N.div_small_iff in H; [exact H|discriminate].
Qed.

Lemma xor_byte_involutive (b k : byte) : xor_byte (xor_byte b k) k = b.
Proof.
  unfold xor_byte. pose proof (to_N_lt b). pose proof (to_N_lt k).
  rewrite to_N_b8_small by now apply lxor_small.
  rewrite N.lxor_assoc, N.lxor_nilpotent, N.lxor_0_r. apply b8_to_N.
Qed.

Lemma xor_stream_involutive (ks : nat -> byte) (data : bytes) :
  forall i, xor_stream ks i (xor_stream ks i data) = data.
Proof.
  induction data as [|b r IH]; intros i; [reflexivity|].
  cbn [xor_stream]. now rewrite xor_byte_involutive, IH.
Qed.

Lemma length_xor_stream (ks : nat -> byte) (data : bytes) :
  forall i, length (xor_stream ks i data) = length data.
Proof.
  induction data as [|b r IH]; intros i; [reflexivity|].
  cbn [xor_stream length]. now rewrite IH.
Qed.

Lemma length_gctr (key nonce data : bytes) :
  length (gctr key nonce data) = length data.
Proof. unfold gctr. apply length_xor_stream. Qed.

Lemma gctr_involutive (key nonce data : bytes) :
  gctr key nonce (gctr key nonce data) = data.
Proof.
  unfold gctr. rewrite length_xor_stream. apply xor_stream_involutive.
Qed.

Lemma length_gcm_tag (key nonce aad body : bytes) :
  length (gcm_tag key nonce aad body) = 16%nat.
Proof. unfold gcm_tag, block_bytes. now rewrite !length_map, length_seq. Qed.

Lemma gcm_encrypt_Ok (key nonce data aad ct : bytes) :
  gcm_encrypt key nonce data aad = Ok ct ->
  key_size_ok key = true /\ nonce_size_ok nonce = true
  /\ ct = gctr key nonce data ++ gcm_tag key nonce aad (gctr key nonce data).
Proof.
  unfold gcm_encrypt.
  destruct (key_size_ok key); [|discriminate].
  destruct (nonce_size_ok nonce); [|discriminate].
  cbn [negb]. intros [= <-]. auto.
Qed.

Lemma aes_gcm_checks_tag : aead_checks_tag aes_gcm gcm_tag.
Proof.
  intros key nonce data aad ct H. cbn [aesgcm_encrypt aesgcm_decrypt aes_gcm] in *.
  apply gcm_encrypt_Ok in H as (Hk & Hn & ->).
  set (body := gctr key nonce data).
  exists body. split; [reflexivity|]. split; [apply length_gcm_tag|].
  intros aad'. unfold gcm_decrypt. rewrite Hk, Hn. cbn [negb].
  assert (Hlen : (length (body ++ gcm_tag key nonce aad body) - 16 = length body)%nat)
    by (rewrite length_app, length_gcm_tag; lia).
  rewrite Hlen.
  replace (length (body ++ gcm_tag key nonce aad body) <? 16)%nat with false
    by (symmetry; apply Nat.ltb_ge; rewrite length_app, length_gcm_tag; lia).
  rewrite take_app_length, drop_app_length.
  subst body. now rewrite gctr_involutive.
Qed.

Lemma aes_gcm_correct : aead_correct aes_gcm.
Proof.
  intros key nonce data aad ct H.
  destruct (aes_gcm_checks_tag _ _ _ _ _ H) as (body & _ & _ & Hdec).
  now rewrite Hdec, bytes_eqb_refl.
Qed.

Lemma aes_gcm_tag16 : aead_tag16 aes_gcm.
Proof.
  intros key nonce data aad ct H. cbn [aesgcm_encrypt aes_gcm] in H.
  apply gcm_encrypt_Ok in H as (_ & _ & ->).
  now rewrite length_app, length_gcm_tag, length_gctr.
Qed.

(** Known answers: the example vectors of FIPS 197 (appendix C) for the
    three key sizes, and four test cases of the GCM specification. *)
Example aes_known_answers :
  let block := hex_bytes (lit "00112233445566778899aabbccddeeff") in
  let run n :=
    hex (map b8 (aes_block (round_keys (map N.of_nat (seq 0 n)))
                   (map Byte.to_N block))) in
  run 16%nat = lit "69c4e0d86a7b0430d8cdb78070b4c55a"
  /\ run 24%nat = lit "dda97ca4864cdfe06eaf70a0ec0d7191"
  /\ run 32%nat = lit "8ea2b7ca516745bfeafc49904b496089".
Proof. cbv zeta. repeat split; vm_compute; reflexivity. Qed.

Example gcm_known_answers :
  let key := hex_bytes (lit "feffe9928665731c6d6a8f9467308308feffe9928665731c6d6a8f9467308308") in
  let text := hex_bytes (lit "d9313225f88406e5a55909c5aff5269a86a7a9531534f7da2e4c303d8a318a721c3c0c95956809532fcf0e2449a6b525b16aedf5aa0de657ba637b39") in
  let aad := hex_bytes (lit "feedfacedeadbeeffeedfacedeadbeefabaddad2") in
  outcome_map hex (gcm_encrypt (repeat x00 32) (repeat x00 12) [] [])
  = Ok (lit "530f8afbc74536b9a963b4f1c4cb738b")
  /\ outcome_map hex
       (gcm_encrypt (repeat x00 32) (repeat x00 12) (repeat x00 16) [])
     = Ok (lit "cea7403d4d606b6e074ec5d3baf39d18d0d1c8a799996bf0265b98b5d48ab919")
  /\ outcome_map hex
       (gcm_encrypt key (hex_bytes (lit "cafebabefacedbaddecaf888")) text aad)
     = Ok (lit "522dc1f099567d07f47f37a32a84427d643a8cdcbfe5c0c97598a2bd2555d1aa8cb08e48590dbb3da7b08b1056828838c5f61e6393ba7a0abcc9f66276fc6ece0f4e1768cddf8853bb2d551b")
  /\ outcome_map (fun ct => hex (skipn 60 ct))
       (gcm_encrypt key (hex_bytes (lit "cafebabefacedbad")) text aad)
     = Ok (lit "3a337dbf46a792c45e454913fe2ea8f2").
Proof. cbv zeta. repeat split; vm_compute; reflexivity. Qed.

(** The envelope of the sample text under the sample key and nonce. *)
Example gcm_sample_envelope :
  envelope_of ssn_run_gcm
  = lit "AwoRGB8mLTQ7QklQCQeGEWMXQW0oXZcPXEbUwsJaWxyuFsdmjuycDwOhqdA=".
Proof. vm_compute. reflexivity. Qed.

End GcmFacts.

(** ** The cipher engine *)

Section EngineFacts.

Context (lib : aead)
        (entropy : nat -> byte)
        (get_secret : pystr -> outcome pystr)
        (key_vault_url : option pystr)
        (encryption_key_name : pystr).

Local Abbreviation get_key :=
  (_get_encryption_key entropy get_secret key_vault_url encryption_key_name).
Local Abbreviation enc :=
  (encrypt lib entropy get_secret key_vault_url encryption_key_name).
Local Abbreviation dec :=
  (decrypt lib entropy get_secret key_vault_url encryption_key_name).

Lemma set_key_cache_same (st : state) (k : option bytes) :
  _key_cache st = k -> set_key_cache k st = st.
Proof. destruct st. simpl. now intros ->. Qed.

(** A key held in the cache is returned as it is. *)
Lemma get_key_cached (st : state) (key : bytes) :
  _key_cache st = Some key -> key <> [] -> get_key st = (Ok key, st).
Proof.
  intros Hc Hne. unfold _get_encryption_key. rewrite Hc.
  destruct key; [contradiction | reflexivity].
Qed.

(** Without a cached key and without a vault, the key is the next 32
    bytes of the random source, and nothing is cached. *)
Lemma get_key_dev (st : state) :
  truthy_bytes (_key_cache st) = false ->
  truthy_str key_vault_url = false ->
  get_key st = (Ok (map entropy (seq (urandom_pos st) 32)),
                set_urandom_pos (urandom_pos st + 32) st).
Proof.
  intros Hc Hu. unfold _get_encryption_key. now rewrite Hc, Hu.
Qed.

(** With a vault, a resolved key ends up in the cache; the random source
    and the heap are not touched. *)
Lemma get_key_vault (st st1 : state) (key : bytes) :
  truthy_str key_vault_url = true ->
  get_key st = (Ok key, st1) ->
  _key_cache st1 = Some key /\ urandom_pos st1 = urandom_pos st
  /\ heap st1 = heap st.
Proof.
  intros Hu. unfold _get_encryption_key. rewrite Hu. simpl.
  destruct (truthy_bytes (_key_cache st)) eqn:Hc.
  - intros [= <- <-]. destruct (_key_cache st) as [[|b k]|]; try discriminate.
    auto.
  - destruct (get_secret encryption_key_name) as [v|e]; [|discriminate].
    destruct (b64decode v) as [k|e]; [|discriminate].
    intros [= <- <-]. auto.
Qed.

(** With a vault, the key resolved once is the key of every later
    resolution, which changes nothing any more. *)
Lemma get_key_again (st st1 st2 : state) (key : bytes) :
  truthy_str key_vault_url = true ->
  get_key st = (Ok key, st1) ->
  _key_cache st2 = _key_cache st1 ->
  get_key st2 = (Ok key, st2).
Proof.
  intros Hu H Hc. unfold _get_encryption_key in *. rewrite Hu in *. simpl in *.
  destruct (truthy_bytes (_key_cache st)) eqn:Ht.
  - injection H as <- <-. rewrite Hc, Ht. reflexivity.
  - destruct (get_secret encryption_key_name) as [v|e]; [|discriminate].
    destruct (b64decode v) as [k|e]; [|discriminate].
    injection H as <- <-. simpl in Hc. rewrite Hc.
    destruct k as [|b k]; simpl; [|reflexivity].
    now rewrite set_key_cache_same.
Qed.

Lemma length_urandom (pos n : nat) : length (map entropy (seq pos n)) = n.
Proof. now rewrite length_map, length_seq. Qed.

(** What a successful [encrypt] did, step by step. *)
Lemma encrypt_Ok (plaintext : pystr) (associated_data : option pystr)
    (st st' : state) (e : pystr) :
  enc plaintext associated_data st = (Ok e, st') ->
  exists key st1 aad data ct,
    let nonce := map entropy (seq (urandom_pos st1) 12) in
    get_key st = (Ok key, st1)
    /\ AESGCM lib key = Ok tt
    /\ st' = set_urandom_pos (urandom_pos st1 + 12) st1
    /\ prepare_aad associated_data = Ok aad
    /\ str_encode plaintext = Ok data
    /\ aesgcm_encrypt lib key nonce data aad = Ok ct
    /\ e = map Byte.to_N (b64encode (nonce ++ ct)).
Proof.
  unfold encrypt, bind, lift, os_urandom.
  destruct (get_key st) as [[key|?] st1] eqn:Hk; [|discriminate].
  destruct (AESGCM lib key) as [[]|?] eqn:Hc; [|discriminate].
  destruct (prepare_aad associated_data) as [aad|?] eqn:Ha; [|discriminate].
  destruct (str_encode plaintext) as [data|?] eqn:Hp; [|discriminate].
  destruct (aesgcm_encrypt lib key _ data aad) as [ct|?] eqn:He; [|discriminate].
  rewrite decode_b64encode. intros [= <- <-].
  exists key, st1, aad, data, ct. simpl. auto 10.
Qed.

(** [decrypt] once the key is resolved and the envelope decoded: the
    first 12 bytes are the nonce, the rest is handed to the primitive. *)
Lemma decrypt_steps (encrypted_data : pystr) (associated_data : option pystr)
    (st st1 : state) (key data : bytes) :
  get_key st = (Ok key, st1) ->
  AESGCM lib key = Ok tt ->
  b64decode encrypted_data = Ok data ->
  dec encrypted_data associated_data st =
  (outcome_bind (prepare_aad associated_data) (fun aad =>
     outcome_bind (aesgcm_decrypt lib key (firstn 12 data) (skipn 12 data) aad)
       bytes_decode), st1).
Proof.
  intros Hk Hc Hd. unfold decrypt, bind, lift.
  rewrite Hk, Hc, Hd.
  destruct (prepare_aad associated_data) as [aad|?]; [|reflexivity]. simpl.
  destruct (aesgcm_decrypt lib key _ _ aad); reflexivity.
Qed.

(** The envelope of [encrypt] decodes to nonce and sealed box. *)
Lemma envelope_split (nonce ct : bytes) :
  length nonce = 12 ->
  b64decode (map Byte.to_N (b64encode (nonce ++ ct))) = Ok (nonce ++ ct)
  /\ firstn 12 (nonce ++ ct) = nonce /\ skipn 12 (nonce ++ ct) = ct.
Proof.
  intros H. rewrite b64decode_b64encode. repeat split.
  - now apply take_app_length'.
  - now apply drop_app_length'.
Qed.

(** With a vault configured, [decrypt] returns what [encrypt] was given,
    in every state that has the cache [encrypt] left, and changes
    nothing. *)
Lemma decrypt_encrypt_cache (plaintext : pystr) (associated_data : option pystr)
    (st st' st2 : state) (e : pystr) :
  aead_correct lib ->
  truthy_str key_vault_url = true ->
  enc plaintext associated_data st = (Ok e, st') ->
  _key_cache st2 = _key_cache st' ->
  dec e associated_data st2 = (Ok plaintext, st2).
Proof.
  intros Hlib Hu He Hc2.
  apply encrypt_Ok in He as (key & st1 & aad & data & ct & Hk & Hc & -> & Ha & Hp & Hs & ->).
  destruct (envelope_split (map entropy (seq (urandom_pos st1) 12)) ct
              (length_urandom _ _)) as (Hd & Hn & Hct).
  rewrite (decrypt_steps _ associated_data _ _ key _
             (get_key_again st st1 st2 key Hu Hk Hc2) Hc Hd).
  rewrite Ha, Hn, Hct. cbn [outcome_bind].
  rewrite (Hlib _ _ _ _ _ Hs). cbn [outcome_bind].
  now rewrite (decode_encode _ _ Hp).
Qed.

Lemma decrypt_encrypt_vault (plaintext : pystr) (associated_data : option pystr)
    (st st' : state) (e : pystr) :
  aead_correct lib ->
  truthy_str key_vault_url = true ->
  enc plaintext associated_data st = (Ok e, st') ->
  dec e associated_data st' = (Ok plaintext, st').
Proof. intros Hlib Hu He. now apply (decrypt_encrypt_cache _ _ st st'). Qed.

Lemma b64encode_nonempty (b : byte) (r : bytes) : b64encode (b :: r) <> [].
Proof. destruct r as [|c [|d r]]; discriminate. Qed.

(** An envelope is never the empty string. *)
Lemma encrypt_nonempty (plaintext : pystr) (associated_data : option pystr)
    (st st' : state) (e : pystr) :
  enc plaintext associated_data st = (Ok e, st') -> e <> [].
Proof.
  intros He.
  apply encrypt_Ok in He as (key & st1 & aad & data & ct & _ & _ & _ & _ & _ & _ & ->).
  cbn [seq map app]. intros H. apply map_eq_nil in H.
  now apply b64encode_nonempty in H.
Qed.

(** [encrypt] keeps the cache of a vault-backed engine and the heap. *)
Lemma encrypt_frame (plaintext : pystr) (associated_data : option pystr)
    (st st' : state) (e : pystr) :
  enc plaintext associated_data st = (Ok e, st') ->
  heap st' = heap st
  /\ (truthy_str key_vault_url = true ->
      exists key, _key_cache st' = Some key
                  /\ forall st2, _key_cache st2 = Some key -> get_key st2 = (Ok key, st2)).
Proof.
  intros He.
  apply encrypt_Ok in He as (key & st1 & aad & data & ct & Hk & Hc & -> & _).
  split.
  - simpl. unfold _get_encryption_key in Hk.
    destruct (truthy_bytes (_key_cache st)); [now injection Hk as _ <-|].
    destruct (negb (truthy_str key_vault_url)).
    + unfold os_urandom in Hk. now injection Hk as _ <-.
    + destruct (get_secret encryption_key_name) as [v|?]; [|discriminate].
      destruct (b64decode v) as [k|?]; [|discriminate].
      now injection Hk as _ <-.
  - intros Hu. exists key. destruct (get_key_vault _ _ _ Hu Hk) as (Hcache & _).
    split; [exact Hcache|].
    intros st2 H2. apply (get_key_again _ _ _ _ Hu Hk). congruence.
Qed.

(** Without a vault every call resolves a key of its own: [encrypt] seals
    under the 32 bytes at the current position of the random source, and
    the resolution that follows it returns the 32 bytes after the nonce. *)
Lemma dev_mode_key_per_call (plaintext : pystr) (associated_data : option pystr)
    (st st' : state) (e : pystr) :
  truthy_bytes (_key_cache st) = false ->
  truthy_str key_vault_url = false ->
  enc plaintext associated_data st = (Ok e, st') ->
  get_key st = (Ok (map entropy (seq (urandom_pos st) 32)),
                set_urandom_pos (urandom_pos st + 32) st)
  /\ get_key st' = (Ok (map entropy (seq (urandom_pos st + 44) 32)),
                    set_urandom_pos (urandom_pos st + 76) st')
  /\ _key_cache st' = _key_cache st.
Proof.
  intros Hc Hu He.
  apply encrypt_Ok in He as (key & st1 & aad & data & ct & Hk & _ & -> & _).
  rewrite (get_key_dev _ Hc Hu) in Hk. injection Hk as <- <-.
  split; [now apply get_key_dev|]. split; [|reflexivity].
  rewrite get_key_dev by assumption. cbn [urandom_pos set_urandom_pos].
  replace (urandom_pos st + 32 + 12) with (urandom_pos st + 44) by lia.
  replace (urandom_pos st + 44 + 32) with (urandom_pos st + 76) by lia.
  reflexivity.
Qed.

(** Once the cache is settled, [encrypt] does not touch it. *)
Lemma encrypt_settled (plaintext : pystr) (associated_data : option pystr)
    (st st' : state) (e : pystr) :
  settled entropy get_secret key_vault_url encryption_key_name st ->
  enc plaintext associated_data st = (Ok e, st') ->
  _key_cache st' = _key_cache st.
Proof.
  intros (key & Hc & Hget) He.
  apply encrypt_Ok in He as (key' & st1 & aad & data & ct & Hk & _ & -> & _).
  rewrite (Hget st Hc) in Hk. now injection Hk as _ <-.
Qed.

Lemma settled_cache (st st2 : state) :
  settled entropy get_secret key_vault_url encryption_key_name st ->
  _key_cache st2 = _key_cache st ->
  settled entropy get_secret key_vault_url encryption_key_name st2.
Proof. intros (key & Hc & Hget) H2. exists key. split; [congruence | assumption]. Qed.

End EngineFacts.

(** ** Claims about the cipher engine *)

Section EngineClaims.

Context (lib : aead)
        (entropy : nat -> byte)
        (get_secret : pystr -> outcome pystr)
        (key_vault_url : option pystr)
        (encryption_key_name : pystr).

Local Abbreviation get_key :=
  (_get_encryption_key entropy get_secret key_vault_url encryption_key_name).
Local Abbreviation enc :=
  (encrypt lib entropy get_secret key_vault_url encryption_key_name).
Local Abbreviation dec :=
  (decrypt lib entropy get_secret key_vault_url encryption_key_name).

Lemma prepare_aad_text (a : option pystr) : prepare_aad a = str_encode (aad_text a).
Proof. unfold prepare_aad, aad_text. now destruct (truthy_str a). Qed.

Lemma str_encode_Raise (s : pystr) (x : exn) :
  str_encode s = Raise x -> x = UnicodeEncodeError.
Proof.
  revert x. induction s as [|c r IH]; intros x; simpl.
  - discriminate.
  - destruct (utf8_encode_cp c); [|now intros [= <-]].
    destruct (str_encode r); simpl; [discriminate|].
    intros [= <-]. now apply IH.
Qed.

Lemma aad_text_Some (a : pystr) : aad_text (Some a) = a.
Proof. now destruct a. Qed.

(** What [decrypt] makes of an envelope of [encrypt], in every state that
    has the key cache [encrypt] left: the tag of the box is recomputed
    under the associated data given and compared with the one in the
    envelope. *)
Lemma decrypt_envelope_checks_tag
    (tag : bytes -> bytes -> bytes -> bytes -> bytes)
    (s : pystr) (a1 : option pystr) (st st' : state) (e : pystr) :
  aead_checks_tag lib tag ->
  truthy_str key_vault_url = true ->
  enc s a1 st = (Ok e, st') ->
  exists key aad1,
    _key_cache st' = Some key
    /\ prepare_aad a1 = Ok aad1
    /\ envelope_tag e = tag key (envelope_nonce e) aad1 (envelope_body e)
    /\ (forall st2 a2 aad2,
          _key_cache st2 = _key_cache st' ->
          prepare_aad a2 = Ok aad2 ->
          dec e a2 st2 =
          (if bytes_eqb (tag key (envelope_nonce e) aad2 (envelope_body e))
                        (envelope_tag e)
           then Ok s else Raise InvalidTag, st2))
    /\ (forall st2 a2 x,
          _key_cache st2 = _key_cache st' ->
          prepare_aad a2 = Raise x ->
          dec e a2 st2 = (Raise UnicodeEncodeError, st2)).
Proof.
  intros Hlib Hu He.
  apply encrypt_Ok in He
    as (key & st1 & aad & data & ct & Hk & Hc & -> & Ha & Hp & Hs & ->).
  destruct (get_key_vault _ _ _ _ _ _ _ Hu Hk) as (Hcache & _).
  destruct (Hlib _ _ _ _ _ Hs) as (body & -> & Hlen & Hdec).
  set (nonce := map entropy (seq (urandom_pos st1) 12)) in *.
  set (t := tag key nonce aad body) in *.
  destruct (envelope_split nonce (body ++ t) (length_urandom entropy _ _))
    as (Hd & Hn & Hct).
  set (e := map Byte.to_N (b64encode (nonce ++ body ++ t))) in *.
  assert (Hbytes : envelope_bytes e = nonce ++ body ++ t)
    by (unfold envelope_bytes; now rewrite Hd).
  assert (Hnonce : envelope_nonce e = nonce)
    by (unfold envelope_nonce; now rewrite Hbytes).
  assert (Hbox : envelope_box e = body ++ t)
    by (unfold envelope_box; now rewrite Hbytes).
  assert (Hsplit : length (body ++ t) - 16 = length body)
    by (rewrite length_app, Hlen; lia).
  assert (Hbody : envelope_body e = body)
    by (unfold envelope_body; rewrite Hbox, Hsplit; apply take_app_length).
  assert (Htag : envelope_tag e = t)
    by (unfold envelope_tag; rewrite Hbox, Hsplit; apply drop_app_length).
  exists key, aad. rewrite Hnonce, Hbody, Htag.
  split; [exact Hcache|]. split; [exact Ha|]. split; [reflexivity|].
  assert (Hsteps : forall st2 a2,
             _key_cache st2 = _key_cache (set_urandom_pos (urandom_pos st1 + 12) st1) ->
             dec e a2 st2 =
             (outcome_bind (prepare_aad a2) (fun aad2 =>
                outcome_bind (aesgcm_decrypt lib key nonce (body ++ t) aad2)
                  bytes_decode), st2)).
  { intros st2 a2 H2.
    rewrite (decrypt_steps lib entropy get_secret key_vault_url
               encryption_key_name e a2 st2 st2 key (nonce ++ body ++ t));
      [now rewrite Hn, Hct | | exact Hc | exact Hd].
    apply (get_key_again entropy get_secret key_vault_url encryption_key_name
             st st1 st2 key Hu Hk). exact H2. }
  split.
  - intros st2 a2 aad2 H2 Ha2. rewrite (Hsteps st2 a2 H2), Ha2.
    cbn [outcome_bind]. rewrite Hdec. fold t.
    destruct (bytes_eqb (tag key nonce aad2 body) t); cbn [outcome_bind];
      [|reflexivity].
    now rewrite (decode_encode _ _ Hp).
  - intros st2 a2 x H2 Ha2. rewrite (Hsteps st2 a2 H2), Ha2.
    cbn [outcome_bind]. rewrite prepare_aad_text in Ha2.
    now rewrite (str_encode_Raise _ _ Ha2).
Qed.

(** C2, as amended.  An engine with a key vault, over a primitive that
    authenticates by a tag.  The envelope of [encrypt s a1] holds the tag
    of its nonce and body under the bytes of [a1] (no bytes when [a1] is
    omitted or empty).  [decrypt] of that envelope under [a2] recomputes
    the tag under the bytes of [a2]: where it differs from the tag in the
    envelope, [decrypt] raises [InvalidTag] and returns no plaintext; where
    it is the same, as it is when [a1] and [a2] give the same text and in
    particular for an omitted and an empty argument, [decrypt] returns the
    plaintext.  An [a2] that cannot be encoded as UTF-8 raises
    [UnicodeEncodeError].  The state is as before in every case. *)
Theorem decrypt_other_aad_checks_tag
    (tag : bytes -> bytes -> bytes -> bytes -> bytes)
    (s : pystr) (a1 a2 : option pystr) (st st' : state) (e : pystr) :
  aead_checks_tag lib tag ->
  truthy_str key_vault_url = true ->
  enc s a1 st = (Ok e, st') ->
  let key := default [] (_key_cache st') in
  let nonce := envelope_nonce e in
  let body := envelope_body e in
  (exists aad1, prepare_aad a1 = Ok aad1
                /\ envelope_tag e = tag key nonce aad1 body)
  /\ (forall aad2, prepare_aad a2 = Ok aad2 ->
        dec e a2 st' =
        (if bytes_eqb (tag key nonce aad2 body) (envelope_tag e)
         then Ok s else Raise InvalidTag, st'))
  /\ (forall x, prepare_aad a2 = Raise x ->
        dec e a2 st' = (Raise UnicodeEncodeError, st'))
  /\ (aad_text a1 = aad_text a2 -> dec e a2 st' = (Ok s, st')).
Proof.
  intros Hlib Hu He key nonce body.
  destruct (decrypt_envelope_checks_tag tag s a1 st st' e Hlib Hu He)
    as (key0 & aad1 & Hcache & Ha1 & Htag & Hok & Hraise).
  assert (Hkey : key = key0) by (unfold key; now rewrite Hcache).
  subst nonce body. rewrite Hkey.
  split; [now exists aad1|]. split; [|split].
  - intros aad2 Ha2. now apply Hok.
  - intros x Ha2. now apply (Hraise st' a2 x).
  - intros Hsame.
    assert (Ha2 : prepare_aad a2 = Ok aad1)
      by (rewrite prepare_aad_text, <- Hsame, <- prepare_aad_text; exact Ha1).
    rewrite (Hok st' a2 aad1 eq_refl Ha2), Htag. now rewrite bytes_eqb_refl.
Qed.

(** C7.  The envelope that [encrypt] returns is the base64 text of the 12
    bytes drawn as nonce followed by the sealed box of the primitive, which
    is 16 bytes longer than the encoded plaintext; and [decrypt] reads any
    envelope by that layout: base64-decode, the first 12 bytes as nonce, the
    remainder as ciphertext and tag. *)
Theorem envelope_layout (s : pystr) (a : option pystr) (st st' : state)
    (e : pystr) :
  aead_tag16 lib ->
  enc s a st = (Ok e, st') ->
  (exists key nonce data aad sealed,
      (exists st1, get_key st = (Ok key, st1))
      /\ b64decode e = Ok (nonce ++ sealed)
      /\ e = map Byte.to_N (b64encode (nonce ++ sealed))
      /\ length nonce = 12
      /\ nonce = map entropy (seq (urandom_pos st' - 12) 12)
      /\ str_encode s = Ok data
      /\ prepare_aad a = Ok aad
      /\ aesgcm_encrypt lib key nonce data aad = Ok sealed
      /\ length sealed = length data + 16
      /\ length (nonce ++ sealed) = 12 + length data + 16)
  /\ (forall (e' : pystr) (a' : option pystr) (sx sx' : state) (key' raw : bytes),
        get_key sx = (Ok key', sx') ->
        AESGCM lib key' = Ok tt ->
        b64decode e' = Ok raw ->
        dec e' a' sx =
        (outcome_bind (prepare_aad a') (fun aad' =>
           outcome_bind
             (aesgcm_decrypt lib key' (firstn 12 raw) (skipn 12 raw) aad')
             bytes_decode), sx')).
Proof.
  intros Hlib He. split.
  - apply encrypt_Ok in He as (key & st1 & aad & data & ct & Hk & Hc & -> & Ha & Hp & Hs & ->).
    exists key, (map entropy (seq (urandom_pos st1) 12)), data, aad, ct.
    pose proof (Hlib _ _ _ _ _ Hs) as Hlen.
    rewrite b64decode_b64encode, length_app, length_urandom. simpl.
    replace (urandom_pos st1 + 12 - 12) with (urandom_pos st1) by lia.
    split; [now exists st1|].
    repeat split; auto; lia.
  - intros e' a' sx sx' key' raw Hk Hc Hd. now apply decrypt_steps.
Qed.

(** C9.  The nonce of a call is the 12 bytes that the call draws from the
    random source, past everything drawn before; and two calls with the
    same plaintext and associated data whose draws differ return different
    envelopes. *)
Theorem fresh_nonce_fresh_envelope (s : pystr) (a : option pystr)
    (st1 st1' st2 st2' : state) (e1 e2 : pystr) :
  enc s a st1 = (Ok e1, st1') ->
  enc s a st2 = (Ok e2, st2') ->
  let n1 := map entropy (seq (urandom_pos st1' - 12) 12) in
  let n2 := map entropy (seq (urandom_pos st2' - 12) 12) in
  outcome_map (firstn 12) (b64decode e1) = Ok n1
  /\ outcome_map (firstn 12) (b64decode e2) = Ok n2
  /\ urandom_pos st1 + 12 <= urandom_pos st1'
  /\ (n1 <> n2 -> e1 <> e2).
Proof.
  intros H1 H2.
  apply encrypt_Ok in H1 as (k1 & sa & aad1 & d1 & c1 & Hk1 & _ & -> & _ & _ & _ & ->).
  apply encrypt_Ok in H2 as (k2 & sb & aad2 & d2 & c2 & Hk2 & _ & -> & _ & _ & _ & ->).
  cbv zeta. cbn [urandom_pos set_urandom_pos].
  replace (urandom_pos sa + 12 - 12) with (urandom_pos sa) by lia.
  replace (urandom_pos sb + 12 - 12) with (urandom_pos sb) by lia.
  destruct (envelope_split (map entropy (seq (urandom_pos sa) 12)) c1
              (length_urandom _ _ _)) as (Hd1 & Hn1 & _).
  destruct (envelope_split (map entropy (seq (urandom_pos sb) 12)) c2
              (length_urandom _ _ _)) as (Hd2 & Hn2 & _).
  rewrite Hd1, Hd2. cbn [outcome_map]. rewrite Hn1, Hn2.
  repeat split.
  - unfold _get_encryption_key in Hk1.
    destruct (truthy_bytes (_key_cache st1)); [injection Hk1 as _ <-; lia|].
    destruct (negb (truthy_str key_vault_url)).
    + unfold os_urandom in Hk1. injection Hk1 as _ <-. simpl. lia.
    + destruct (get_secret encryption_key_name) as [v|?]; [|discriminate].
      destruct (b64decode v) as [k|?]; [|discriminate].
      injection Hk1 as _ <-. simpl. lia.
  - intros Hne Heq. apply Hne.
    rewrite Heq in Hd1.
    assert (Heq2 : map entropy (seq (urandom_pos sa) 12) ++ c1
                   = map entropy (seq (urandom_pos sb) 12) ++ c2) by congruence.
    apply (f_equal (firstn 12)) in Heq2.
    now rewrite Hn1, Hn2 in Heq2.
Qed.

End EngineClaims.

(** ** The cipher engine on concrete inputs *)

(** C1.  The engine of the test suite ([PHIEncryption()], no vault)
    encrypts "Patient Name: John Doe", and decrypting the envelope it just
    returned raises [InvalidTag]: [decrypt] resolves a key of its own, the
    next 32 bytes of the random source (positions 44 to 75, after the key
    and the nonce of [encrypt]). *)
Example dev_mode_round_trip_breaks :
  let text := lit "Patient Name: John Doe" in
  is_ok (fst (dev_encrypt text None fresh_state)) = true
  /\ (e <- dev_encrypt text None ;; dev_decrypt e None) fresh_state
     = (Raise InvalidTag, mkState None 76 ∅).
Proof. split; vm_compute; reflexivity. Qed.

(** C3.  Without a vault, two consecutive key resolutions return two
    different keys, each 32 fresh bytes of the random source, and the cache
    stays empty. *)
Example dev_mode_key_not_cached :
  exists k1 k2 st1 st2,
    dev_get_key fresh_state = (Ok k1, st1)
    /\ dev_get_key st1 = (Ok k2, st2)
    /\ k1 = map sample_entropy (seq 0 32)
    /\ k2 = map sample_entropy (seq 32 32)
    /\ k1 <> k2
    /\ _key_cache st1 = None /\ _key_cache st2 = None.
Proof.
  exists (map sample_entropy (seq 0 32)), (map sample_entropy (seq 32 32)),
         (mkState None 32 ∅), (mkState None 64 ∅).
  repeat split; try reflexivity.
  intros H. vm_compute in H. discriminate H.
Qed.

(** An omitted [associated_data] and the empty string are the same
    associated data: an envelope sealed with the argument omitted opens
    under the empty string. *)
Example omitted_aad_opens_under_empty :
  (None : option pystr) <> Some []
  /\ is_ok (fst (vault_encrypt ssn_text None fresh_state)) = true
  /\ fst ((e <- vault_encrypt ssn_text None ;; vault_decrypt e (Some []))
            fresh_state) = Ok ssn_text.
Proof. split; [discriminate|]. split; vm_compute; reflexivity. Qed.

(** C2, as stated, fails for AES-GCM: the two sample texts of 48
    characters differ, and the envelope sealed under the first opens under
    the second. *)
Lemma colliding_aad_opens :
  at_signs <> colliding_text
  /\ gcm_encrypt_run ssn_text (Some at_signs) fresh_state
     = (Ok (envelope_of collision_run), snd collision_run)
  /\ gcm_decrypt_run (envelope_of collision_run) (Some colliding_text)
       (snd collision_run)
     = (Ok ssn_text, snd collision_run).
Proof.
  split; [intros H; vm_compute in H; discriminate H|].
  split; vm_compute; reflexivity.
Qed.

(** The end-to-end scenario under AES-GCM: "SSN: 123-45-6789" sealed
    under "ssn" does not open under "patient_id", and opens under "ssn". *)
Lemma decrypt_other_aad_checks_tag_witness :
  aead_checks_tag aes_gcm gcm_tag
  /\ truthy_str sample_vault_url = true
  /\ gcm_encrypt_run ssn_text (Some (lit "ssn")) fresh_state
     = (Ok (envelope_of ssn_run_gcm), snd ssn_run_gcm)
  /\ gcm_decrypt_run (envelope_of ssn_run_gcm) (Some (lit "patient_id"))
       (snd ssn_run_gcm)
     = (Raise InvalidTag, snd ssn_run_gcm)
  /\ gcm_decrypt_run (envelope_of ssn_run_gcm) (Some (lit "ssn"))
       (snd ssn_run_gcm)
     = (Ok ssn_text, snd ssn_run_gcm).
Proof.
  assert (H : gcm_encrypt_run ssn_text (Some (lit "ssn")) fresh_state
              = (Ok (envelope_of ssn_run_gcm), snd ssn_run_gcm))
    by (vm_compute; reflexivity).
  split; [exact aes_gcm_checks_tag|]. split; [reflexivity|]. split; [exact H|].
  destruct (decrypt_other_aad_checks_tag aes_gcm sample_entropy sample_vault
              sample_vault_url default_key_name gcm_tag ssn_text
              (Some (lit "ssn")) (Some (lit "patient_id")) fresh_state
              (snd ssn_run_gcm) (envelope_of ssn_run_gcm)
              aes_gcm_checks_tag eq_refl H)
    as (_ & Hother & _).
  destruct (decrypt_other_aad_checks_tag aes_gcm sample_entropy sample_vault
              sample_vault_url default_key_name gcm_tag ssn_text
              (Some (lit "ssn")) (Some (lit "ssn")) fresh_state
              (snd ssn_run_gcm) (envelope_of ssn_run_gcm)
              aes_gcm_checks_tag eq_refl H)
    as (_ & _ & _ & Hsame).
  split; [|exact (Hsame eq_refl)].
  assert (Ha2 : prepare_aad (Some (lit "patient_id"))
                = Ok [x70; x61; x74; x69; x65; x6e; x74; x5f; x69; x64])
    by (vm_compute; reflexivity).
  specialize (Hother _ Ha2).
  match type of Hother with
  | _ = (if ?c then _ else _, _) =>
    replace c with false in Hother by (vm_compute; reflexivity)
  end.
  exact Hother.
Defined.

(** The envelope of that text under the 16-byte-tag implementation:
    12 bytes of nonce and a box 16 bytes longer than the text. *)
Lemma envelope_layout_witness :
  aead_tag16 tagged_aead
  /\ vault_encrypt ssn_text (Some (lit "ssn")) fresh_state
     = (Ok (envelope_of ssn_run), snd ssn_run)
  /\ (exists nonce sealed,
        b64decode (envelope_of ssn_run) = Ok (nonce ++ sealed)
        /\ length nonce = 12
        /\ length sealed = length ssn_text + 16).
Proof.
  assert (H : vault_encrypt ssn_text (Some (lit "ssn")) fresh_state
              = (Ok (envelope_of ssn_run), snd ssn_run))
    by (vm_compute; reflexivity).
  split; [exact tagged_aead_tag16|]. split; [exact H|].
  destruct (envelope_layout tagged_aead sample_entropy sample_vault
              sample_vault_url default_key_name ssn_text (Some (lit "ssn"))
              fresh_state (snd ssn_run) (envelope_of ssn_run)
              tagged_aead_tag16 H)
    as [(key & nonce & data & aad & sealed & _ & Hd & _ & Hn & _ & Hp & _ & _ & Hl & _) _].
  exists nonce, sealed. repeat split; try assumption.
  rewrite Hl. f_equal. vm_compute in Hp. injection Hp as <-. reflexivity.
Defined.

(** Encrypting the same text twice in a row gives two envelopes. *)
Lemma fresh_nonce_fresh_envelope_witness :
  let second := vault_encrypt ssn_text (Some (lit "ssn")) (snd ssn_run) in
  vault_encrypt ssn_text (Some (lit "ssn")) fresh_state
  = (Ok (envelope_of ssn_run), snd ssn_run)
  /\ is_ok (fst second) = true
  /\ envelope_of ssn_run <> envelope_of second.
Proof.
  intros second.
  assert (H1 : vault_encrypt ssn_text (Some (lit "ssn")) fresh_state
               = (Ok (envelope_of ssn_run), snd ssn_run))
    by (vm_compute; reflexivity).
  assert (H2 : second = (Ok (envelope_of second), snd second))
    by (vm_compute; reflexivity).
  split; [exact H1|]. split; [vm_compute; reflexivity|].
  apply (fresh_nonce_fresh_envelope tagged_aead sample_entropy sample_vault
           sample_vault_url default_key_name ssn_text (Some (lit "ssn"))
           fresh_state (snd ssn_run) (snd ssn_run) (snd second)
           (envelope_of ssn_run) (envelope_of second) H1 H2).
  vm_compute. discriminate.
Defined.

(** ** Field-level encryption *)

Section FieldFacts.

Context (lib : aead)
        (entropy : nat -> byte)
        (get_secret : pystr -> outcome pystr)
        (key_vault_url : option pystr)
        (encryption_key_name : pystr).

Local Abbreviation get_key :=
  (_get_encryption_key entropy get_secret key_vault_url encryption_key_name).
Local Abbreviation enc :=
  (encrypt lib entropy get_secret key_vault_url encryption_key_name).
Local Abbreviation dec :=
  (decrypt lib entropy get_secret key_vault_url encryption_key_name).
Local Abbreviation eop :=
  (encrypt_op lib entropy get_secret key_vault_url encryption_key_name).
Local Abbreviation dop :=
  (decrypt_op lib entropy get_secret key_vault_url encryption_key_name).
Local Abbreviation enc_loop :=
  (encrypt_fields_loop lib entropy get_secret key_vault_url encryption_key_name).
Local Abbreviation dec_loop :=
  (decrypt_fields_loop lib entropy get_secret key_vault_url encryption_key_name).
Local Abbreviation is_settled :=
  (settled entropy get_secret key_vault_url encryption_key_name).
Local Abbreviation opens :=
  (opens_to lib entropy get_secret key_vault_url encryption_key_name).
Local Abbreviation layers :=
  (layered lib entropy get_secret key_vault_url encryption_key_name).
Local Abbreviation sealed_as :=
  (sealed_value lib entropy get_secret key_vault_url encryption_key_name).
Local Abbreviation sealed_fields :=
  (fields_sealed lib entropy get_secret key_vault_url encryption_key_name).
Local Abbreviation unseal :=
  (to_unseal lib entropy get_secret key_vault_url encryption_key_name).

(** The two loops of the source are instances of [fields_loop]. *)
Lemma encrypt_fields_loop_eq (l : nat) (fields : list pystr) :
  enc_loop l fields = fields_loop eop l fields.
Proof.
  induction fields as [|h rest IH]; simpl; [reflexivity|].
  rewrite IH. reflexivity.
Qed.

Lemma decrypt_fields_loop_eq (l : nat) (fields : list pystr) :
  dec_loop l fields = fields_loop dop l fields.
Proof.
  induction fields as [|h rest IH]; simpl; [reflexivity|].
  rewrite IH. reflexivity.
Qed.

Lemma deref_Some (l : nat) (st : state) (d : gmap pystr pyvalue) :
  heap st !! l = Some d -> deref l st = (Ok d, st).
Proof. intros H. unfold deref. now rewrite H. Qed.

Lemma dict_setitem_Some (l : nat) (k : pystr) (v : pyvalue) (st : state)
    (d : gmap pystr pyvalue) :
  heap st !! l = Some d ->
  dict_setitem l k v st = (Ok tt, set_heap (<[l := <[k := v]> d]> (heap st)) st).
Proof. intros H. unfold dict_setitem, bind. now rewrite (deref_Some _ _ _ H). Qed.

Lemma dict_copy_Some (l : nat) (st : state) (d : gmap pystr pyvalue) :
  heap st !! l = Some d ->
  dict_copy l st =
  (Ok (fresh (dom (heap st))),
   set_heap (<[fresh (dom (heap st)) := d]> (heap st)) st).
Proof. intros H. unfold dict_copy, bind. now rewrite (deref_Some _ _ _ H). Qed.

Lemma fresh_not_allocated (h : gmap nat (gmap pystr pyvalue)) :
  h !! fresh (dom h) = None.
Proof. apply not_elem_of_dom. apply is_fresh. Qed.

Lemma fields_loop_skip (op : pystr -> pyvalue -> M pystr) (l : nat) (h : pystr)
    (rest : list pystr) (st : state) (d : gmap pystr pyvalue) :
  heap st !! l = Some d ->
  (d !! h = None \/ exists v, d !! h = Some v /\ truthy v = false) ->
  fields_loop op l (h :: rest) st = fields_loop op l rest st.
Proof.
  intros Hl Hh. cbn [fields_loop]. unfold bind at 1.
  rewrite (deref_Some _ _ _ Hl).
  destruct Hh as [-> | (v & -> & ->)]; reflexivity.
Qed.

Lemma fields_loop_step (op : pystr -> pyvalue -> M pystr) (l : nat) (h : pystr)
    (rest : list pystr) (st : state) (d : gmap pystr pyvalue) (v : pyvalue) :
  heap st !! l = Some d -> d !! h = Some v -> truthy v = true ->
  fields_loop op l (h :: rest) st =
  match op h v st with
  | (Ok p, st1) =>
    match dict_setitem l h (VStr p) st1 with
    | (Ok _, st2) => fields_loop op l rest st2
    | (Raise e, st2) => (Raise e, st2)
    end
  | (Raise e, st1) => (Raise e, st1)
  end.
Proof.
  intros Hl Hh Hv. cbn [fields_loop]. unfold bind.
  rewrite (deref_Some _ _ _ Hl), Hh, Hv.
  destruct (op h v st) as [[p|e] st1]; [|reflexivity].
  destruct (dict_setitem l h (VStr p) st1) as [[[]|e] st2]; reflexivity.
Qed.

(** Whatever [op] does to a listed true value, a loop that succeeds has
    only rewritten the record behind [l], and only at listed fields whose
    value was true. *)
Lemma fields_loop_frame (op : pystr -> pyvalue -> M pystr) (l : nat) :
  (forall f v st st' p, op f v st = (Ok p, st') -> heap st' = heap st) ->
  forall (fields : list pystr) (st st' : state) (d : gmap pystr pyvalue),
    heap st !! l = Some d ->
    fields_loop op l fields st = (Ok tt, st') ->
    exists d',
      heap st' = <[l := d']> (heap st)
      /\ forall k,
           (k ∉ fields \/ d !! k = None
            \/ exists v, d !! k = Some v /\ truthy v = false) ->
           d' !! k = d !! k.
Proof.
  intros Hop. induction fields as [|h rest IH]; intros st st' d Hl Hrun.
  - injection Hrun as <-. exists d. split; [|auto].
    symmetry. now apply insert_id.
  - destruct (d !! h) as [v|] eqn:Hh; [destruct (truthy v) eqn:Hv|].
    + rewrite (fields_loop_step _ _ _ _ _ _ _ Hl Hh Hv) in Hrun.
      destruct (op h v st) as [[p|e] st1] eqn:Hp; [|discriminate].
      pose proof (Hop _ _ _ _ _ Hp) as Hheap.
      assert (Hl1 : heap st1 !! l = Some d) by now rewrite Hheap.
      rewrite (dict_setitem_Some _ _ _ _ _ Hl1) in Hrun.
      apply IH with (d := <[h := VStr p]> d) in Hrun
        as (d' & Hd' & Hsame); [|simpl; apply lookup_insert_eq].
      exists d'. split.
      * rewrite Hd'. simpl. now rewrite insert_insert_eq, Hheap.
      * intros k Hk.
        assert (Hkh : h <> k).
        { intros ->. destruct Hk as [Hk | [Hk | (v' & Hk & Hv')]].
          - apply Hk. left.
          - congruence.
          - congruence. }
        rewrite <- (lookup_insert_ne d h k (VStr p)) by assumption.
        apply Hsame. rewrite lookup_insert_ne by assumption.
        destruct Hk as [Hk | Hk]; [left | now right].
        intros Hin. apply Hk. now right.
    + rewrite (fields_loop_skip _ _ _ _ _ _ Hl) in Hrun by eauto.
      apply (IH _ _ _ Hl) in Hrun as (d' & Hd' & Hsame).
      exists d'. split; [assumption|].
      intros k Hk. apply Hsame.
      destruct Hk as [Hk | Hk]; [left | now right].
      intros Hin. apply Hk. now right.
    + rewrite (fields_loop_skip _ _ _ _ _ _ Hl) in Hrun by eauto.
      apply (IH _ _ _ Hl) in Hrun as (d' & Hd' & Hsame).
      exists d'. split; [assumption|].
      intros k Hk. apply Hsame.
      destruct Hk as [Hk | Hk]; [left | now right].
      intros Hin. apply Hk. now right.
Qed.

Lemma occurrences_head (h : pystr) (rest : list pystr) :
  occurrences h (h :: rest) = S (occurrences h rest).
Proof. cbn [occurrences]. now rewrite bool_decide_eq_true_2. Qed.

Lemma occurrences_other (h k : pystr) (rest : list pystr) :
  h <> k -> occurrences k (h :: rest) = occurrences k rest.
Proof. intros H. cbn [occurrences]. now rewrite bool_decide_eq_false_2. Qed.

Lemma occurrences_0 (k : pystr) (fields : list pystr) :
  occurrences k fields = 0 <-> k ∉ fields.
Proof.
  induction fields as [|h rest IH].
  - split; [intros _ H; inversion H | reflexivity].
  - destruct (decide (h = k)) as [->|Hne].
    + rewrite occurrences_head. split; [discriminate|].
      intros H. exfalso. apply H. left.
    + rewrite occurrences_other, IH by assumption. split.
      * intros H Hin. inversion Hin; subst; auto.
      * intros H Hin. apply H. now right.
Qed.

(** One more layer below the innermost one. *)
Lemma layered_inner (c : option bytes) (field : pystr) (n : nat) (x e1 e : pystr) :
  layers c field n e1 e -> e1 <> [] -> opens c field e1 x ->
  layers c field (S n) x e.
Proof.
  induction 1 as [y | n y e0 e' Hne Hopen _ IH]; intros H1 Ho.
  - apply layered_S with (e := x); [assumption | assumption | constructor].
  - apply layered_S with (e := e0); auto.
Qed.

Lemma encrypt_op_heap (f : pystr) (v : pyvalue) (st st' : state) (p : pystr) :
  eop f v st = (Ok p, st') -> heap st' = heap st.
Proof. intros H. now apply encrypt_frame in H as [H _]. Qed.

Lemma settled_set_heap (st : state) (h : gmap nat (gmap pystr pyvalue)) :
  is_settled st -> is_settled (set_heap h st).
Proof. intros H. now apply (settled_cache _ _ _ _ st). Qed.

(** With a vault and a correct primitive, the encrypting loop seals every
    true value of a listed field, once per occurrence in the list, under
    the cache it leaves behind. *)
Lemma encrypt_loop_seals (l : nat) :
  aead_correct lib ->
  truthy_str key_vault_url = true ->
  forall (fields : list pystr) (st st' : state) (d : gmap pystr pyvalue),
    heap st !! l = Some d ->
    fields_loop eop l fields st = (Ok tt, st') ->
    exists d',
      heap st' = <[l := d']> (heap st)
      /\ sealed_fields (_key_cache st') fields d d'
      /\ (is_settled st -> _key_cache st' = _key_cache st).
Proof.
  intros Hlib Hu. induction fields as [|h rest IH]; intros st st' d Hl Hrun.
  - injection Hrun as <-. exists d. split; [symmetry; now apply insert_id|].
    split; [|reflexivity].
    intros k. destruct (d !! k) as [v|]; [|reflexivity].
    destruct (truthy v); [|reflexivity]. now exists v.
  - destruct (d !! h) as [v|] eqn:Hh; [destruct (truthy v) eqn:Hv|].
    + rewrite (fields_loop_step _ _ _ _ _ _ _ Hl Hh Hv) in Hrun.
      destruct (eop h v st) as [[e|x] st1] eqn:He; [|discriminate].
      pose proof (encrypt_frame _ _ _ _ _ _ _ _ _ _ He) as [Hheap Hset].
      destruct (Hset Hu) as (key & Hkey & Hget).
      assert (Hs1 : is_settled st1) by (exists key; auto).
      assert (Hl1 : heap st1 !! l = Some d) by now rewrite Hheap.
      rewrite (dict_setitem_Some _ _ _ _ _ Hl1) in Hrun.
      apply IH with (d := <[h := VStr e]> d) in Hrun
        as (d' & Hd' & Hsealed & Hcache); [|simpl; apply lookup_insert_eq].
      specialize (Hcache (settled_set_heap _ _ Hs1)). simpl in Hcache.
      assert (Hopen : opens (_key_cache st') h e (py_str v)).
      { intros st2 H2.
        apply (decrypt_encrypt_cache lib entropy get_secret key_vault_url
                 encryption_key_name (py_str v) (Some h) st st1 st2 e);
          [assumption | assumption | exact He | congruence]. }
      assert (Hne : e <> []) by exact (encrypt_nonempty _ _ _ _ _ _ _ _ _ _ He).
      exists d'. split; [|split].
      * rewrite Hd'. simpl. now rewrite insert_insert_eq, Hheap.
      * intros k. destruct (decide (h = k)) as [<-|Hkh].
        -- rewrite Hh, Hv, occurrences_head.
           specialize (Hsealed h). rewrite lookup_insert_eq in Hsealed.
           simpl in Hsealed. destruct e as [|c0 e0]; [contradiction|].
           destruct Hsealed as (w & Hw & Hsv). exists w. split; [assumption|].
           destruct (occurrences h rest) as [|n].
           ++ simpl in Hsv. subst w. exists (c0 :: e0). split; [reflexivity|].
              apply layered_S with (e := py_str v); [assumption | assumption | constructor].
           ++ destruct Hsv as (e2 & -> & Hlay). exists e2. split; [reflexivity|].
              now apply layered_inner with (e1 := c0 :: e0).
        -- specialize (Hsealed k). rewrite lookup_insert_ne in Hsealed by assumption.
           now rewrite occurrences_other.
      * intros Hs. rewrite Hcache. apply (encrypt_settled _ _ _ _ _ _ _ _ _ _ Hs He).
    + rewrite (fields_loop_skip _ _ _ _ _ _ Hl) in Hrun by eauto.
      apply (IH _ _ _ Hl) in Hrun as (d' & Hd' & Hsealed & Hcache).
      exists d'. split; [assumption|]. split; [|assumption].
      intros k. specialize (Hsealed k).
      destruct (decide (h = k)) as [<-|Hkh].
      * now rewrite Hh, Hv in *.
      * now rewrite occurrences_other.
    + rewrite (fields_loop_skip _ _ _ _ _ _ Hl) in Hrun by eauto.
      apply (IH _ _ _ Hl) in Hrun as (d' & Hd' & Hsealed & Hcache).
      exists d'. split; [assumption|]. split; [|assumption].
      intros k. specialize (Hsealed k).
      destruct (decide (h = k)) as [<-|Hkh].
      * now rewrite Hh in *.
      * now rewrite occurrences_other.
Qed.

Lemma set_heap_same (st : state) : set_heap (heap st) st = st.
Proof. now destruct st. Qed.

(** The decrypting loop takes the layers off again, one per occurrence,
    and touches nothing but the record behind [l]. *)
Lemma decrypt_loop_unseals (l : nat) (c : option bytes) :
  forall (fields : list pystr) (st : state) (d goal : gmap pystr pyvalue),
    heap st !! l = Some d ->
    _key_cache st = c ->
    (forall k, unseal c k (occurrences k fields) (d !! k) (goal !! k)) ->
    fields_loop dop l fields st = (Ok tt, set_heap (<[l := goal]> (heap st)) st).
Proof.
  induction fields as [|h rest IH]; intros st d goal Hl Hc Hun.
  - assert (d = goal) as <- by (apply map_eq; intros k; exact (Hun k)).
    simpl. unfold ret. now rewrite insert_id, set_heap_same.
  - pose proof (Hun h) as Hh. rewrite occurrences_head in Hh.
    destruct Hh as [(Heq & Hfalse) | (e & x & Hnow & Hgoal & Hlay)].
    + rewrite (fields_loop_skip _ _ _ _ _ _ Hl) by exact Hfalse.
      apply (IH _ _ _ Hl Hc). intros k.
      destruct (decide (h = k)) as [<-|Hkh].
      * destruct (occurrences h rest); [exact Heq | now left].
      * rewrite <- (occurrences_other h k rest) by assumption. apply Hun.
    + inversion Hlay as [|n x' e1 e' Hne Hopen Hrest]; subst.
      assert (Hv : truthy (VStr e) = true) by (destruct e; [contradiction | reflexivity]).
      rewrite (fields_loop_step _ _ _ _ _ _ _ Hl Hnow Hv).
      change (dop h (VStr e) st) with (dec e (Some h) st).
      rewrite (Hopen st eq_refl), (dict_setitem_Some _ _ _ _ _ Hl).
      rewrite (IH _ (<[h := VStr e1]> d) goal).
      * simpl. now rewrite insert_insert_eq.
      * simpl. apply lookup_insert_eq.
      * reflexivity.
      * intros k. destruct (decide (h = k)) as [<-|Hkh].
        -- rewrite lookup_insert_eq, Hgoal.
           destruct (occurrences h rest) as [|n].
           ++ inversion Hrest; subst. reflexivity.
           ++ right. now exists e1, x.
        -- rewrite lookup_insert_ne by assumption.
           rewrite <- (occurrences_other h k rest) by assumption. apply Hun.
Qed.

Lemma restored_lookup (fields : list pystr) (d : gmap pystr pyvalue) (k : pystr) :
  restored fields d !! k =
  (fun v => if bool_decide (k ∈ fields) && truthy v then VStr (py_str v) else v)
    <$> d !! k.
Proof.
  unfold restored. rewrite map_lookup_imap. now destruct (d !! k).
Qed.

Lemma sealed_to_unseal (c : option bytes) (fields : list pystr)
    (d d' : gmap pystr pyvalue) :
  sealed_fields c fields d d' ->
  forall k, unseal c k (occurrences k fields) (d' !! k) (restored fields d !! k).
Proof.
  intros Hs k. specialize (Hs k). rewrite restored_lookup.
  pose proof (occurrences_0 k fields) as H0.
  destruct (d !! k) as [v|]; simpl.
  - destruct (truthy v) eqn:Hv.
    + destruct Hs as (w & Hw & Hsv).
      destruct (occurrences k fields) as [|n].
      * simpl in Hsv. subst w. rewrite bool_decide_eq_false_2 by now apply H0.
        exact Hw.
      * destruct Hsv as (e & -> & Hlay). right.
        rewrite bool_decide_eq_true_2.
        -- exists e, (py_str v). auto.
        -- destruct (decide (k ∈ fields)) as [|Hn]; [assumption|].
           apply H0 in Hn. discriminate.
    + rewrite andb_false_r.
      destruct (occurrences k fields); [exact Hs | left; eauto].
  - destruct (occurrences k fields); [exact Hs | left; eauto].
Qed.

(** The round trip of a whole record: [encrypt_fields] allocates a new
    record next to the input, and [decrypt_fields] of that record
    allocates a third one, which holds the restored record. *)
Lemma fields_round_trip (data : nat) (fields : list pystr) (st st1 : state)
    (l1 : nat) (d : gmap pystr pyvalue) :
  aead_correct lib ->
  truthy_str key_vault_url = true ->
  heap st !! data = Some d ->
  encrypt_fields lib entropy get_secret key_vault_url encryption_key_name
    data fields st = (Ok l1, st1) ->
  exists d1,
    l1 = fresh (dom (heap st))
    /\ heap st1 = <[l1 := d1]> (heap st)
    /\ sealed_fields (_key_cache st1) fields d d1
    /\ decrypt_fields lib entropy get_secret key_vault_url encryption_key_name
         l1 fields st1
       = (Ok (fresh (dom (heap st1))),
          set_heap (<[fresh (dom (heap st1)) := restored fields d]> (heap st1)) st1).
Proof.
  intros Hlib Hu Hd Hrun. unfold encrypt_fields, bind in Hrun.
  rewrite (dict_copy_Some _ _ _ Hd), encrypt_fields_loop_eq in Hrun.
  match type of Hrun with context [fields_loop _ _ _ ?s] => set (st0 := s) in * end.
  destruct (fields_loop eop (fresh (dom (heap st))) fields st0)
    as [[[]|x] st1'] eqn:Hloop; [|discriminate].
  injection Hrun as <- <-.
  apply encrypt_loop_seals with (d := d) in Hloop
    as (d1 & Hheap & Hsealed & _); try assumption;
    [|subst st0; simpl; apply lookup_insert_eq].
  subst st0. simpl in Hheap. rewrite insert_insert_eq in Hheap.
  exists d1. split; [reflexivity|]. split; [assumption|]. split; [assumption|].
  assert (Hl1 : heap st1' !! fresh (dom (heap st)) = Some d1)
    by (rewrite Hheap; apply lookup_insert_eq).
  unfold decrypt_fields, bind.
  rewrite (dict_copy_Some _ _ _ Hl1), decrypt_fields_loop_eq.
  rewrite (decrypt_loop_unseals _ (_key_cache st1') fields _ d1 (restored fields d)).
  - simpl. now rewrite insert_insert_eq.
  - simpl. apply lookup_insert_eq.
  - reflexivity.
  - now apply sealed_to_unseal.
Qed.

End FieldFacts.

(** ** Claims about field-level encryption *)

Section FieldClaims.

Context (lib : aead)
        (entropy : nat -> byte)
        (get_secret : pystr -> outcome pystr)
        (key_vault_url : option pystr)
        (encryption_key_name : pystr).

Local Abbreviation enc :=
  (encrypt lib entropy get_secret key_vault_url encryption_key_name).
Local Abbreviation enc_fields :=
  (encrypt_fields lib entropy get_secret key_vault_url encryption_key_name).
Local Abbreviation dec_fields :=
  (decrypt_fields lib entropy get_secret key_vault_url encryption_key_name).
Local Abbreviation eop :=
  (encrypt_op lib entropy get_secret key_vault_url encryption_key_name).
Local Abbreviation dop :=
  (decrypt_op lib entropy get_secret key_vault_url encryption_key_name).

Lemma decrypt_op_heap (f : pystr) (v : pyvalue) (st st' : state) (p : pystr) :
  dop f v st = (Ok p, st') -> heap st' = heap st.
Proof.
  assert (Hk : forall key s1,
             _get_encryption_key entropy get_secret key_vault_url
               encryption_key_name st = (Ok key, s1) -> heap s1 = heap st).
  { intros key s1. unfold _get_encryption_key, os_urandom.
    destruct (truthy_bytes (_key_cache st)); [now intros [= _ <-]|].
    destruct (negb (truthy_str key_vault_url)); [now intros [= _ <-]|].
    destruct (get_secret encryption_key_name) as [x|?]; [|discriminate].
    destruct (b64decode x); [|discriminate]. now intros [= _ <-]. }
  assert (Hother : decrypt_not_str lib entropy get_secret key_vault_url
                      encryption_key_name st = (Ok p, st') -> heap st' = heap st).
  { unfold decrypt_not_str, bind, lift.
    destruct (_get_encryption_key _ _ _ _ st) as [[key|?] s1]; [|discriminate].
    destruct (AESGCM lib key) as [[]|?]; discriminate. }
  destruct v as [| | |s]; try exact Hother. clear Hother.
  unfold decrypt_op, decrypt, bind, lift.
  destruct (_get_encryption_key _ _ _ _ st) as [[key|?] s1] eqn:Hg; [|discriminate].
  specialize (Hk _ _ eq_refl).
  destruct (AESGCM lib key) as [[]|?]; [|discriminate].
  destruct (b64decode s); [|discriminate].
  destruct (prepare_aad (Some f)); [|discriminate].
  destruct (aesgcm_decrypt lib key _ _ _); [|discriminate].
  destruct (bytes_decode _); [|discriminate].
  now intros [= _ <-].
Qed.

(** What either operation leaves alone, whatever the engine: the input
    record, and in the new record every field that is not listed, is
    absent, or holds a false value. *)
Lemma fields_op_frame (op : pystr -> pyvalue -> M pystr)
    (run : nat -> list pystr -> M nat) :
  (forall f v st st' p, op f v st = (Ok p, st') -> heap st' = heap st) ->
  (forall data fields st,
      run data fields st =
      (l <- dict_copy data ;; _ <- fields_loop op l fields ;; ret l) st) ->
  forall (data : nat) (fields : list pystr) (st st1 : state) (l1 : nat)
         (d : gmap pystr pyvalue),
    heap st !! data = Some d ->
    run data fields st = (Ok l1, st1) ->
    exists d1,
      l1 = fresh (dom (heap st))
      /\ heap st1 = <[l1 := d1]> (heap st)
      /\ forall k,
           (k ∉ fields \/ d !! k = None
            \/ exists v, d !! k = Some v /\ truthy v = false) ->
           d1 !! k = d !! k.
Proof.
  intros Hop Hrun data fields st st1 l1 d Hd H.
  rewrite Hrun in H. unfold bind in H.
  rewrite (dict_copy_Some _ _ _ Hd) in H.
  match type of H with context [fields_loop _ _ _ ?s] => set (st0 := s) in * end.
  destruct (fields_loop op (fresh (dom (heap st))) fields st0)
    as [[[]|x] st1'] eqn:Hloop; [|discriminate].
  injection H as <- <-.
  apply fields_loop_frame with (d := d) in Hloop as (d1 & Hheap & Hsame);
    [|assumption|subst st0; simpl; apply lookup_insert_eq].
  subst st0. simpl in Hheap. rewrite insert_insert_eq in Hheap.
  exists d1. auto.
Qed.

Lemma encrypt_fields_unfold (data : nat) (fields : list pystr) (st : state) :
  enc_fields data fields st =
  (l <- dict_copy data ;; _ <- fields_loop eop l fields ;; ret l) st.
Proof.
  unfold encrypt_fields, bind.
  destruct (dict_copy data st) as [[l|x] s]; [|reflexivity].
  now rewrite encrypt_fields_loop_eq.
Qed.

Lemma decrypt_fields_unfold (data : nat) (fields : list pystr) (st : state) :
  dec_fields data fields st =
  (l <- dict_copy data ;; _ <- fields_loop dop l fields ;; ret l) st.
Proof.
  unfold decrypt_fields, bind.
  destruct (dict_copy data st) as [[l|x] s]; [|reflexivity].
  now rewrite decrypt_fields_loop_eq.
Qed.

Lemma allocated_not_fresh (h : gmap nat (gmap pystr pyvalue)) (l : nat)
    (d : gmap pystr pyvalue) :
  h !! l = Some d -> fresh (dom h) <> l.
Proof. intros H Heq. rewrite <- Heq, fresh_not_allocated in H. discriminate. Qed.

Lemma encrypt_decrypt_fields_restore_aux {data : nat} {fields : list pystr}
    {st st1 : state} {l1 : nat} {d : gmap pystr pyvalue} :
  aead_correct lib ->
  truthy_str key_vault_url = true ->
  heap st !! data = Some d ->
  enc_fields data fields st = (Ok l1, st1) ->
  exists l2 st2,
    dec_fields l1 fields st1 = (Ok l2, st2)
    /\ heap st2 !! l2 = Some (restored fields d)
    /\ (forall k v, k ∈ fields -> d !! k = Some v -> truthy v = true ->
          restored fields d !! k = Some (VStr (py_str v))).
Proof.
  intros Hlib Hu Hd Hrun.
  destruct (fields_round_trip _ _ _ _ _ _ _ _ _ _ _ Hlib Hu Hd Hrun)
    as (d1 & -> & Hheap & _ & Hdec).
  eexists _, _. split; [exact Hdec|]. split; [simpl; apply lookup_insert_eq|].
  intros k v Hin Hk Hv. rewrite restored_lookup, Hk. simpl.
  now rewrite bool_decide_eq_true_2, Hv.
Qed.

(** C6, as amended.  With a vault configured and a correct primitive,
    [encrypt_fields] followed by [decrypt_fields] with the same list gives
    back the record in which every listed field with a true value holds the
    [str] of that value, which is the value itself when it is a string, and
    every other field (not listed, absent, or holding a false value such as
    the empty string) is as it was, type included.  Each operation returns a
    new record: the input record and the encrypted record are still in the
    heap unchanged afterwards, and in the encrypted record the fields that
    are not encrypted are the original ones. *)
Theorem encrypt_decrypt_fields_restore (data : nat) (fields : list pystr)
    (st st1 : state) (l1 : nat) (d : gmap pystr pyvalue) :
  aead_correct lib ->
  truthy_str key_vault_url = true ->
  heap st !! data = Some d ->
  enc_fields data fields st = (Ok l1, st1) ->
  exists l2 st2 d1,
    dec_fields l1 fields st1 = (Ok l2, st2)
    /\ l1 <> data /\ l2 <> data /\ l2 <> l1
    /\ heap st1 !! data = Some d /\ heap st2 !! data = Some d
    /\ heap st1 !! l1 = Some d1 /\ heap st2 !! l1 = Some d1
    /\ (forall k,
          (k ∉ fields \/ d !! k = None
           \/ exists v, d !! k = Some v /\ truthy v = false) ->
          d1 !! k = d !! k)
    /\ heap st2 !! l2 = Some (restored fields d)
    /\ (forall k, k ∉ fields -> restored fields d !! k = d !! k)
    /\ (forall k s, d !! k = Some (VStr s) ->
          restored fields d !! k = Some (VStr s))
    /\ (forall k v, k ∈ fields -> d !! k = Some v -> truthy v = true ->
          restored fields d !! k = Some (VStr (py_str v)))
    /\ (forall k v, d !! k = Some v -> truthy v = false ->
          restored fields d !! k = Some v)
    /\ (forall k, d !! k = None -> restored fields d !! k = None).
Proof.
  intros Hlib Hu Hd Hrun.
  destruct (fields_op_frame eop enc_fields (encrypt_op_heap _ _ _ _ _)
              encrypt_fields_unfold _ _ _ _ _ _ Hd Hrun)
    as (d1' & _ & Hheap' & Hsame).
  destruct (fields_round_trip _ _ _ _ _ _ _ _ _ _ _ Hlib Hu Hd Hrun)
    as (d1 & -> & Hheap & _ & Hdec).
  assert (d1' = d1) as ->.
  { apply (f_equal (fun h => h !! fresh (dom (heap st)))) in Hheap'.
    rewrite Hheap, !lookup_insert_eq in Hheap'. congruence. }
  pose proof (allocated_not_fresh _ _ _ Hd) as Hne1.
  assert (Hd1 : heap st1 !! data = Some d)
    by (rewrite Hheap, lookup_insert_ne; assumption).
  assert (Hl1 : heap st1 !! fresh (dom (heap st)) = Some d1)
    by (rewrite Hheap; apply lookup_insert_eq).
  pose proof (allocated_not_fresh _ _ _ Hd1) as Hne2.
  pose proof (allocated_not_fresh _ _ _ Hl1) as Hne3.
  eexists _, _, d1. split; [exact Hdec|]. simpl.
  repeat match goal with |- _ /\ _ => split end; try assumption.
  - rewrite lookup_insert_ne; assumption.
  - rewrite lookup_insert_ne; assumption.
  - apply lookup_insert_eq.
  - intros k Hk. rewrite restored_lookup.
    rewrite bool_decide_eq_false_2 by assumption. now destruct (d !! k).
  - intros k s Hk. rewrite restored_lookup, Hk. simpl.
    destruct (bool_decide (k ∈ fields)); [|reflexivity].
    now destruct s.
  - intros k v Hin Hk Hv. rewrite restored_lookup, Hk. simpl.
    now rewrite bool_decide_eq_true_2, Hv.
  - intros k v Hk Hv. rewrite restored_lookup, Hk. simpl.
    now rewrite Hv, andb_false_r.
  - intros k Hk. now rewrite restored_lookup, Hk.
Qed.

(** C10.  [encrypt_fields] and [decrypt_fields] leave a field whose value
    is false (None, the empty string, 0, False) or which is absent exactly
    as it is, listed or not.  A listed field with a true value is sealed as
    the text [str(value)]: for a list naming just that field the call is a
    copy, one [encrypt] of [str(value)] under the field name, and one item
    assignment; and after a round trip (vault configured, correct
    primitive) the field holds [str(value)], so that an integer comes back
    as its decimal text, not as the integer. *)
Theorem falsy_skipped_truthy_coerced (data : nat) (fields : list pystr)
    (st : state) (d : gmap pystr pyvalue) :
  heap st !! data = Some d ->
  (forall l1 st1, enc_fields data fields st = (Ok l1, st1) ->
     exists d1, heap st1 !! l1 = Some d1
       /\ (forall k v, d !! k = Some v -> truthy v = false -> d1 !! k = Some v)
       /\ (forall k, d !! k = None -> d1 !! k = None))
  /\ (forall l1 st1, dec_fields data fields st = (Ok l1, st1) ->
     exists d1, heap st1 !! l1 = Some d1
       /\ (forall k v, d !! k = Some v -> truthy v = false -> d1 !! k = Some v)
       /\ (forall k, d !! k = None -> d1 !! k = None))
  /\ (forall k v, d !! k = Some v -> truthy v = true ->
        enc_fields data [k] st =
        (l <- dict_copy data ;;
         e <- enc (py_str v) (Some k) ;;
         _ <- dict_setitem l k (VStr e) ;;
         ret l) st)
  /\ (aead_correct lib -> truthy_str key_vault_url = true ->
      forall l1 st1, enc_fields data fields st = (Ok l1, st1) ->
        exists l2 st2 d2,
          dec_fields l1 fields st1 = (Ok l2, st2)
          /\ heap st2 !! l2 = Some d2
          /\ (forall k v, k ∈ fields -> d !! k = Some v -> truthy v = true ->
                d2 !! k = Some (VStr (py_str v)))
          /\ (forall k z, k ∈ fields -> d !! k = Some (VInt z) -> z <> 0%Z ->
                d2 !! k = Some (VStr (py_str (VInt z)))
                /\ d2 !! k <> Some (VInt z))).
Proof.
  intros Hd. split; [|split; [|split]].
  - intros l1 st1 Hrun.
    destruct (fields_op_frame eop enc_fields (encrypt_op_heap _ _ _ _ _)
                encrypt_fields_unfold _ _ _ _ _ _ Hd Hrun)
      as (d1 & _ & Hheap & Hsame).
    exists d1. split; [rewrite Hheap; apply lookup_insert_eq|]. split.
    + intros k v Hk Hv. rewrite Hsame, Hk; eauto.
    + intros k Hk. rewrite Hsame, Hk; eauto.
  - intros l1 st1 Hrun.
    destruct (fields_op_frame dop dec_fields decrypt_op_heap
                decrypt_fields_unfold _ _ _ _ _ _ Hd Hrun)
      as (d1 & _ & Hheap & Hsame).
    exists d1. split; [rewrite Hheap; apply lookup_insert_eq|]. split.
    + intros k v Hk Hv. rewrite Hsame, Hk; eauto.
    + intros k Hk. rewrite Hsame, Hk; eauto.
  - intros k v Hk Hv. unfold encrypt_fields, bind.
    rewrite (dict_copy_Some _ _ _ Hd). cbn [encrypt_fields_loop]. unfold bind.
    rewrite deref_Some with (d := d) by (simpl; apply lookup_insert_eq).
    rewrite Hk, Hv.
    match goal with |- context [enc ?p ?a ?s] => destruct (enc p a s) as [[e|x] s1] end;
      [|reflexivity].
    destruct (dict_setitem _ k (VStr e) s1) as [[[]|x] s2]; reflexivity.
  - intros Hlib Hu l1 st1 Hrun.
    destruct (encrypt_decrypt_fields_restore_aux Hlib Hu Hd Hrun)
      as (l2 & st2 & Hdec & Hl2 & Hval).
    exists l2, st2, (restored fields d). split; [assumption|].
    split; [assumption|]. split; [assumption|].
    intros k z Hin Hk Hz.
    assert (Ht : truthy (VInt z) = true)
      by (simpl; now rewrite (proj2 (Z.eqb_neq z 0) Hz)).
    rewrite (Hval _ _ Hin Hk Ht). split; [reflexivity | discriminate].
Qed.

End FieldClaims.

(** ** Field-level encryption on concrete inputs *)

(** A literal field name is not in a list of other literal names. *)
Ltac not_listed :=
  repeat (apply not_elem_of_cons; split;
          [let H := fresh in intros H; vm_compute in H; discriminate H|]);
  apply not_elem_of_nil.

(** C6, as stated, fails: in the record [{a: "x", b: 5, c: "y"}] with the
    sensitive fields [a] and [b], the round trip gives [b] back as the
    string "5", not as the integer 5 it was. *)
Lemma integer_field_restored_as_text :
  let run := (l1 <- vault_encrypt_fields 0 [lit "a"; lit "b"] ;;
              vault_decrypt_fields l1 [lit "a"; lit "b"]) sample_store in
  is_ok (fst run) = true
  /\ field_at sample_store 0 (lit "b") = Some (VInt 5)
  /\ field_at (snd run) (reference_of run) (lit "b") = Some (VStr (lit "5"))
  /\ field_at (snd run) (reference_of run) (lit "b")
     <> field_at sample_store 0 (lit "b").
Proof.
  cbv zeta. split; [vm_compute; reflexivity|].
  split; [vm_compute; reflexivity|].
  split; [vm_compute; reflexivity|].
  vm_compute. discriminate.
Qed.

(** The record of the specification with the sensitive fields [a] and
    [c]: both come back, [b] is the integer 5 throughout, and the input
    record is untouched. *)
Lemma encrypt_decrypt_fields_restore_witness :
  aead_correct tagged_aead
  /\ truthy_str sample_vault_url = true
  /\ heap sample_store !! 0 = Some sample_record
  /\ vault_encrypt_fields 0 [lit "a"; lit "c"] sample_store
     = (Ok (reference_of sample_fields_run), snd sample_fields_run)
  /\ exists l2 st2,
       vault_decrypt_fields (reference_of sample_fields_run) [lit "a"; lit "c"]
         (snd sample_fields_run) = (Ok l2, st2)
       /\ field_at st2 l2 (lit "a") = Some (VStr (lit "x"))
       /\ field_at st2 l2 (lit "b") = Some (VInt 5)
       /\ field_at st2 l2 (lit "c") = Some (VStr (lit "y"))
       /\ field_at (snd sample_fields_run) (reference_of sample_fields_run) (lit "b")
          = Some (VInt 5)
       /\ heap st2 !! 0 = Some sample_record.
Proof.
  assert (H1 : truthy_str sample_vault_url = true) by reflexivity.
  assert (H2 : heap sample_store !! 0 = Some sample_record)
    by (vm_compute; reflexivity).
  assert (H3 : vault_encrypt_fields 0 [lit "a"; lit "c"] sample_store
               = (Ok (reference_of sample_fields_run), snd sample_fields_run))
    by (vm_compute; reflexivity).
  split; [exact tagged_aead_correct|]. split; [exact H1|].
  split; [exact H2|]. split; [exact H3|].
  destruct (encrypt_decrypt_fields_restore tagged_aead sample_entropy
              sample_vault sample_vault_url default_key_name 0
              [lit "a"; lit "c"] sample_store (snd sample_fields_run)
              (reference_of sample_fields_run) sample_record
              tagged_aead_correct H1 H2 H3)
    as (l2 & st2 & d1 & Hdec & _ & _ & _ & _ & Hin & Hl1 & _ & Hsame & Hl2
        & Hother & Hstr & _).
  exists l2, st2. split; [exact Hdec|].
  unfold field_at. rewrite Hl2, Hl1.
  split; [apply Hstr; vm_compute; reflexivity|].
  split; [rewrite Hother; [vm_compute; reflexivity | not_listed]|].
  split; [apply Hstr; vm_compute; reflexivity|].
  split; [|exact Hin].
  rewrite Hsame; [vm_compute; reflexivity|].
  left. not_listed.
Defined.

(** A record of false values, all listed: none of them is encrypted, and
    the integer next to them comes back as text. *)
Lemma falsy_skipped_truthy_coerced_witness :
  heap falsy_store !! 0 = Some falsy_record
  /\ vault_encrypt_fields 0 falsy_fields falsy_store
     = (Ok (reference_of falsy_fields_run), snd falsy_fields_run)
  /\ field_at (snd falsy_fields_run) (reference_of falsy_fields_run) (lit "none")
     = Some VNone
  /\ field_at (snd falsy_fields_run) (reference_of falsy_fields_run) (lit "empty")
     = Some (VStr [])
  /\ field_at (snd falsy_fields_run) (reference_of falsy_fields_run) (lit "zero")
     = Some (VInt 0)
  /\ field_at (snd falsy_fields_run) (reference_of falsy_fields_run) (lit "false")
     = Some (VBool false)
  /\ field_at (snd falsy_fields_run) (reference_of falsy_fields_run) (lit "absent")
     = None
  /\ exists l2 st2,
       vault_decrypt_fields (reference_of falsy_fields_run) falsy_fields
         (snd falsy_fields_run) = (Ok l2, st2)
       /\ field_at st2 l2 (lit "age") = Some (VStr (lit "45")).
Proof.
  assert (H1 : heap falsy_store !! 0 = Some falsy_record)
    by (vm_compute; reflexivity).
  assert (H2 : vault_encrypt_fields 0 falsy_fields falsy_store
               = (Ok (reference_of falsy_fields_run), snd falsy_fields_run))
    by (vm_compute; reflexivity).
  split; [exact H1|]. split; [exact H2|].
  destruct (falsy_skipped_truthy_coerced tagged_aead sample_entropy sample_vault
              sample_vault_url default_key_name 0 falsy_fields falsy_store
              falsy_record H1)
    as (Henc & _ & _ & Hround).
  destruct (Henc _ _ H2) as (d1 & Hd1 & Hfalse & Habsent).
  unfold field_at at 1 2 3 4 5. rewrite Hd1.
  split; [apply Hfalse; vm_compute; reflexivity|].
  split; [apply Hfalse; vm_compute; reflexivity|].
  split; [apply Hfalse; vm_compute; reflexivity|].
  split; [apply Hfalse; vm_compute; reflexivity|].
  split; [apply Habsent; vm_compute; reflexivity|].
  destruct (Hround tagged_aead_correct eq_refl _ _ H2)
    as (l2 & st2 & d2 & Hdec & Hd2 & _ & Hint).
  exists l2, st2. split; [exact Hdec|].
  unfold field_at. rewrite Hd2.
  apply (Hint (lit "age") 45%Z); [|vm_compute; reflexivity|discriminate].
  unfold falsy_fields. do 4 right. left.
Defined.

(** ** The audit ledger *)

Section AuditFacts.

Context (model_dump_json : AuditEvent -> outcome pystr)
        (isoformat : datetime -> pystr)
        (uuid4 : nat -> pystr)
        (utcnow : nat -> datetime).

Local Abbreviation log := (log_event model_dump_json isoformat).
Local Abbreviation meta := (storage_metadata isoformat).

(** [log_event] with local logging on, a working sink and a container:
    the record goes to the sink, then the upload is attempted, then its
    result is logged; the call returns normally whatever the upload did. *)
Lemma log_event_local_then_durable (self : AuditLogger) (event : AuditEvent)
    (w : world) (j cname : pystr) :
  container_client self = Some cname ->
  local_backup self = true ->
  sink_up w = true ->
  model_dump_json event = Ok j ->
  log self event w =
  (Ok tt,
   mkWorld true
     (trace w ++
      [Emitted LvlInfo (lit "audit_event") (audit_record_fields event);
       Uploaded (blob_name_of event) j false
         (fst (container_upload (blob_name_of event) j false (meta event) (storage w)));
       storage_line (blob_name_of event)
         (fst (container_upload (blob_name_of event) j false (meta event) (storage w)))])
     (snd (container_upload (blob_name_of event) j false (meta event) (storage w)))
     (ticks w)).
Proof.
  intros Hc Hl Hs Hj. destruct w as [up tr sto tk]. simpl in Hs. subst up.
  unfold log_event, _write_to_storage, try_except, bind, lift, upload_blob,
    logger_call, record_effect, set_storage.
  rewrite Hj, Hl, Hc. cbn [sink_up trace storage ticks].
  destruct (container_upload (blob_name_of event) j false (meta event) sto)
    as [[[]|e] c'] eqn:Hu; cbn [sink_up trace storage ticks fst snd storage_line];
    rewrite <- !app_assoc; reflexivity.
Qed.

(** [log_event] with local logging off and a working sink: the upload is
    the first thing that happens, and the record never reaches the sink. *)
Lemma log_event_durable_only (self : AuditLogger) (event : AuditEvent)
    (w : world) (j cname : pystr) :
  container_client self = Some cname ->
  local_backup self = false ->
  sink_up w = true ->
  model_dump_json event = Ok j ->
  log self event w =
  (Ok tt,
   mkWorld true
     (trace w ++
      [Uploaded (blob_name_of event) j false
         (fst (container_upload (blob_name_of event) j false (meta event) (storage w)));
       storage_line (blob_name_of event)
         (fst (container_upload (blob_name_of event) j false (meta event) (storage w)))])
     (snd (container_upload (blob_name_of event) j false (meta event) (storage w)))
     (ticks w)).
Proof.
  intros Hc Hl Hs Hj. destruct w as [up tr sto tk]. simpl in Hs. subst up.
  unfold log_event, _write_to_storage, try_except, bind, lift, ret, upload_blob,
    logger_call, record_effect, set_storage.
  rewrite Hj, Hl, Hc. cbn [sink_up trace storage ticks].
  destruct (container_upload (blob_name_of event) j false (meta event) sto)
    as [[[]|e] c'] eqn:Hu; cbn [sink_up trace storage ticks fst snd storage_line];
    rewrite <- !app_assoc; reflexivity.
Qed.

(** [log_event] with local logging on and a broken sink: the emission of
    the record fails, the handler's own log call fails, the exception
    reaches the caller and the container is never contacted. *)
Lemma log_event_sink_down (self : AuditLogger) (event : AuditEvent)
    (w : world) (j : pystr) :
  local_backup self = true ->
  sink_up w = false ->
  model_dump_json event = Ok j ->
  log self event w =
  (Raise OSError,
   mkWorld false
     (trace w ++
      [EmitFailed LvlInfo (lit "audit_event");
       EmitFailed LvlError (lit "Failed to log audit event")])
     (storage w) (ticks w)).
Proof.
  intros Hl Hs Hj. destruct w as [up tr sto tk]. simpl in Hs. subst up.
  unfold log_event, try_except, bind, lift, logger_call, record_effect.
  rewrite Hj, Hl. cbn [sink_up trace storage ticks].
  rewrite <- !app_assoc. reflexivity.
Qed.

(** The three ways an upload with [overwrite=False] can end. *)
Lemma container_upload_new (name data : pystr) (m : list (pystr * pystr))
    (c : container) :
  outage c = None -> blobs c !! name = None ->
  container_upload name data false m c =
  (Ok tt, mkContainer (<[name := mkBlob data m]> (blobs c)) None).
Proof. intros Ho Hb. unfold container_upload. now rewrite Ho, Hb. Qed.

Lemma container_upload_exists (name data : pystr) (m : list (pystr * pystr))
    (c : container) (b : blob) :
  blobs c !! name = Some b ->
  exists e, container_upload name data false m c = (Raise e, c)
            /\ (outage c = None -> e = ResourceExistsError).
Proof.
  intros Hb. unfold container_upload. rewrite Hb.
  destruct (outage c) as [e|].
  - exists e. split; [reflexivity | discriminate].
  - exists ResourceExistsError. auto.
Qed.

Lemma container_upload_outage (name data : pystr) (m : list (pystr * pystr))
    (c : container) (e : exn) :
  outage c = Some e -> container_upload name data false m c = (Raise e, c).
Proof. intros Ho. unfold container_upload. now rewrite Ho. Qed.

End AuditFacts.

(** A year from 1000 to 9999 has four digits. *)
Lemma decimal_four_digits (n : nat) :
  1000 <= n < 10 ^ 4 -> zfill 4 (decimal n) = decimal n.
Proof.
  intros Hn.
  assert (Hall : forallb (fun n => Nat.eqb (length (decimal n)) 4)
                   (seq 1000 (10 ^ 4 - 1000)) = true) by (vm_compute; reflexivity).
  rewrite forallb_forall in Hall. specialize (Hall n).
  rewrite Nat.eqb_eq in Hall. unfold zfill.
  rewrite Hall by (apply in_seq; lia). reflexivity.
Qed.

(** ** Claims about the audit ledger *)

Section AuditClaims.

Context (model_dump_json : AuditEvent -> outcome pystr)
        (isoformat : datetime -> pystr)
        (uuid4 : nat -> pystr)
        (utcnow : nat -> datetime).

Local Abbreviation log := (log_event model_dump_json isoformat).
Local Abbreviation meta := (storage_metadata isoformat).

(** For a four-digit year the name that the code computes is the
    zero-filled one. *)
Lemma blob_name_dated (event : AuditEvent) :
  1000 <= year (timestamp event) < 10 ^ 4 ->
  blob_name_of event = dated_name event.
Proof.
  intros Hy. unfold blob_name_of, dated_name, strftime_Ymd.
  rewrite (decimal_four_digits _ Hy). now rewrite <- !app_assoc.
Qed.

(** C4, as amended.  A logger with a container and with local logging on,
    whose sink works, handles an event that serialises and whose timestamp
    has a four-digit year (1000 to 9999) as follows.  The record goes to
    the sink; then the JSON is uploaded under
    [{YYYY}/{MM}/{DD}/{event_id}.json] with [overwrite=False]; the call
    returns normally whatever the upload did.  On a reachable container
    without that name the blob is created.  Where the name exists, or the
    container is out of reach, the upload fails and the container is left
    as it is.  In particular a second event with the same identifier and
    date is refused as existing, the first blob stays, the call returns
    normally, and the sink has received the second record. *)
Theorem durable_failure_swallowed (self : AuditLogger) (event : AuditEvent)
    (w : world) (j cname : pystr) :
  container_client self = Some cname ->
  local_backup self = true ->
  sink_up w = true ->
  model_dump_json event = Ok j ->
  1000 <= year (timestamp event) < 10 ^ 4 ->
  exists w' r,
    log self event w = (Ok tt, w')
    /\ trace w' =
       trace w ++
       [Emitted LvlInfo (lit "audit_event") (audit_record_fields event);
        Uploaded (dated_name event) j false r;
        storage_line (dated_name event) r]
    /\ (outage (storage w) = None -> blobs (storage w) !! dated_name event = None ->
        r = Ok tt
        /\ blobs (storage w')
           = <[dated_name event := mkBlob j (meta event)]> (blobs (storage w)))
    /\ (forall b, blobs (storage w) !! dated_name event = Some b ->
        storage w' = storage w
        /\ exists e, r = Raise e
                     /\ (outage (storage w) = None -> e = ResourceExistsError))
    /\ (forall e, outage (storage w) = Some e ->
        r = Raise e /\ storage w' = storage w)
    /\ (forall event2 j2,
          event_id event2 = event_id event ->
          year (timestamp event2) = year (timestamp event) ->
          month (timestamp event2) = month (timestamp event) ->
          day (timestamp event2) = day (timestamp event) ->
          model_dump_json event2 = Ok j2 ->
          outage (storage w) = None ->
          blobs (storage w) !! dated_name event = None ->
          exists w'',
            log self event2 w' = (Ok tt, w'')
            /\ storage w'' = storage w'
            /\ blobs (storage w'') !! dated_name event
               = Some (mkBlob j (meta event))
            /\ trace w'' =
               trace w' ++
               [Emitted LvlInfo (lit "audit_event") (audit_record_fields event2);
                Uploaded (dated_name event) j2 false (Raise ResourceExistsError);
                storage_line (dated_name event) (Raise ResourceExistsError)]).
Proof.
  intros Hc Hl Hs Hj Hyear.
  rewrite (log_event_local_then_durable _ _ _ _ _ j cname Hc Hl Hs Hj).
  rewrite (blob_name_dated _ Hyear).
  eexists _, _. split; [reflexivity|]. cbn [trace storage].
  split; [reflexivity|]. split; [|split; [|split]].
  - intros Ho Hb. now rewrite (container_upload_new _ _ _ _ Ho Hb).
  - intros b Hb.
    destruct (container_upload_exists (dated_name event) j (meta event) _ _ Hb)
      as (e & -> & He). simpl. eauto.
  - intros e Ho. now rewrite (container_upload_outage _ _ _ _ _ Ho).
  - intros event2 j2 Hid Hy Hm Hd Hj2 Ho Hb.
    assert (Hname : dated_name event2 = dated_name event)
      by (unfold dated_name; now rewrite Hid, Hy, Hm, Hd).
    rewrite (container_upload_new _ _ _ _ Ho Hb). cbn [fst snd].
    match goal with
    | |- context [log self event2 ?w1] =>
      rewrite (log_event_local_then_durable model_dump_json isoformat self
                 event2 w1 j2 cname Hc Hl eq_refl Hj2)
    end.
    rewrite blob_name_dated, Hname by (rewrite Hy; exact Hyear).
    cbn [storage trace].
    assert (Hex : blobs (mkContainer
                    (<[dated_name event := mkBlob j (meta event)]> (blobs (storage w)))
                    None) !! dated_name event = Some (mkBlob j (meta event)))
      by (simpl; apply lookup_insert_eq).
    destruct (container_upload_exists (dated_name event) j2 (meta event2) _ _ Hex)
      as (e & -> & He). rewrite (He eq_refl).
    eexists. split; [reflexivity|]. cbn [storage trace fst snd].
    split; [reflexivity|]. split; [apply lookup_insert_eq | reflexivity].
Qed.

(** C5, as amended.  With local logging on and an event that serialises,
    the first thing [log_event] does to the outside is the local emission of
    the record, before any upload.  If the sink is broken that emission
    fails, the caller gets the exception, and no upload is attempted; if it
    works the call returns normally. *)
Theorem local_emission_first (self : AuditLogger) (event : AuditEvent)
    (w : world) (j : pystr) :
  local_backup self = true ->
  model_dump_json event = Ok j ->
  exists r w' rest,
    log self event w = (r, w')
    /\ trace w' =
       trace w ++
       (if sink_up w
        then Emitted LvlInfo (lit "audit_event") (audit_record_fields event)
        else EmitFailed LvlInfo (lit "audit_event")) :: rest
    /\ (sink_up w = false ->
        r = Raise OSError /\ storage w' = storage w
        /\ forallb (fun e => negb (is_upload e)) rest = true)
    /\ (sink_up w = true -> r = Ok tt).
Proof.
  intros Hl Hj. destruct (sink_up w) eqn:Hs.
  - destruct (container_client self) as [cname|] eqn:Hc.
    + rewrite (log_event_local_then_durable _ _ _ _ _ j cname Hc Hl Hs Hj).
      eexists _, _, _. split; [reflexivity|]. cbn [trace].
      split; [reflexivity|]. split; [discriminate | reflexivity].
    + destruct w as [up tr sto tk]. simpl in Hs. subst up.
      unfold log_event, try_except, bind, lift, ret, logger_call, record_effect.
      rewrite Hj, Hl, Hc. cbn [sink_up trace storage ticks].
      eexists _, _, []. split; [reflexivity|]. cbn [trace].
      split; [reflexivity|]. split; [discriminate | reflexivity].
  - rewrite (log_event_sink_down _ _ _ _ _ j Hl Hs Hj).
    eexists _, _, _. split; [reflexivity|]. cbn [trace storage].
    split; [reflexivity|]. split; [|discriminate].
    intros _. repeat split.
Qed.

(** C8.  The event type of a PHI access is looked up by the lower-cased
    action: "view" and "read" give PHI_VIEW, "create" PHI_CREATE, "update"
    and "modify" PHI_UPDATE, "delete" PHI_DELETE, "export" PHI_EXPORT, and an
    action that is none of these gives PHI_VIEW.  The event that
    [log_phi_access] builds and logs has that type, and severity WARNING
    exactly when the result is not "success", INFO otherwise; the event of
    [log_authentication] is LOGIN_SUCCESS/INFO on success and
    LOGIN_FAILURE/WARNING on failure. *)
Theorem phi_event_type_and_severity :
  _get_phi_event_type (lit "view") = PHI_VIEW
  /\ _get_phi_event_type (lit "read") = PHI_VIEW
  /\ _get_phi_event_type (lit "create") = PHI_CREATE
  /\ _get_phi_event_type (lit "update") = PHI_UPDATE
  /\ _get_phi_event_type (lit "modify") = PHI_UPDATE
  /\ _get_phi_event_type (lit "delete") = PHI_DELETE
  /\ _get_phi_event_type (lit "export") = PHI_EXPORT
  /\ (forall action, str_lower action ∉ action_keys ->
        _get_phi_event_type action = PHI_VIEW)
  /\ (forall self user patient action rtype rid res ip md w,
        log_phi_access model_dump_json isoformat uuid4 utcnow self
          user patient action rtype rid res ip md w
        = log self
            (phi_access_event (uuid4 (ticks w), utcnow (ticks w))
               user patient action rtype rid res ip md)
            (mkWorld (sink_up w) (trace w) (storage w) (S (ticks w))))
  /\ (forall defaults user patient action rtype rid res ip md,
        let event := phi_access_event defaults user patient action rtype rid
                       res ip md in
        event_type event = _get_phi_event_type action
        /\ (severity event = WARNING <-> res <> lit "success")
        /\ (severity event = INFO <-> res = lit "success"))
  /\ (forall self user success ip why w,
        log_authentication model_dump_json isoformat uuid4 utcnow self
          user success ip why w
        = log self
            (authentication_event (uuid4 (ticks w), utcnow (ticks w))
               user success ip why)
            (mkWorld (sink_up w) (trace w) (storage w) (S (ticks w))))
  /\ (forall defaults user ip why,
        event_type (authentication_event defaults user true ip why) = LOGIN_SUCCESS
        /\ severity (authentication_event defaults user true ip why) = INFO
        /\ event_type (authentication_event defaults user false ip why) = LOGIN_FAILURE
        /\ severity (authentication_event defaults user false ip why) = WARNING).
Proof.
  do 7 (split; [vm_compute; reflexivity|]).
  split; [|split; [|split; [|split]]].
  - intros action Hn. unfold _get_phi_event_type.
    replace (action_map !! str_lower action) with (@None AuditEventType);
      [reflexivity|].
    symmetry. apply not_elem_of_list_to_map_1. exact Hn.
  - reflexivity.
  - intros defaults user patient action rtype rid res ip md.
    cbn [phi_access_event event_type severity].
    split; [reflexivity|]. unfold str_eqb.
    destruct (bool_decide_reflect (res = lit "success")) as [He|Hne].
    + split; split; intros H; try discriminate H; try reflexivity;
        try contradiction; assumption.
    + split; split; intros H; try discriminate H; try reflexivity;
        try contradiction; assumption.
  - reflexivity.
  - intros. repeat split.
Qed.

End AuditClaims.

(** ** The audit ledger on concrete inputs *)

(** Upper-case actions are recognised too: the action is lower-cased
    before the lookup. *)
Example upper_case_action_recognised :
  _get_phi_event_type (lit "DELETE") = PHI_DELETE
  /\ _get_phi_event_type (lit "Export") = PHI_EXPORT
  /\ _get_phi_event_type (lit "print") = PHI_VIEW.
Proof. repeat split; vm_compute; reflexivity. Qed.

(** C4, as stated, fails where local logging is off: the second logging
    of an event is refused by the container and the call returns normally,
    but the sink has received no record at all. *)
Lemma no_record_in_sink_without_local_backup :
  let first := sample_log_event durable_only_logger sample_event quiet_world in
  let second := sample_log_event durable_only_logger sample_event (snd first) in
  container_client durable_only_logger = Some (lit "audit-logs")
  /\ fst first = Ok tt
  /\ fst second = Ok tt
  /\ existsb is_failed_upload (trace (snd second)) = true
  /\ filter is_audit_record (trace (snd second)) = [].
Proof. cbv zeta. repeat split; vm_compute; reflexivity. Qed.

(** C5, as stated, fails where local logging is off: the upload is the
    first thing that happens, and the record is never emitted locally. *)
Lemma upload_without_local_emission :
  let run := sample_log_event durable_only_logger sample_event quiet_world in
  fst run = Ok tt
  /\ option_map is_upload (head (trace (snd run))) = Some true
  /\ filter is_audit_record (trace (snd run)) = [].
Proof. cbv zeta. repeat split; vm_compute; reflexivity. Qed.

(** Logging the same event twice on an empty container: one blob, two
    records in the sink, two normal returns. *)
Lemma durable_failure_swallowed_witness :
  container_client durable_logger = Some (lit "audit-logs")
  /\ local_backup durable_logger = true
  /\ sink_up quiet_world = true
  /\ sample_dump sample_event = Ok (lit "{event_id: 0f8fad5b-d9cb-469f-a165-70867728950e}")
  /\ 1000 <= year (timestamp sample_event) < 10 ^ 4
  /\ dated_name sample_event
     = lit "2026/03/07/0f8fad5b-d9cb-469f-a165-70867728950e.json"
  /\ exists w' w'',
       sample_log_event durable_logger sample_event quiet_world = (Ok tt, w')
       /\ is_Some (blobs (storage w') !! dated_name sample_event)
       /\ sample_log_event durable_logger sample_event w' = (Ok tt, w'')
       /\ storage w'' = storage w'
       /\ length (filter is_audit_record (trace w'')) = 2.
Proof.
  assert (H1 : container_client durable_logger = Some (lit "audit-logs"))
    by reflexivity.
  assert (H2 : local_backup durable_logger = true) by reflexivity.
  assert (H3 : sink_up quiet_world = true) by reflexivity.
  assert (H4 : sample_dump sample_event
               = Ok (lit "{event_id: 0f8fad5b-d9cb-469f-a165-70867728950e}"))
    by (vm_compute; reflexivity).
  assert (H5 : 1000 <= year (timestamp sample_event) < 10 ^ 4) by (cbn; lia).
  split; [exact H1|]. split; [exact H2|]. split; [exact H3|]. split; [exact H4|].
  split; [exact H5|]. split; [vm_compute; reflexivity|].
  destruct (durable_failure_swallowed sample_dump sample_isoformat
              durable_logger sample_event quiet_world _ _ H1 H2 H3 H4 H5)
    as (w' & r & Hrun & Htrace & Hnew & _ & _ & Hsecond).
  destruct (Hnew eq_refl eq_refl) as [-> Hblobs].
  destruct (Hsecond sample_event _ eq_refl eq_refl eq_refl eq_refl H4
              eq_refl eq_refl)
    as (w'' & Hrun2 & Hsto & _ & Htrace2).
  exists w', w''. split; [exact Hrun|]. split.
  { rewrite Hblobs, lookup_insert_eq. eauto. }
  split; [exact Hrun2|]. split; [exact Hsto|].
  rewrite Htrace2, Htrace. vm_compute. reflexivity.
Defined.

(** With a broken sink the call raises and the container stays empty. *)
Lemma local_emission_first_witness :
  local_backup durable_logger = true
  /\ sample_dump sample_event = Ok (lit "{event_id: 0f8fad5b-d9cb-469f-a165-70867728950e}")
  /\ exists w',
       sample_log_event durable_logger sample_event
         (mkWorld false [] (mkContainer ∅ None) 0) = (Raise OSError, w')
       /\ storage w' = mkContainer ∅ None
       /\ head (trace w') = Some (EmitFailed LvlInfo (lit "audit_event")).
Proof.
  assert (H2 : local_backup durable_logger = true) by reflexivity.
  assert (H4 : sample_dump sample_event
               = Ok (lit "{event_id: 0f8fad5b-d9cb-469f-a165-70867728950e}"))
    by (vm_compute; reflexivity).
  split; [exact H2|]. split; [exact H4|].
  destruct (local_emission_first sample_dump sample_isoformat durable_logger
              sample_event (mkWorld false [] (mkContainer ∅ None) 0) _ H2 H4)
    as (r & w' & rest & Hrun & Htrace & Hdown & _).
  destruct (Hdown eq_refl) as (-> & Hsto & _).
  exists w'. split; [exact Hrun|]. split; [exact Hsto|].
  rewrite Htrace. reflexivity.
Defined.

(** An action that the map does not know, and a denied access. *)
Lemma phi_event_type_and_severity_witness :
  (str_lower (lit "Print") ∉ action_keys)
  /\ _get_phi_event_type (lit "Print") = PHI_VIEW
  /\ severity (phi_access_event (sample_uuid4 0, sample_utcnow 0)
                 (lit "dr_smith") (lit "5e884898da28047151d0e56f8dc62927")
                 (lit "view") (lit "encounter") (lit "enc_abcdef123456")
                 (lit "denied") None None) = WARNING.
Proof.
  assert (H : str_lower (lit "Print") ∉ action_keys)
    by (unfold action_keys; not_listed).
  destruct (phi_event_type_and_severity sample_dump sample_isoformat
              sample_uuid4 sample_utcnow)
    as (_ & _ & _ & _ & _ & _ & _ & Hother & _ & Hsev & _).
  split; [exact H|]. split; [exact (Hother _ H)|].
  apply (Hsev (sample_uuid4 0, sample_utcnow 0)). intros Heq.
  vm_compute in Heq. discriminate Heq.
Defined.

(** * Further properties of the code *)

(** ** Key resolution, [encrypt] and [decrypt] *)

Section EngineMore.

Context (lib : aead)
        (entropy : nat -> byte)
        (get_secret : pystr -> outcome pystr)
        (key_vault_url : option pystr)
        (encryption_key_name : pystr).

Local Abbreviation get_key :=
  (_get_encryption_key entropy get_secret key_vault_url encryption_key_name).
Local Abbreviation enc :=
  (encrypt lib entropy get_secret key_vault_url encryption_key_name).
Local Abbreviation dec :=
  (decrypt lib entropy get_secret key_vault_url encryption_key_name).

(** X1.  With a vault configured and a correct primitive, [decrypt] gives
    back the text that [encrypt] was given, under the same associated
    data, and changes nothing; and so it does in every later state of the
    engine whose key cache is the one [encrypt] left. *)
Theorem vault_round_trip (s : pystr) (a : option pystr) (st st' : state)
    (e : pystr) :
  aead_correct lib ->
  truthy_str key_vault_url = true ->
  enc s a st = (Ok e, st') ->
  dec e a st' = (Ok s, st')
  /\ forall st2, _key_cache st2 = _key_cache st' -> dec e a st2 = (Ok s, st2).
Proof.
  intros Hlib Hu He. split.
  - now apply (decrypt_encrypt_cache lib entropy get_secret key_vault_url
                 encryption_key_name s a st st').
  - intros st2 H2.
    now apply (decrypt_encrypt_cache lib entropy get_secret key_vault_url
                 encryption_key_name s a st st').
Qed.

(** X2.  With a vault configured, a key that was resolved once and is not
    empty sits in the cache, and from then on every resolution returns it
    without a state change, whatever the secret store would answer. *)
Theorem cached_key_outlives_vault (st st1 : state) (key : bytes) :
  truthy_str key_vault_url = true ->
  get_key st = (Ok key, st1) ->
  key <> [] ->
  _key_cache st1 = Some key
  /\ forall (get_secret' : pystr -> outcome pystr) (url' : option pystr)
            (name' : pystr) (st2 : state),
       _key_cache st2 = Some key ->
       _get_encryption_key entropy get_secret' url' name' st2 = (Ok key, st2).
Proof.
  intros Hu Hk Hne.
  destruct (get_key_vault _ _ _ _ _ _ _ Hu Hk) as (Hc & _). split; [exact Hc|].
  intros get_secret' url' name' st2 H2. now apply get_key_cached.
Qed.

(** X3.  With a vault configured and nothing cached, a failure of the
    secret store, or a secret that is not base64, is raised to the caller
    of the key resolution, of [encrypt] and of [decrypt] alike, and the
    state is left as it was: nothing is cached and no random byte is
    drawn. *)
Theorem key_failure_propagates (st : state) (x : exn) :
  truthy_bytes (_key_cache st) = false ->
  truthy_str key_vault_url = true ->
  (get_secret encryption_key_name = Raise x
   \/ exists v, get_secret encryption_key_name = Ok v /\ b64decode v = Raise x) ->
  get_key st = (Raise x, st)
  /\ forall s a, enc s a st = (Raise x, st) /\ dec s a st = (Raise x, st).
Proof.
  intros Hc Hu Hfail.
  assert (Hk : get_key st = (Raise x, st)).
  { unfold _get_encryption_key. rewrite Hc, Hu. simpl.
    destruct Hfail as [-> | (v & -> & ->)]; reflexivity. }
  split; [exact Hk|]. intros s a.
  unfold encrypt, decrypt, bind. now rewrite Hk.
Qed.

(** X4.  A secret that decodes to a non-empty key which the primitive
    rejects is cached all the same: the first [encrypt] raises the
    rejection and leaves the key in the cache, and every later [encrypt]
    and [decrypt] raises it again without asking the secret store. *)
Theorem rejected_key_stays_cached (st : state) (v : pystr) (key : bytes)
    (x : exn) :
  truthy_bytes (_key_cache st) = false ->
  truthy_str key_vault_url = true ->
  get_secret encryption_key_name = Ok v ->
  b64decode v = Ok key ->
  key <> [] ->
  AESGCM lib key = Raise x ->
  forall s a,
    enc s a st = (Raise x, set_key_cache (Some key) st)
    /\ forall (get_secret' : pystr -> outcome pystr) s' a',
         encrypt lib entropy get_secret' key_vault_url encryption_key_name
           s' a' (set_key_cache (Some key) st)
         = (Raise x, set_key_cache (Some key) st)
         /\ decrypt lib entropy get_secret' key_vault_url encryption_key_name
              s' a' (set_key_cache (Some key) st)
            = (Raise x, set_key_cache (Some key) st).
Proof.
  intros Hc Hu Hs Hd Hne Hrej s a.
  assert (Hk : get_key st = (Ok key, set_key_cache (Some key) st)).
  { unfold _get_encryption_key. now rewrite Hc, Hu, Hs, Hd. }
  split.
  - unfold encrypt, bind, lift. now rewrite Hk, Hrej.
  - intros get_secret' s' a'.
    assert (Hk' : _get_encryption_key entropy get_secret' key_vault_url
                    encryption_key_name (set_key_cache (Some key) st)
                  = (Ok key, set_key_cache (Some key) st))
      by now apply get_key_cached.
    unfold encrypt, decrypt, bind, lift. now rewrite Hk', Hrej.
Qed.

End EngineMore.

(** ** The size of an envelope, and what [b64decode] skips *)

Section EnvelopeMore.

Lemma length_b64encode_bounded (n : nat) :
  forall s : bytes,
    length s <= n -> length (b64encode s) = 4 * ((length s + 2) / 3).
Proof.
  induction n as [|n IH]; intros s Hlen.
  - destruct s; [reflexivity | simpl in Hlen; lia].
  - destruct s as [|a [|b [|c rest]]]; try reflexivity.
    cbn [b64encode length]. rewrite IH by (simpl in Hlen; lia).
    replace (S (S (S (length rest))) + 2) with (length rest + 2 + 1 * 3) by lia.
    rewrite Nat.div_add by lia. lia.
Qed.

(** Four digits for every three bytes, the last group filled up. *)
Lemma length_b64encode (s : bytes) :
  length (b64encode s) = 4 * ((length s + 2) / 3).
Proof. now apply (length_b64encode_bounded (length s)). Qed.

Lemma length_utf8_encode_cp (c : N) (bs : bytes) :
  utf8_encode_cp c = Some bs -> 1 <= length bs.
Proof.
  unfold utf8_encode_cp.
  repeat match goal with |- context [if ?b then _ else _] => destruct b end;
    intros [= <-]; simpl; lia.
Qed.

(** UTF-8 has at least one byte per code point. *)
Lemma length_str_encode (s : pystr) :
  forall data, str_encode s = Ok data -> length s <= length data.
Proof.
  induction s as [|c r IH]; intros data; simpl.
  - intros [= <-]. reflexivity.
  - destruct (utf8_encode_cp c) as [bs|] eqn:Hc; [|discriminate].
    destruct (str_encode r) as [d|]; [|discriminate].
    intros [= <-]. apply length_utf8_encode_cp in Hc.
    rewrite length_app. specialize (IH d eq_refl). simpl. lia.
Qed.

(** A byte that is neither a digit of the alphabet nor the pad is skipped
    wherever it stands. *)
Lemma a2b_loop_skip (c : byte) (ys : bytes) :
  table_a2b_base64 c = None ->
  byte_eqb c BASE64_PAD = false ->
  forall xs quad_pos leftchar pads,
    a2b_loop (xs ++ c :: ys) quad_pos leftchar pads
    = a2b_loop (xs ++ ys) quad_pos leftchar pads.
Proof.
  intros Hc Hp. induction xs as [|x xs IH]; intros quad_pos leftchar pads.
  - cbn [app a2b_loop]. now rewrite Hp, Hc.
  - cbn [app a2b_loop]. rewrite !IH.
    destruct (byte_eqb x BASE64_PAD); [reflexivity|].
    destruct (table_a2b_base64 x); [|reflexivity].
    destruct quad_pos as [|[|[|q]]]; now rewrite ?IH.
Qed.

End EnvelopeMore.

Section EngineShape.

Context (lib : aead)
        (entropy : nat -> byte)
        (get_secret : pystr -> outcome pystr)
        (key_vault_url : option pystr)
        (encryption_key_name : pystr).

Local Abbreviation get_key :=
  (_get_encryption_key entropy get_secret key_vault_url encryption_key_name).
Local Abbreviation enc :=
  (encrypt lib entropy get_secret key_vault_url encryption_key_name).
Local Abbreviation dec :=
  (decrypt lib entropy get_secret key_vault_url encryption_key_name).

(** What the 16 bytes of tag and the 12 of nonce make of the size. *)
Lemma envelope_length (s : pystr) (a : option pystr) (st st' : state)
    (e : pystr) :
  aead_tag16 lib ->
  enc s a st = (Ok e, st') ->
  Forall (fun c => (c < 128)%N) e
  /\ exists data, str_encode s = Ok data
                  /\ length e = 4 * ((length data + 30) / 3)
                  /\ length s < length e.
Proof.
  intros Htag He.
  apply encrypt_Ok in He
    as (key & st1 & aad & data & ct & _ & _ & _ & _ & Hdata & Hct & ->).
  apply Htag in Hct. pose proof (length_str_encode _ _ Hdata) as Hlen.
  assert (Hsize : length (map Byte.to_N
                    (b64encode (map entropy (seq (urandom_pos st1) 12) ++ ct)))
                  = 4 * ((length data + 30) / 3)).
  { rewrite length_map, length_b64encode, length_app, length_urandom, Hct.
    f_equal. f_equal. lia. }
  split; [apply Forall_map, b64encode_ascii|].
  exists data. split; [exact Hdata|]. split; [exact Hsize|]. rewrite Hsize.
  pose proof (Nat.div_mod_eq (length data + 30) 3) as Hd.
  pose proof (Nat.mod_upper_bound (length data + 30) 3) as Hm. lia.
Qed.

(** X5.  With a primitive whose tag has 16 bytes, the envelope that
    [encrypt] returns is never the plaintext it was given: it is ASCII
    text of [4 * ((n + 30) / 3)] characters, where [n] is the number of
    UTF-8 bytes of the plaintext (12 bytes of nonce and 16 of tag are added
    before base64), which is more than the plaintext has characters. *)
Theorem envelope_shape (s : pystr) (a : option pystr) (st st' : state)
    (e : pystr) :
  aead_tag16 lib ->
  enc s a st = (Ok e, st') ->
  e <> s
  /\ Forall (fun c => (c < 128)%N) e
  /\ exists data, str_encode s = Ok data
                  /\ length e = 4 * ((length data + 30) / 3)
                  /\ length s < length e.
Proof.
  intros Htag He.
  destruct (envelope_length s a st st' e Htag He)
    as (Hascii & data & Hdata & Hsize & Hlt).
  split; [intros ->; lia|]. split; [exact Hascii|]. now exists data.
Qed.

(** X6.  A character below 128 that is neither a digit of the base64
    alphabet nor the pad [=] (a blank or a line break, say) is ignored by
    [base64.b64decode] wherever it is put into a text, and therefore by
    [decrypt]: the result and the state after are those of the text
    without it. *)
Theorem decrypt_ignores_foreign_characters (xs ys : pystr) (c : N)
    (a : option pystr) (st : state) :
  (c < 128)%N ->
  table_a2b_base64 (b8 c) = None ->
  c <> 61%N ->
  b64decode (xs ++ c :: ys) = b64decode (xs ++ ys)
  /\ dec (xs ++ c :: ys) a st = dec (xs ++ ys) a st.
Proof.
  intros Hc Ht Hp.
  assert (Hb : b64decode (xs ++ c :: ys) = b64decode (xs ++ ys)).
  { unfold b64decode. rewrite !forallb_app. cbn [forallb].
    rewrite (proj2 (N.ltb_lt _ _) Hc). cbn [andb].
    destruct (forallb _ xs && forallb _ ys); [|reflexivity].
    unfold a2b_base64. rewrite !map_app. cbn [map].
    apply a2b_loop_skip; [exact Ht|].
    unfold byte_eqb. rewrite to_N_b8_small by lia. now apply N.eqb_neq. }
  split; [exact Hb|]. unfold decrypt, bind, lift. now rewrite Hb.
Qed.

(** X7.  [generate_encryption_key] always succeeds: it draws 32 bytes and
    returns their base64 text, 44 characters that [b64decode] turns back
    into those bytes.  Stored as the vault secret of an engine with an
    empty cache, the text makes [_get_encryption_key] resolve exactly the
    32 bytes drawn, and cache them. *)
Theorem generated_key_resolves (st0 st : state) :
  let key := map entropy (seq (urandom_pos st0) 32) in
  let text := map Byte.to_N (b64encode key) in
  truthy_bytes (_key_cache st) = false ->
  truthy_str key_vault_url = true ->
  get_secret encryption_key_name = Ok text ->
  generate_encryption_key entropy st0
  = (Ok text, set_urandom_pos (urandom_pos st0 + 32) st0)
  /\ length key = 32 /\ length text = 44
  /\ b64decode text = Ok key
  /\ get_key st = (Ok key, set_key_cache (Some key) st).
Proof.
  intros key text Hc Hu Hs.
  assert (Hlen : length key = 32) by apply length_urandom.
  split; [|split; [exact Hlen|split; [|split]]].
  - unfold generate_encryption_key, bind, lift, os_urandom.
    fold key. now rewrite decode_b64encode.
  - unfold text. now rewrite length_map, length_b64encode, Hlen.
  - apply b64decode_b64encode.
  - unfold _get_encryption_key. rewrite Hc, Hu, Hs. cbn [negb].
    unfold text. now rewrite b64decode_b64encode.
Qed.

End EngineShape.

(** ** [hash_identifier] *)

Section HashFacts.
Local Open Scope N_scope.

Lemma sha_round_length (s : list N) (kw : N * N) :
  length s = 8%nat -> length (sha_round s kw) = 8%nat.
Proof.
  intros H. do 9 (destruct s as [|? s]; try discriminate H). reflexivity.
Qed.

Lemma sha_rounds_length (kws : list (N * N)) :
  forall s, length s = 8%nat -> length (fold_left sha_round kws s) = 8%nat.
Proof.
  induction kws as [|kw kws IH]; intros s H; [exact H|].
  cbn [fold_left]. apply IH. now apply sha_round_length.
Qed.

Lemma sha_compress_length (h : list N) (block : bytes) :
  length h = 8%nat -> length (sha_compress h block) = 8%nat.
Proof.
  intros H. unfold sha_compress.
  rewrite length_map, length_combine, sha_rounds_length, H by exact H.
  reflexivity.
Qed.

Lemma sha_blocks_length (n : nat) :
  forall h msg, length h = 8%nat -> length (sha_blocks n h msg) = 8%nat.
Proof.
  induction n as [|n IH]; intros h msg H; [exact H|].
  cbn [sha_blocks]. apply IH. now apply sha_compress_length.
Qed.

Lemma length_word_bytes (ws : list N) :
  length (flat_map word_bytes ws) = (4 * length ws)%nat.
Proof.
  induction ws as [|w ws IH]; [reflexivity|].
  cbn [flat_map]. rewrite length_app, IH. simpl. lia.
Qed.

(** A SHA-256 digest has 32 bytes. *)
Lemma length_sha256 (msg : bytes) : length (sha256 msg) = 32%nat.
Proof.
  unfold sha256. cbv zeta. rewrite length_word_bytes, sha_blocks_length; reflexivity.
Qed.

Lemma length_hex (bs : bytes) : length (hex bs) = (2 * length bs)%nat.
Proof.
  induction bs as [|b bs IH]; [reflexivity|].
  unfold hex in *. cbn [flat_map app length]. rewrite IH. lia.
Qed.

Lemma hex_digit_ok (n : N) : n < 16 -> is_hex_digit (hex_digit n) = true.
Proof.
  intros H. unfold is_hex_digit, hex_digit.
  destruct (n <? 10) eqn:Hn.
  - apply N.ltb_lt in Hn. apply orb_true_iff. left.
    apply andb_true_iff. split; apply N.leb_le; lia.
  - apply N.ltb_ge in Hn. apply orb_true_iff. right.
    apply andb_true_iff. split; apply N.leb_le; lia.
Qed.

Lemma hex_digits (bs : bytes) : forallb is_hex_digit (hex bs) = true.
Proof.
  induction bs as [|b bs IH]; [reflexivity|].
  unfold hex in *. cbn [flat_map app forallb]. pose proof (to_N_lt b).
  rewrite !hex_digit_ok, IH by lia. reflexivity.
Qed.

Lemma hex_digit_inj (n m : N) :
  n < 16 -> m < 16 -> hex_digit n = hex_digit m -> n = m.
Proof.
  unfold hex_digit. intros Hn Hm.
  destruct (n <? 10) eqn:H1; destruct (m <? 10) eqn:H2;
    rewrite ?N.ltb_lt, ?N.ltb_ge in *; lia.
Qed.

(** The hexadecimal text determines the bytes. *)
Lemma hex_inj (xs : bytes) : forall ys, hex xs = hex ys -> xs = ys.
Proof.
  induction xs as [|x xs IH]; intros [|y ys]; try discriminate; [reflexivity|].
  unfold hex. cbn [flat_map app]. fold (hex xs) (hex ys).
  intros [= Hhi Hlo Hrest].
  pose proof (to_N_lt x). pose proof (to_N_lt y).
  apply hex_digit_inj in Hhi; [|lia|lia].
  apply hex_digit_inj in Hlo; [|lia|lia].
  f_equal; [|now apply IH]. apply to_N_inj. lia.
Qed.

Lemma utf8_encode_cp_None (c : N) :
  utf8_encode_cp c = None <-> is_surrogate c = true \/ 0x110000 <= c.
Proof.
  unfold utf8_encode_cp, is_surrogate.
  destruct (c <? 0x80) eqn:H1; destruct (c <? 0x800) eqn:H2;
    destruct (c <? 0x10000) eqn:H3; destruct (c <? 0x110000) eqn:H4;
    destruct (0xD800 <=? c) eqn:H5; destruct (c <? 0xE000) eqn:H6;
    cbn [andb];
    rewrite ?N.ltb_lt, ?N.ltb_ge, ?N.leb_le, ?N.leb_gt in *;
    (split; [intros ?; try discriminate; try lia; auto
            |intros [?|?]; try discriminate; try lia; auto]).
Qed.

Lemma str_encode_Ok_all (s : pystr) :
  forall data, str_encode s = Ok data ->
    Forall (fun c => is_surrogate c = false /\ c < 0x110000) s.
Proof.
  induction s as [|c r IH]; intros data; [constructor|]. simpl.
  destruct (utf8_encode_cp c) as [bs|] eqn:Hc; [|discriminate].
  destruct (str_encode r) as [d|]; [|discriminate]. intros _.
  constructor; [|now apply (IH d)].
  destruct (is_surrogate c) eqn:Hs.
  - assert (utf8_encode_cp c = None) by (apply utf8_encode_cp_None; now left).
    congruence.
  - split; [reflexivity|].
    destruct (N.lt_ge_cases c 0x110000) as [|Hge]; [assumption|].
    assert (utf8_encode_cp c = None) by (apply utf8_encode_cp_None; now right).
    congruence.
Qed.

Lemma str_encode_Raise_some (s : pystr) :
  forall x, str_encode s = Raise x ->
    Exists (fun c => is_surrogate c = true \/ 0x110000 <= c) s.
Proof.
  induction s as [|c r IH]; intros x; simpl; [discriminate|].
  destruct (utf8_encode_cp c) as [bs|] eqn:Hc.
  - destruct (str_encode r) as [d|y]; [discriminate|]. intros _.
    apply Exists_cons_tl. now apply (IH y).
  - intros _. apply Exists_cons_hd. now apply utf8_encode_cp_None.
Qed.

(** X8.  [hash_identifier] returns 64 lower-case hexadecimal digits for
    every identifier that UTF-8 can encode, and raises
    [UnicodeEncodeError] exactly for the others (a lone surrogate, a code
    point above U+10FFFF).  The result differs from every identifier that
    does not itself have 64 characters, and two identifiers with the same
    result have UTF-8 forms with the same SHA-256 digest: the hexadecimal
    rendering loses nothing. *)
Theorem hash_identifier_digest (identifier : pystr) :
  match hash_identifier identifier with
  | Ok h =>
    Forall (fun c => is_surrogate c = false /\ c < 0x110000) identifier
    /\ length h = 64%nat
    /\ forallb is_hex_digit h = true
    /\ (length identifier <> 64%nat -> h <> identifier)
    /\ forall other, hash_identifier other = Ok h ->
         exists d1 d2, str_encode identifier = Ok d1
                       /\ str_encode other = Ok d2
                       /\ sha256 d1 = sha256 d2
  | Raise x =>
    x = UnicodeEncodeError
    /\ Exists (fun c => is_surrogate c = true \/ 0x110000 <= c) identifier
  end.
Proof.
  unfold hash_identifier.
  destruct (str_encode identifier) as [data|x] eqn:He; cbn [outcome_map].
  - assert (Hlen : length (hex (sha256 data)) = 64%nat)
      by now rewrite length_hex, length_sha256.
    split; [now apply (str_encode_Ok_all _ data)|].
    split; [exact Hlen|]. split; [apply hex_digits|]. split.
    + intros Hne Heq. rewrite Heq in Hlen. contradiction.
    + intros other. destruct (str_encode other) as [d2|] eqn:Ho; [|discriminate].
      cbn [outcome_map]. intros [= Hh]. exists data, d2.
      repeat split. symmetry. now apply hex_inj.
  - split; [now apply (str_encode_Raise identifier)|].
    now apply (str_encode_Raise_some _ x).
Qed.

(** The digest of the identifier of the test suite, as [hashlib] gives it. *)
Example hash_identifier_patient :
  hash_identifier (lit "PATIENT-12345")
  = Ok (lit "861763c1866615968e5a93daf34f7206c50b160ea6e97d4e8f873e36a8401a22").
Proof. vm_compute. reflexivity. Qed.

(** The digest of the empty identifier. *)
Example hash_identifier_empty :
  hash_identifier []
  = Ok (lit "e3b0c44298fc1c149afbf4c8996fb92427ae41e4649b934ca495991b7852b855").
Proof. vm_compute. reflexivity. Qed.

End HashFacts.

(** ** [encrypt_fields] and [decrypt_fields]: failures, idle runs, reuse *)

Section FieldMore.

Context (lib : aead)
        (entropy : nat -> byte)
        (get_secret : pystr -> outcome pystr)
        (key_vault_url : option pystr)
        (encryption_key_name : pystr).

Local Abbreviation get_key :=
  (_get_encryption_key entropy get_secret key_vault_url encryption_key_name).
Local Abbreviation enc :=
  (encrypt lib entropy get_secret key_vault_url encryption_key_name).
Local Abbreviation dec :=
  (decrypt lib entropy get_secret key_vault_url encryption_key_name).
Local Abbreviation enc_fields :=
  (encrypt_fields lib entropy get_secret key_vault_url encryption_key_name).
Local Abbreviation dec_fields :=
  (decrypt_fields lib entropy get_secret key_vault_url encryption_key_name).
Local Abbreviation eop :=
  (encrypt_op lib entropy get_secret key_vault_url encryption_key_name).
Local Abbreviation dop :=
  (decrypt_op lib entropy get_secret key_vault_url encryption_key_name).
Local Abbreviation dec_other :=
  (decrypt_not_str lib entropy get_secret key_vault_url encryption_key_name).

(** Key resolution never touches the heap, whatever its outcome. *)
Lemma get_key_heap_any (st st' : state) (r : outcome bytes) :
  get_key st = (r, st') -> heap st' = heap st.
Proof.
  unfold _get_encryption_key, os_urandom.
  destruct (truthy_bytes (_key_cache st)); [now intros [= _ <-]|].
  destruct (negb (truthy_str key_vault_url)); [now intros [= _ <-]|].
  destruct (get_secret encryption_key_name) as [x|?]; [|now intros [= _ <-]].
  destruct (b64decode x); now intros [= _ <-].
Qed.

Lemma encrypt_heap_any (s : pystr) (a : option pystr) (st st' : state)
    (r : outcome pystr) :
  enc s a st = (r, st') -> heap st' = heap st.
Proof.
  unfold encrypt, bind, lift, os_urandom.
  destruct (get_key st) as [[key|x] st1] eqn:Hk; apply get_key_heap_any in Hk;
    [|now intros [= _ <-]].
  destruct (AESGCM lib key); [|now intros [= _ <-]].
  destruct (prepare_aad a); [|now intros [= _ <-]].
  destruct (str_encode s); [|now intros [= _ <-]].
  destruct (aesgcm_encrypt lib key _ _ _); intros H;
    apply (f_equal snd) in H; cbn [snd] in H; subst st'; exact Hk.
Qed.

Lemma decrypt_not_str_heap_any (st st' : state) (r : outcome pystr) :
  dec_other st = (r, st') -> heap st' = heap st.
Proof.
  unfold decrypt_not_str, bind, lift.
  destruct (get_key st) as [[key|x] st1] eqn:Hk; apply get_key_heap_any in Hk;
    [|now intros [= _ <-]].
  destruct (AESGCM lib key); now intros [= _ <-].
Qed.

Lemma decrypt_heap_any (s : pystr) (a : option pystr) (st st' : state)
    (r : outcome pystr) :
  dec s a st = (r, st') -> heap st' = heap st.
Proof.
  unfold decrypt, bind, lift.
  destruct (get_key st) as [[key|x] st1] eqn:Hk; apply get_key_heap_any in Hk;
    [|now intros [= _ <-]].
  destruct (AESGCM lib key); [|now intros [= _ <-]].
  destruct (b64decode s); [|now intros [= _ <-]].
  destruct (prepare_aad a); [|now intros [= _ <-]].
  destruct (aesgcm_decrypt lib key _ _ _); intros H;
    apply (f_equal snd) in H; cbn [snd] in H; subst st'; exact Hk.
Qed.

Lemma encrypt_op_heap_any (f : pystr) (v : pyvalue) (st st' : state)
    (r : outcome pystr) :
  eop f v st = (r, st') -> heap st' = heap st.
Proof. apply encrypt_heap_any. Qed.

Lemma decrypt_op_heap_any (f : pystr) (v : pyvalue) (st st' : state)
    (r : outcome pystr) :
  dop f v st = (r, st') -> heap st' = heap st.
Proof.
  unfold decrypt_op.
  destruct v; try apply decrypt_not_str_heap_any. apply decrypt_heap_any.
Qed.

(** A loop over the record behind [l] leaves every other record alone,
    also when it raises. *)
Lemma fields_loop_others (op : pystr -> pyvalue -> M pystr) (l : nat) :
  (forall f v st st' r, op f v st = (r, st') -> heap st' = heap st) ->
  forall (fields : list pystr) (st st' : state) (r : outcome unit),
    fields_loop op l fields st = (r, st') ->
    forall l', l' <> l -> heap st' !! l' = heap st !! l'.
Proof.
  intros Hop. induction fields as [|h rest IH]; intros st st' r Hrun l' Hne.
  - now injection Hrun as _ <-.
  - destruct (heap st !! l) as [d|] eqn:Hl.
    + destruct (d !! h) as [v|] eqn:Hh; [destruct (truthy v) eqn:Hv|].
      * rewrite (fields_loop_step _ _ _ _ _ _ _ Hl Hh Hv) in Hrun.
        destruct (op h v st) as [[p|x] st1] eqn:Hrun1;
          apply Hop in Hrun1; [|injection Hrun as _ <-; now rewrite Hrun1].
        rewrite (dict_setitem_Some _ _ _ _ d) in Hrun by now rewrite Hrun1.
        rewrite (IH _ _ _ Hrun _ Hne). simpl.
        rewrite lookup_insert_ne by congruence. now rewrite Hrun1.
      * rewrite (fields_loop_skip _ _ _ _ _ _ Hl) in Hrun by (right; eauto).
        now apply (IH _ _ _ Hrun).
      * rewrite (fields_loop_skip _ _ _ _ _ _ Hl) in Hrun by now left.
        now apply (IH _ _ _ Hrun).
    + cbn [fields_loop] in Hrun. unfold bind at 1, deref in Hrun.
      rewrite Hl in Hrun. now injection Hrun as _ <-.
Qed.

Lemma fields_run_keeps (op : pystr -> pyvalue -> M pystr)
    (data : nat) (fields : list pystr) (st st' : state) (r : outcome nat) :
  (forall f v st st' r, op f v st = (r, st') -> heap st' = heap st) ->
  (l <- dict_copy data ;; _ <- fields_loop op l fields ;; ret l) st = (r, st') ->
  forall l' d', heap st !! l' = Some d' -> heap st' !! l' = Some d'.
Proof.
  intros Hop Hrun l' d' Hl'. unfold bind at 1 in Hrun.
  destruct (heap st !! data) as [d|] eqn:Hd.
  - rewrite (dict_copy_Some _ _ _ Hd) in Hrun. unfold bind, ret in Hrun.
    match type of Hrun with context [fields_loop _ _ _ ?s] => set (st0 := s) in * end.
    assert (Hne : l' <> fresh (dom (heap st)))
      by (intros ->; rewrite fresh_not_allocated in Hl'; discriminate).
    destruct (fields_loop op (fresh (dom (heap st))) fields st0)
      as [[[]|x] st1] eqn:Hloop; injection Hrun as _ <-;
      rewrite (fields_loop_others op _ Hop _ _ _ _ Hloop _ Hne);
      subst st0; simpl; now rewrite lookup_insert_ne by congruence.
  - unfold dict_copy, bind, deref in Hrun. rewrite Hd in Hrun.
    now injection Hrun as _ <-.
Qed.

(** A loop that finds no true value under a listed name does nothing. *)
Lemma fields_loop_idle (op : pystr -> pyvalue -> M pystr) (l : nat)
    (d : gmap pystr pyvalue) (st : state) :
  heap st !! l = Some d ->
  forall fields : list pystr,
    (forall k, k ∈ fields ->
       d !! k = None \/ exists v, d !! k = Some v /\ truthy v = false) ->
    fields_loop op l fields st = (Ok tt, st).
Proof.
  intros Hl. induction fields as [|h rest IH]; intros Hall; [reflexivity|].
  rewrite (fields_loop_skip _ _ _ _ _ _ Hl) by (apply Hall; left).
  apply IH. intros k Hk. apply Hall. now right.
Qed.

(** The decrypting loop cannot get past a true value that is not a
    string. *)
Lemma decrypt_loop_not_str (l : nat) (k : pystr) (v : pyvalue) :
  truthy v = true ->
  (forall s, v <> VStr s) ->
  forall (fields : list pystr) (st : state) (d : gmap pystr pyvalue),
    heap st !! l = Some d -> d !! k = Some v -> k ∈ fields ->
    forall st', fields_loop dop l fields st <> (Ok tt, st').
Proof.
  intros Hv Hns.
  assert (Hop : forall st p s, dop k v st <> (Ok p, s)).
  { intros st p s. unfold decrypt_op.
    destruct v; try (exfalso; eapply Hns; reflexivity);
      unfold decrypt_not_str, bind, lift;
      destruct (get_key st) as [[key|x] st1]; try discriminate;
      destruct (AESGCM lib key); discriminate. }
  induction fields as [|h rest IH]; intros st d Hl Hk Hin st' Hrun.
  - inversion Hin.
  - destruct (decide (h = k)) as [->|Hne].
    + rewrite (fields_loop_step _ _ _ _ _ _ _ Hl Hk Hv) in Hrun.
      destruct (dop k v st) as [[p|x] s1] eqn:Hrun1; [|discriminate].
      now apply Hop in Hrun1.
    + assert (Hin' : k ∈ rest) by (inversion Hin; subst; congruence).
      destruct (d !! h) as [u|] eqn:Hh; [destruct (truthy u) eqn:Hu|].
      * rewrite (fields_loop_step _ _ _ _ _ _ _ Hl Hh Hu) in Hrun.
        destruct (dop h u st) as [[p|x] s1] eqn:Hrun1; [|discriminate].
        apply decrypt_op_heap_any in Hrun1.
        rewrite (dict_setitem_Some _ _ _ _ d) in Hrun by now rewrite Hrun1.
        apply (IH _ (<[h := VStr p]> d)) in Hrun; try assumption.
        -- simpl. apply lookup_insert_eq.
        -- now rewrite lookup_insert_ne.
      * rewrite (fields_loop_skip _ _ _ _ _ _ Hl) in Hrun by (right; eauto).
        now apply (IH _ _ Hl Hk Hin') in Hrun.
      * rewrite (fields_loop_skip _ _ _ _ _ _ Hl) in Hrun by now left.
        now apply (IH _ _ Hl Hk Hin') in Hrun.
Qed.

Lemma get_key_set_heap (h : gmap nat (gmap pystr pyvalue)) (st st1 : state)
    (key : bytes) :
  get_key st = (Ok key, st1) ->
  get_key (set_heap h st) = (Ok key, set_heap h st1).
Proof.
  unfold _get_encryption_key, os_urandom. simpl.
  destruct (truthy_bytes (_key_cache st)); [now intros [= <- <-]|].
  destruct (negb (truthy_str key_vault_url)); [now intros [= <- <-]|].
  destruct (get_secret encryption_key_name) as [x|?]; [|discriminate].
  destruct (b64decode x); [|discriminate]. now intros [= <- <-].
Qed.

(** X9.  A record in which no listed field has a true value needs no key:
    [encrypt_fields] and [decrypt_fields] both return a fresh copy of it
    and leave the key cache and the random source as they were, whatever
    the vault would answer and whatever the primitive is. *)
Theorem nothing_to_seal (data : nat) (fields : list pystr) (st : state)
    (d : gmap pystr pyvalue) :
  heap st !! data = Some d ->
  (forall k, k ∈ fields ->
     d !! k = None \/ exists v, d !! k = Some v /\ truthy v = false) ->
  let l := fresh (dom (heap st)) in
  enc_fields data fields st = (Ok l, set_heap (<[l := d]> (heap st)) st)
  /\ dec_fields data fields st = (Ok l, set_heap (<[l := d]> (heap st)) st)
  /\ l <> data.
Proof.
  intros Hd Hall l.
  assert (Hrun : forall op,
             (c <- dict_copy data ;; _ <- fields_loop op c fields ;; ret c) st
             = (Ok l, set_heap (<[l := d]> (heap st)) st)).
  { intros op. unfold bind at 1. rewrite (dict_copy_Some _ _ _ Hd).
    unfold bind, ret. fold l.
    rewrite (fields_loop_idle op l d); [reflexivity| |exact Hall].
    simpl. apply lookup_insert_eq. }
  rewrite (encrypt_fields_unfold lib entropy get_secret key_vault_url
             encryption_key_name), (decrypt_fields_unfold lib entropy get_secret
             key_vault_url encryption_key_name).
  split; [apply Hrun|]. split; [apply Hrun|].
  unfold l. now apply allocated_not_fresh with d.
Qed.

(** X10.  Neither [encrypt_fields] nor [decrypt_fields] ever changes or
    removes a record that exists when it is called, the input record
    included: this holds when the call returns and also when it raises
    half-way through the list of fields. *)
Theorem records_never_mutated (data : nat) (fields : list pystr) (st st' : state)
    (r : outcome nat) :
  enc_fields data fields st = (r, st') \/ dec_fields data fields st = (r, st') ->
  forall l' d', heap st !! l' = Some d' -> heap st' !! l' = Some d'.
Proof.
  intros [Hrun|Hrun].
  - rewrite (encrypt_fields_unfold lib entropy get_secret key_vault_url
               encryption_key_name) in Hrun.
    apply (fields_run_keeps eop _ _ _ _ _ encrypt_op_heap_any Hrun).
  - rewrite (decrypt_fields_unfold lib entropy get_secret key_vault_url
               encryption_key_name) in Hrun.
    apply (fields_run_keeps dop _ _ _ _ _ decrypt_op_heap_any Hrun).
Qed.

(** X11.  With a vault configured and a correct primitive, the record that
    [encrypt_fields] returns can be decrypted later and more than once:
    in every state with the same key cache, [decrypt_fields] on any record
    with the same content returns the restored record, leaves the
    encrypted one as it is, and changes neither the key cache nor the
    random source. *)
Theorem sealed_record_opens_again (data : nat) (fields : list pystr)
    (st st1 : state) (l1 : nat) (d : gmap pystr pyvalue) :
  aead_correct lib ->
  truthy_str key_vault_url = true ->
  heap st !! data = Some d ->
  enc_fields data fields st = (Ok l1, st1) ->
  exists d1,
    heap st1 !! l1 = Some d1
    /\ forall st2 l,
         heap st2 !! l = Some d1 ->
         _key_cache st2 = _key_cache st1 ->
         exists l2 st3,
           dec_fields l fields st2 = (Ok l2, st3)
           /\ heap st3 !! l2 = Some (restored fields d)
           /\ heap st3 !! l = Some d1
           /\ _key_cache st3 = _key_cache st2
           /\ urandom_pos st3 = urandom_pos st2.
Proof.
  intros Hlib Hu Hd Hrun.
  destruct (fields_round_trip _ _ _ _ _ _ _ _ _ _ _ Hlib Hu Hd Hrun)
    as (d1 & -> & Hheap & Hsealed & _).
  exists d1. split; [rewrite Hheap; apply lookup_insert_eq|].
  intros st2 l Hl Hc.
  exists (fresh (dom (heap st2))),
    (set_heap (<[fresh (dom (heap st2)) := restored fields d]> (heap st2)) st2).
  split; [|split; [|split; [|split]]].
  - unfold decrypt_fields, bind.
    rewrite (dict_copy_Some _ _ _ Hl), decrypt_fields_loop_eq.
    rewrite (decrypt_loop_unseals _ _ _ _ _ _ (_key_cache st1) fields _ d1
               (restored fields d)).
    + simpl. now rewrite insert_insert_eq.
    + simpl. apply lookup_insert_eq.
    + exact Hc.
    + now apply sealed_to_unseal.
  - simpl. apply lookup_insert_eq.
  - simpl. rewrite lookup_insert_ne; [exact Hl|].
    now apply allocated_not_fresh with d1.
  - reflexivity.
  - reflexivity.
Qed.

(** X12.  An envelope is bound to the name of its field by its tag.  With
    a key vault configured and a primitive that authenticates by a tag, an
    envelope that [encrypt] made for field [f] and that is found under
    another name [g] makes [decrypt_fields] raise [InvalidTag] when it
    reaches [g], provided the tag of the box under the bytes of [g] is not
    the tag in the envelope; the record that was passed in is unchanged. *)
Theorem swapped_envelope_rejected
    (tag : bytes -> bytes -> bytes -> bytes -> bytes)
    (s f g e : pystr) (gbytes : bytes)
    (st st1 st2 : state) (data : nat) (d : gmap pystr pyvalue)
    (rest : list pystr) :
  aead_checks_tag lib tag ->
  truthy_str key_vault_url = true ->
  enc s (Some f) st = (Ok e, st1) ->
  str_encode g = Ok gbytes ->
  heap st2 !! data = Some d ->
  d !! g = Some (VStr e) ->
  _key_cache st2 = _key_cache st1 ->
  bytes_eqb (tag (default [] (_key_cache st1)) (envelope_nonce e) gbytes
               (envelope_body e))
            (envelope_tag e) = false ->
  exists st3,
    dec_fields data (g :: rest) st2 = (Raise InvalidTag, st3)
    /\ heap st3 !! data = Some d.
Proof.
  intros Hlib Hu He Hg Hd Hdg Hc Htags.
  pose proof (encrypt_nonempty _ _ _ _ _ _ _ _ _ _ He) as Hne.
  destruct (decrypt_envelope_checks_tag lib entropy get_secret key_vault_url
              encryption_key_name tag s (Some f) st st1 e Hlib Hu He)
    as (key & aad1 & Hcache & _ & _ & Hok & _).
  rewrite Hcache in Htags. change (default [] (Some key)) with key in Htags.
  set (l := fresh (dom (heap st2))).
  set (st0 := set_heap (<[l := d]> (heap st2)) st2).
  exists st0. split.
  - rewrite (decrypt_fields_unfold lib entropy get_secret key_vault_url
               encryption_key_name).
    unfold bind at 1. rewrite (dict_copy_Some _ _ _ Hd). fold l st0.
    unfold bind at 1.
    assert (Hl : heap st0 !! l = Some d) by (simpl; apply lookup_insert_eq).
    assert (Ht : truthy (VStr e) = true) by (simpl; destruct e; congruence).
    rewrite (fields_loop_step _ _ _ _ _ _ _ Hl Hdg Ht).
    unfold decrypt_op.
    rewrite (Hok st0 (Some g) gbytes);
      [now rewrite Htags | exact Hc | now rewrite prepare_aad_text, aad_text_Some].
  - simpl. rewrite lookup_insert_ne; [exact Hd|].
    now apply allocated_not_fresh with d.
Qed.

(** X13.  [decrypt_fields] does not accept what [encrypt_fields] accepts:
    a listed field whose value is true but not a string (a number, [True])
    makes it raise, whatever the other fields hold; when the key resolves
    and the field is the first of the list the exception is [TypeError].
    The record that was passed in is unchanged. *)
Theorem decrypt_fields_rejects_non_strings (data : nat) (k : pystr)
    (v : pyvalue) (st : state) (d : gmap pystr pyvalue) :
  heap st !! data = Some d ->
  d !! k = Some v ->
  truthy v = true ->
  (forall s, v <> VStr s) ->
  (forall fields, k ∈ fields ->
     exists x st', dec_fields data fields st = (Raise x, st')
                   /\ heap st' !! data = Some d)
  /\ (forall key st1 rest,
        get_key st = (Ok key, st1) -> AESGCM lib key = Ok tt ->
        exists st', dec_fields data (k :: rest) st = (Raise TypeError, st')).
Proof.
  intros Hd Hk Hv Hns.
  set (l := fresh (dom (heap st))).
  set (st0 := set_heap (<[l := d]> (heap st)) st).
  assert (Hl : heap st0 !! l = Some d) by (simpl; apply lookup_insert_eq).
  split.
  - intros fields Hin.
    destruct (dec_fields data fields st) as [[l2|x] st'] eqn:Hrun.
    + exfalso.
      rewrite (decrypt_fields_unfold lib entropy get_secret key_vault_url
                 encryption_key_name) in Hrun.
      unfold bind at 1 in Hrun. rewrite (dict_copy_Some _ _ _ Hd) in Hrun.
      fold l st0 in Hrun. unfold bind, ret in Hrun.
      destruct (fields_loop dop l fields st0) as [[[]|y] s] eqn:Hloop;
        [|discriminate].
      now apply (decrypt_loop_not_str l k v Hv Hns fields st0 d Hl Hk Hin) in Hloop.
    + exists x, st'. split; [reflexivity|].
      rewrite (decrypt_fields_unfold lib entropy get_secret key_vault_url
                 encryption_key_name) in Hrun.
      apply (fields_run_keeps dop _ _ _ _ _ decrypt_op_heap_any Hrun _ _ Hd).
  - intros key st1 rest Hkey Hlib.
    rewrite (decrypt_fields_unfold lib entropy get_secret key_vault_url
               encryption_key_name).
    unfold bind at 1. rewrite (dict_copy_Some _ _ _ Hd). fold l st0.
    unfold bind at 1. rewrite (fields_loop_step _ _ _ _ _ _ _ Hl Hk Hv).
    assert (Hop : dop k v st0 = (Raise TypeError, set_heap (<[l := d]> (heap st)) st1)).
    { unfold decrypt_op.
      destruct v; try (exfalso; eapply Hns; reflexivity);
        unfold decrypt_not_str, bind, lift;
        unfold st0; now rewrite (get_key_set_heap _ _ _ _ Hkey), Hlib. }
    rewrite Hop. eauto.
Qed.

End FieldMore.

(** ** The audit ledger: what a call can and cannot do to the container *)

Section Respects.

Context (R : world -> world -> Prop)
        (R_refl : forall w, R w w)
        (R_trans : forall a b c, R a b -> R b c -> R a c).

Lemma respects_ret {A} (v : A) : respects R (ret v).
Proof. intros w r w' [= _ <-]. apply R_refl. Qed.

Lemma respects_lift {A} (o : outcome A) : respects R (lift o).
Proof. intros w r w' [= _ <-]. apply R_refl. Qed.

Lemma respects_bind {A B} (m : ST world A) (f : A -> ST world B) :
  respects R m -> (forall x, respects R (f x)) -> respects R (bind m f).
Proof.
  intros Hm Hf w r w' H. unfold bind in H.
  destruct (m w) as [[v|e] w1] eqn:Hrun; apply Hm in Hrun.
  - apply Hf in H. now apply R_trans with w1.
  - now injection H as _ <-.
Qed.

Lemma respects_try {A} (body : ST world A) (handler : exn -> ST world A) :
  respects R body -> (forall e, respects R (handler e)) ->
  respects R (try_except body handler).
Proof.
  intros Hb Hh w r w' H. unfold try_except in H.
  destruct (body w) as [[v|e] w1] eqn:Hrun; apply Hb in Hrun.
  - now injection H as _ <-.
  - apply Hh in H. now apply R_trans with w1.
Qed.

End Respects.

Lemma append_only_refl (w : world) : append_only w w.
Proof. now intros name b. Qed.

Lemma append_only_trans (a b c : world) :
  append_only a b -> append_only b c -> append_only a c.
Proof. intros H1 H2 name x Hx. now apply H2, H1. Qed.

Lemma only_adds_refl (name : pystr) (w : world) : only_adds name w w.
Proof. intros n b Hn. now right. Qed.

Lemma only_adds_trans (name : pystr) (a b c : world) :
  only_adds name a b -> only_adds name b c -> only_adds name a c.
Proof.
  intros H1 H2 n x Hx. destruct (H2 _ _ Hx) as [->|Hb]; [now left|].
  now apply H1.
Qed.

Lemma storage_untouched_refl (w : world) : storage_untouched w w.
Proof. split; [reflexivity|]. exists []. now rewrite app_nil_r. Qed.

Lemma storage_untouched_trans (a b c : world) :
  storage_untouched a b -> storage_untouched b c -> storage_untouched a c.
Proof.
  intros (Hs1 & n1 & Ht1 & Hn1) (Hs2 & n2 & Ht2 & Hn2).
  split; [congruence|]. exists (n1 ++ n2).
  split; [now rewrite Ht2, Ht1, app_assoc|].
  now rewrite forallb_app, Hn1, Hn2.
Qed.

Lemma same_storage_append_only (name : pystr) (w w' : world) :
  storage w' = storage w -> append_only w w' /\ only_adds name w w'.
Proof.
  intros H. split; intros n b Hn; rewrite H in *; auto.
Qed.

Lemma logger_call_untouched (level : log_level) (ev : pystr)
    (fields : list (pystr * pyvalue)) :
  respects storage_untouched (logger_call level ev fields).
Proof.
  intros w r w' H. unfold logger_call in H.
  destruct (sink_up w); injection H as _ <-;
    (split; [reflexivity|]; eexists; split; reflexivity).
Qed.

Lemma logger_call_storage (level : log_level) (ev : pystr)
    (fields : list (pystr * pyvalue)) (w w' : world) (r : outcome unit) :
  logger_call level ev fields w = (r, w') -> storage w' = storage w.
Proof. intros H. now apply logger_call_untouched in H as [H _]. Qed.

Lemma logger_call_append_only (level : log_level) (ev : pystr)
    (fields : list (pystr * pyvalue)) :
  respects append_only (logger_call level ev fields).
Proof.
  intros w r w' H. apply logger_call_storage in H.
  now apply (same_storage_append_only []).
Qed.

Lemma logger_call_only_adds (name : pystr) (level : log_level) (ev : pystr)
    (fields : list (pystr * pyvalue)) :
  respects (only_adds name) (logger_call level ev fields).
Proof.
  intros w r w' H. apply logger_call_storage in H.
  now apply (same_storage_append_only name).
Qed.

(** An upload with [overwrite=False] keeps what is there, and adds at
    most its own name. *)
Lemma upload_blob_append_only (name data : pystr) (m : list (pystr * pystr)) :
  respects append_only (upload_blob name data false m)
  /\ respects (only_adds name) (upload_blob name data false m).
Proof.
  split; intros w r w' H; unfold upload_blob, container_upload in H;
    destruct (outage (storage w));
    try (injection H as _ <-; now apply (same_storage_append_only name));
    destruct (blobs (storage w) !! name) eqn:Hn;
    try (injection H as _ <-; now apply (same_storage_append_only name));
    injection H as _ <-; intros n b Hb; cbn in *.
  - rewrite lookup_insert_ne; [exact Hb | congruence].
  - destruct (decide (name = n)) as [->|Hne]; [now left|].
    right. now rewrite lookup_insert_ne in Hb.
Qed.

Section AuditMore.

Context (model_dump_json : AuditEvent -> outcome pystr)
        (isoformat : datetime -> pystr)
        (uuid4 : nat -> pystr)
        (utcnow : nat -> datetime)
        (connect : pystr -> outcome unit).

Local Abbreviation log := (log_event model_dump_json isoformat).
Local Abbreviation meta := (storage_metadata isoformat).
Local Abbreviation phi_access := (log_phi_access model_dump_json isoformat uuid4 utcnow).
Local Abbreviation authentication :=
  (log_authentication model_dump_json isoformat uuid4 utcnow).
Local Abbreviation security_alert :=
  (log_security_event model_dump_json isoformat uuid4 utcnow).

(** [log_event] keeps every relation between worlds that is reflexive and
    transitive and that the calls of the logger keep, and the upload too
    when the logger has a container. *)
Lemma log_event_respects (R : world -> world -> Prop) (self : AuditLogger)
    (event : AuditEvent) :
  (forall w, R w w) ->
  (forall a b c, R a b -> R b c -> R a c) ->
  (forall level ev fields, respects R (logger_call level ev fields)) ->
  (forall cname j, container_client self = Some cname ->
     respects R (upload_blob (blob_name_of event) j false (meta event))) ->
  respects R (log self event).
Proof.
  intros Hrefl Htrans Hlog Hup. unfold log_event.
  apply respects_try; try assumption.
  - apply respects_bind; try assumption; [now apply respects_lift|].
    intros j. apply respects_bind; try assumption.
    + destruct (local_backup self); [apply Hlog | now apply respects_ret].
    + intros _. destruct (container_client self) as [cname|] eqn:Hc;
        [|now apply respects_ret].
      unfold _write_to_storage. apply respects_try; try assumption.
      * apply respects_bind; try assumption; [now apply (Hup cname)|].
        intros _. apply Hlog.
      * intros e. apply Hlog.
  - intros e. apply respects_bind; try assumption; [apply Hlog|].
    intros _. now apply respects_lift.
Qed.

Lemma event_defaults_storage (w w' : world) (r : outcome (pystr * datetime)) :
  event_defaults uuid4 utcnow w = (r, w') ->
  storage w' = storage w /\ trace w' = trace w.
Proof. unfold event_defaults. now intros [= _ <-]. Qed.

Lemma log_event_append_only (self : AuditLogger) (event : AuditEvent) :
  respects append_only (log self event).
Proof.
  apply log_event_respects.
  - apply append_only_refl.
  - apply append_only_trans.
  - apply logger_call_append_only.
  - intros cname j _. apply upload_blob_append_only.
Qed.

Lemma with_defaults_append_only (f : pystr * datetime -> AuditEvent)
    (self : AuditLogger) :
  respects append_only (defaults <- event_defaults uuid4 utcnow ;; log self (f defaults)).
Proof.
  apply respects_bind.
  - apply append_only_trans.
  - intros w r w' H. apply event_defaults_storage in H as [H _].
    now apply (same_storage_append_only []).
  - intros defaults. apply log_event_append_only.
Qed.

(** X14.  A logger built without a storage URL, or with the empty string
    as URL, is local-only: whatever the event and whatever the outcome,
    [log_event] leaves the container as it is and makes no upload call;
    all it does is write to the sink. *)
Theorem local_only_never_uploads (url : option pystr) (cname : pystr)
    (backup : bool) (event : AuditEvent) (w w' : world) (r : outcome unit) :
  truthy_str url = false ->
  log (AuditLogger_init url cname backup) event w = (r, w') ->
  storage w' = storage w
  /\ exists new, trace w' = trace w ++ new
                 /\ forallb (fun e => negb (is_upload e)) new = true.
Proof.
  intros Hu Hrun.
  apply (log_event_respects storage_untouched) in Hrun; try assumption.
  - apply storage_untouched_refl.
  - apply storage_untouched_trans.
  - apply logger_call_untouched.
  - intros c j. unfold AuditLogger_init. simpl. now rewrite Hu.
Qed.

(** X15.  The container is append-only under the audit logger.  Whatever
    the configuration, the event and the outcome, [log_event] changes and
    removes no blob that exists, and the only name it can add is
    [{YYYY}/{MM}/{DD}/{event_id}.json] of its event; [log_phi_access],
    [log_authentication] and [log_security_event] change and remove no
    existing blob either. *)
Theorem audit_storage_append_only (self : AuditLogger) :
  (forall event,
     respects append_only (log self event)
     /\ respects (only_adds (blob_name_of event)) (log self event))
  /\ (forall user patient action rtype rid res ip md,
        respects append_only
          (phi_access self user patient action rtype rid res ip md))
  /\ (forall user success ip reason,
        respects append_only (authentication self user success ip reason))
  /\ (forall etype sev action user ip md,
        respects append_only (security_alert self etype sev action user ip md)).
Proof.
  split; [|split; [|split]].
  - intros event. split; [apply log_event_append_only|].
    apply log_event_respects.
    + apply only_adds_refl.
    + apply only_adds_trans.
    + apply logger_call_only_adds.
    + intros cname j _. apply upload_blob_append_only.
  - intros user patient action rtype rid res ip md.
    apply (with_defaults_append_only
             (fun defaults => phi_access_event defaults user patient action
                                rtype rid res ip md)).
  - intros user success ip reason.
    apply (with_defaults_append_only
             (fun defaults => authentication_event defaults user success ip reason)).
  - intros etype sev action user ip md.
    apply (with_defaults_append_only
             (fun defaults => security_event defaults etype sev action user ip md)).
Qed.

(** X16.  An event that cannot be serialised is lost: [log_event] raises,
    whatever the configuration of the logger, without having written the
    audit record to the sink and without an upload; the one thing it does
    is the error line.  The exception is the one of the serialiser when
    the sink works, and the one of the sink when it does not. *)
Theorem unserialisable_event_is_lost (self : AuditLogger) (event : AuditEvent)
    (w : world) (x : exn) :
  model_dump_json event = Raise x ->
  exists e,
    log self event w
    = (Raise (if sink_up w then x else OSError), record_effect e w)
    /\ is_audit_record e = false
    /\ is_upload e = false
    /\ storage (record_effect e w) = storage w.
Proof.
  intros Hj. unfold log_event, try_except, bind, lift, logger_call.
  rewrite Hj. destruct (sink_up w); eexists; repeat split.
Qed.

End AuditMore.

(** ** Blob names *)

Lemma zfill_4_digits (n : nat) :
  n < 10 ^ 4 ->
  length (zfill 4 (decimal n)) = 4 /\ decimal_value (zfill 4 (decimal n)) = n.
Proof.
  intros Hn.
  assert (Hall : forallb (fun n =>
                    Nat.eqb (length (zfill 4 (decimal n))) 4
                    && Nat.eqb (decimal_value (zfill 4 (decimal n))) n)
                   (seq 0 (10 ^ 4)) = true) by (vm_compute; reflexivity).
  rewrite forallb_forall in Hall. specialize (Hall n).
  rewrite andb_true_iff, !Nat.eqb_eq in Hall. apply Hall, in_seq. lia.
Qed.

Lemma zfill_2_digits (n : nat) :
  n < 100 ->
  length (zfill 2 (decimal n)) = 2 /\ decimal_value (zfill 2 (decimal n)) = n.
Proof.
  intros Hn.
  assert (Hall : forallb (fun n =>
                    Nat.eqb (length (zfill 2 (decimal n))) 2
                    && Nat.eqb (decimal_value (zfill 2 (decimal n))) n)
                   (seq 0 100) = true) by (vm_compute; reflexivity).
  rewrite forallb_forall in Hall. specialize (Hall n).
  rewrite andb_true_iff, !Nat.eqb_eq in Hall. apply Hall, in_seq. lia.
Qed.

(** Two names are equal only for equal identifiers and dates. *)
Lemma blob_name_inj (e1 e2 : AuditEvent) :
  1000 <= year (timestamp e1) < 10 ^ 4 ->
  1000 <= year (timestamp e2) < 10 ^ 4 ->
  1 <= month (timestamp e1) <= 12 -> 1 <= month (timestamp e2) <= 12 ->
  1 <= day (timestamp e1) <= 31 -> 1 <= day (timestamp e2) <= 31 ->
  blob_name_of e1 = blob_name_of e2 ->
  event_id e1 = event_id e2
  /\ year (timestamp e1) = year (timestamp e2)
  /\ month (timestamp e1) = month (timestamp e2)
  /\ day (timestamp e1) = day (timestamp e2).
Proof.
  intros Hy1 Hy2 Hm1 Hm2 Hd1 Hd2.
  rewrite (blob_name_dated e1 Hy1), (blob_name_dated e2 Hy2).
  unfold dated_name. intros H.
  destruct (zfill_4_digits (year (timestamp e1))) as [Ly1 Vy1]; [lia|].
  destruct (zfill_4_digits (year (timestamp e2))) as [Ly2 Vy2]; [lia|].
  destruct (zfill_2_digits (month (timestamp e1))) as [Lm1 Vm1]; [lia|].
  destruct (zfill_2_digits (month (timestamp e2))) as [Lm2 Vm2]; [lia|].
  destruct (zfill_2_digits (day (timestamp e1))) as [Ld1 Vd1]; [lia|].
  destruct (zfill_2_digits (day (timestamp e2))) as [Ld2 Vd2]; [lia|].
  apply app_inj_1 in H as [HY H]; [|congruence].
  apply app_inv_head in H.
  apply app_inj_1 in H as [HM H]; [|congruence].
  apply app_inv_head in H.
  apply app_inj_1 in H as [HD H]; [|congruence].
  apply app_inv_head, app_inv_tail in H.
  repeat split; congruence.
Qed.

(** X17.  The blob name determines the event identifier and the date.
    For timestamps with a four-digit year, two events are stored under
    the same name only if they have the same [event_id] and the same
    year, month and day; the time of day plays no part.  So an upload is
    refused as existing only for an event whose identifier was already
    used on that day. *)
Theorem blob_name_determines_event (e1 e2 : AuditEvent) :
  1000 <= year (timestamp e1) < 10 ^ 4 ->
  1000 <= year (timestamp e2) < 10 ^ 4 ->
  1 <= month (timestamp e1) <= 12 -> 1 <= month (timestamp e2) <= 12 ->
  1 <= day (timestamp e1) <= 31 -> 1 <= day (timestamp e2) <= 31 ->
  (blob_name_of e1 = blob_name_of e2
   <-> event_id e1 = event_id e2
       /\ year (timestamp e1) = year (timestamp e2)
       /\ month (timestamp e1) = month (timestamp e2)
       /\ day (timestamp e1) = day (timestamp e2)).
Proof.
  intros Hy1 Hy2 Hm1 Hm2 Hd1 Hd2. split.
  - now apply blob_name_inj.
  - intros (Hid & Hy & Hm & Hd). unfold blob_name_of, strftime_Ymd.
    now rewrite Hid, Hy, Hm, Hd.
Qed.

(** ** The logger of the process *)

Section ProcessFacts.

Context (connect : pystr -> outcome unit).

Local Abbreviation new_logger := (AuditLogger_new connect).
Local Abbreviation get_logger := (get_audit_logger connect).
Local Abbreviation initialize := (initialize_audit_logger connect).

(** Building a logger writes one line to the sink and nothing else. *)
Lemma AuditLogger_new_outcome (url : option pystr) (cname : pystr)
    (backup : bool) (w w' : world) (r : outcome AuditLogger) :
  new_logger url cname backup w = (r, w') ->
  storage w' = storage w
  /\ (forall l, r = Ok l ->
        l = AuditLogger_init url cname backup /\ sink_up w = true)
  /\ (truthy_str url = false -> sink_up w = true ->
      r = Ok (AuditLogger_init url cname backup)).
Proof.
  unfold AuditLogger_new, bind, lift, ret, logger_call.
  destruct (truthy_str url).
  - destruct (connect (default [] url)) as [[]|x].
    + destruct (sink_up w); intros [= <- <-]; repeat split;
        intros; try discriminate; congruence.
    + intros [= <- <-]. repeat split; intros; discriminate.
  - destruct (sink_up w); intros [= <- <-]; repeat split;
      intros; try discriminate; congruence.
Qed.

(** X18.  After [initialize_audit_logger] has returned, the logger of the
    process is the one it returned, built for the given URL with the
    container [audit-logs] and local logging on, whatever logger was there
    before; [get_audit_logger] returns that same logger and does nothing
    else, however often it is called.  The logger uploads exactly when the
    URL is a non-empty string.  The container is not touched. *)
Theorem initialize_then_get (url : option pystr) (p p' : process)
    (l : AuditLogger) :
  initialize url p = (Ok l, p') ->
  l = AuditLogger_init url (lit "audit-logs") true
  /\ (container_client l = None <-> truthy_str url = false)
  /\ get_logger p' = (Ok l, p')
  /\ storage (outside p') = storage (outside p).
Proof.
  unfold initialize_audit_logger.
  destruct (new_logger url (lit "audit-logs") true (outside p))
    as [[l0|x] w1] eqn:Hnew; [|discriminate].
  intros [= <- <-].
  apply AuditLogger_new_outcome in Hnew as (Hs & Hl & _).
  destruct (Hl l0 eq_refl) as [-> _].
  split; [reflexivity|]. split; [|split; [reflexivity | exact Hs]].
  unfold AuditLogger_init. simpl. destruct (truthy_str url); split; congruence.
Qed.

(** X19.  Without an initialisation, the first [get_audit_logger] builds a
    local-only logger with the container name [audit-logs] and local
    logging on, keeps it, and returns it again on every later call; this
    succeeds whenever the sink works.  When the sink is broken the call
    raises and keeps nothing, so that the next call builds a logger
    again.  The container is not touched. *)
Theorem lazy_logger_is_local_only (p p' : process) (r : outcome AuditLogger) :
  _audit_logger p = None ->
  get_logger p = (r, p') ->
  storage (outside p') = storage (outside p)
  /\ (sink_up (outside p) = true -> exists l, r = Ok l)
  /\ (forall l, r = Ok l ->
        container_client l = None /\ local_backup l = true
        /\ container_name l = lit "audit-logs"
        /\ _audit_logger p' = Some l
        /\ get_logger p' = (Ok l, p'))
  /\ (forall x, r = Raise x ->
        sink_up (outside p) = false /\ _audit_logger p' = None).
Proof.
  intros Hnone. unfold get_audit_logger at 1. rewrite Hnone.
  destruct (new_logger None (lit "audit-logs") true (outside p))
    as [[l0|x] w1] eqn:Hnew; intros [= <- <-];
    apply AuditLogger_new_outcome in Hnew as (Hs & Hl & Hok).
  - destruct (Hl l0 eq_refl) as [-> Hup].
    split; [exact Hs|]. split; [eauto|]. split; [|discriminate].
    intros l [= <-]. repeat split.
  - split; [exact Hs|]. split; [|split; [discriminate|]].
    + intros Hup. specialize (Hok eq_refl Hup). discriminate.
    + intros y _. split; [|reflexivity].
      destruct (sink_up (outside p)); [|reflexivity].
      specialize (Hok eq_refl eq_refl). discriminate.
Qed.

End ProcessFacts.

(** ** How the convenience methods classify their events *)

Lemma action_map_range (k : pystr) (t : AuditEventType) :
  action_map !! k = Some t ->
  t ∈ [PHI_VIEW; PHI_CREATE; PHI_UPDATE; PHI_DELETE; PHI_EXPORT].
Proof.
  intros H. unfold action_map in H.
  apply elem_of_list_to_map_2 in H.
  repeat (apply elem_of_cons in H as [H|H];
          [injection H as _ ->; repeat constructor|]).
  now apply elem_of_nil in H.
Qed.

Lemma str_lower_idemp (s : pystr) : str_lower (str_lower s) = str_lower s.
Proof.
  unfold str_lower. rewrite map_map. apply map_ext. intros c.
  destruct ((65 <=? c)%N && (c <=? 90)%N) eqn:H; [|now rewrite H].
  apply andb_true_iff in H as [H1 H2]. apply N.leb_le in H1, H2.
  assert (Hhi : ((c + 32 <=? 90) = false)%N) by (apply N.leb_gt; lia).
  now rewrite Hhi, andb_false_r.
Qed.

(** X20.  [log_phi_access] files its event under one of the five PHI
    types and with severity INFO or WARNING, whatever action and result
    it is given, and the type does not depend on the case of the letters
    A to Z in the action.  [log_authentication] files a login success
    with severity INFO and result [success], or a login failure with
    severity WARNING and result [failure].  The result of a security
    event is always [detected]. *)
Theorem convenience_events_classified (defaults : pystr * datetime) :
  (forall user patient action rtype rid res ip md,
     let event := phi_access_event defaults user patient action rtype rid res
                    ip md in
     event_type event ∈ [PHI_VIEW; PHI_CREATE; PHI_UPDATE; PHI_DELETE; PHI_EXPORT]
     /\ severity event ∈ [INFO; WARNING]
     /\ event_type event
        = event_type (phi_access_event defaults user patient (str_lower action)
                        rtype rid res ip md))
  /\ (forall user success ip reason,
        let event := authentication_event defaults user success ip reason in
        (success = true /\ event_type event = LOGIN_SUCCESS
         /\ severity event = INFO /\ result event = lit "success")
        \/ (success = false /\ event_type event = LOGIN_FAILURE
            /\ severity event = WARNING /\ result event = lit "failure"))
  /\ (forall etype sev action user ip md,
        let event := security_event defaults etype sev action user ip md in
        result event = lit "detected" /\ event_type event = etype
        /\ severity event = sev).
Proof.
  split; [|split].
  - intros user patient action rtype rid res ip md.
    unfold phi_access_event. cbn [event_type severity].
    split; [|split].
    + unfold _get_phi_event_type.
      destruct (action_map !! str_lower action) as [t|] eqn:Hk;
        [now apply action_map_range in Hk | simpl; repeat constructor].
    + destruct (str_eqb res (lit "success")); repeat constructor.
    + unfold _get_phi_event_type. now rewrite str_lower_idemp.
  - intros user [] ip reason; [left | right]; repeat split.
  - intros etype sev action user ip md. repeat split.
Qed.

(** ** No plaintext is left in a listed field *)

Section FieldShape.

Context (lib : aead)
        (entropy : nat -> byte)
        (get_secret : pystr -> outcome pystr)
        (key_vault_url : option pystr)
        (encryption_key_name : pystr).

Local Abbreviation enc :=
  (encrypt lib entropy get_secret key_vault_url encryption_key_name).
Local Abbreviation enc_fields :=
  (encrypt_fields lib entropy get_secret key_vault_url encryption_key_name).
Local Abbreviation eop :=
  (encrypt_op lib entropy get_secret key_vault_url encryption_key_name).

(** The encrypting loop replaces every true value of a listed field by
    ASCII text that is longer than the [str] of the value, and leaves the
    true values of the other fields alone. *)
Lemma encrypt_loop_grows (l : nat) :
  aead_tag16 lib ->
  forall (fields : list pystr) (st st' : state) (d : gmap pystr pyvalue),
    heap st !! l = Some d ->
    fields_loop eop l fields st = (Ok tt, st') ->
    exists d',
      heap st' = <[l := d']> (heap st)
      /\ forall k v, d !! k = Some v -> truthy v = true ->
           exists w, d' !! k = Some w
                     /\ (k ∉ fields -> w = v)
                     /\ (k ∈ fields ->
                         exists e, w = VStr e
                                   /\ length (py_str v) < length e
                                   /\ Forall (fun c => (c < 128)%N) e).
Proof.
  intros Htag. induction fields as [|h rest IH]; intros st st' d Hl Hrun.
  - injection Hrun as <-. exists d. split; [symmetry; now apply insert_id|].
    intros k v Hk Hv. exists v. split; [exact Hk|]. split; [reflexivity|].
    intros Hin. inversion Hin.
  - destruct (d !! h) as [u|] eqn:Hh; [destruct (truthy u) eqn:Hu|].
    + rewrite (fields_loop_step _ _ _ _ _ _ _ Hl Hh Hu) in Hrun.
      destruct (eop h u st) as [[e|x] s1] eqn:Hop; [|discriminate].
      pose proof (encrypt_op_heap_any _ _ _ _ _ _ _ _ _ _ Hop) as Hheap.
      unfold encrypt_op in Hop.
      destruct (envelope_length _ _ _ _ _ _ _ _ _ _ Htag Hop)
        as (Hascii & data & _ & _ & Hlt).
      pose proof (encrypt_nonempty _ _ _ _ _ _ _ _ _ _ Hop) as Hne.
      rewrite (dict_setitem_Some _ _ _ _ d) in Hrun by now rewrite Hheap.
      apply (IH _ _ (<[h := VStr e]> d)) in Hrun as (d' & Hheap' & Hall);
        [|simpl; apply lookup_insert_eq].
      exists d'. split.
      { rewrite Hheap'. simpl. now rewrite insert_insert_eq, Hheap. }
      intros k v Hk Hv. destruct (decide (k = h)) as [->|Hkh].
      * assert (v = u) as -> by congruence.
        destruct (Hall h (VStr e)) as (w & Hw & Hnot & Hin);
          [apply lookup_insert_eq | simpl; destruct e; congruence |].
        exists w. split; [exact Hw|].
        split; [intros Hnin; exfalso; apply Hnin; left|].
        intros _. destruct (decide (h ∈ rest)) as [Hr|Hr].
        -- destruct (Hin Hr) as (e' & -> & Hlen & Hasc). exists e'.
           split; [reflexivity|]. split; [simpl in Hlen; lia | exact Hasc].
        -- rewrite (Hnot Hr). exists e. auto.
      * destruct (Hall k v) as (w & Hw & Hnot & Hin);
          [now rewrite lookup_insert_ne | exact Hv |].
        exists w. split; [exact Hw|]. split.
        -- intros Hnin. apply Hnot. intros Hr. apply Hnin. now right.
        -- intros Hin'. apply Hin. inversion Hin'; subst; [contradiction|assumption].
    + rewrite (fields_loop_skip _ _ _ _ _ _ Hl) in Hrun by (right; eauto).
      apply (IH _ _ _ Hl) in Hrun as (d' & Hheap' & Hall).
      exists d'. split; [exact Hheap'|]. intros k v Hk Hv.
      destruct (Hall k v Hk Hv) as (w & Hw & Hnot & Hin).
      exists w. split; [exact Hw|]. split.
      * intros Hnin. apply Hnot. intros Hr. apply Hnin. now right.
      * intros Hin'. apply Hin. inversion Hin'; subst; [congruence|assumption].
    + rewrite (fields_loop_skip _ _ _ _ _ _ Hl) in Hrun by now left.
      apply (IH _ _ _ Hl) in Hrun as (d' & Hheap' & Hall).
      exists d'. split; [exact Hheap'|]. intros k v Hk Hv.
      destruct (Hall k v Hk Hv) as (w & Hw & Hnot & Hin).
      exists w. split; [exact Hw|]. split.
      * intros Hnin. apply Hnot. intros Hr. apply Hnin. now right.
      * intros Hin'. apply Hin. inversion Hin'; subst; [congruence|assumption].
Qed.

(** X21.  With a primitive whose tag has 16 bytes, in the record that
    [encrypt_fields] returns no listed field with a true value still holds
    its plaintext: it holds ASCII text that is longer than the [str] of the
    original value, hence different from it.  This does not depend on the
    vault: it holds for a development engine too. *)
Theorem listed_fields_leave_no_plaintext (data : nat) (fields : list pystr)
    (st st1 : state) (l1 : nat) (d : gmap pystr pyvalue) :
  aead_tag16 lib ->
  heap st !! data = Some d ->
  enc_fields data fields st = (Ok l1, st1) ->
  exists d1,
    heap st1 !! l1 = Some d1
    /\ forall k v, k ∈ fields -> d !! k = Some v -> truthy v = true ->
         exists e, d1 !! k = Some (VStr e)
                   /\ e <> py_str v
                   /\ length (py_str v) < length e
                   /\ Forall (fun c => (c < 128)%N) e.
Proof.
  intros Htag Hd Hrun.
  rewrite (encrypt_fields_unfold lib entropy get_secret key_vault_url
             encryption_key_name) in Hrun.
  unfold bind at 1 in Hrun. rewrite (dict_copy_Some _ _ _ Hd) in Hrun.
  unfold bind, ret in Hrun.
  match type of Hrun with context [fields_loop _ _ _ ?s] => set (st0 := s) in * end.
  destruct (fields_loop eop (fresh (dom (heap st))) fields st0)
    as [[[]|x] s1] eqn:Hloop; [|discriminate].
  injection Hrun as <- <-.
  apply (encrypt_loop_grows _ Htag _ _ _ d) in Hloop as (d1 & Hheap & Hall);
    [|subst st0; simpl; apply lookup_insert_eq].
  exists d1. split; [rewrite Hheap; apply lookup_insert_eq|].
  intros k v Hin Hk Hv.
  destruct (Hall k v Hk Hv) as (w & Hw & _ & Hsealed).
  destruct (Hsealed Hin) as (e & -> & Hlen & Hascii).
  exists e. split; [exact Hw|]. split; [intros ->; lia|]. now split.
Qed.

End FieldShape.

(** ** Successive events, and a failed initialisation *)

Section AuditCompose.

Context (model_dump_json : AuditEvent -> outcome pystr)
        (isoformat : datetime -> pystr)
        (uuid4 : nat -> pystr)
        (utcnow : nat -> datetime).

Local Abbreviation log := (log_event model_dump_json isoformat).
Local Abbreviation meta := (storage_metadata isoformat).
Local Abbreviation phi_access := (log_phi_access model_dump_json isoformat uuid4 utcnow).

(** With a working sink and a reachable container that does not have the
    name, [log_event] of a logger with a container stores the blob. *)
Lemma log_event_stores (self : AuditLogger) (event : AuditEvent) (w : world)
    (j cname : pystr) :
  container_client self = Some cname ->
  sink_up w = true ->
  outage (storage w) = None ->
  model_dump_json event = Ok j ->
  blobs (storage w) !! blob_name_of event = None ->
  exists w',
    log self event w = (Ok tt, w')
    /\ storage w'
       = mkContainer (<[blob_name_of event := mkBlob j (meta event)]>
                        (blobs (storage w))) None
    /\ sink_up w' = true /\ ticks w' = ticks w.
Proof.
  intros Hc Hs Ho Hj Hn. destruct (local_backup self) eqn:Hl.
  - rewrite (log_event_local_then_durable _ _ _ _ _ _ _ Hc Hl Hs Hj).
    rewrite (container_upload_new _ _ _ _ Ho Hn).
    eexists. split; [reflexivity|]. cbn. auto.
  - rewrite (log_event_durable_only _ _ _ _ _ _ _ Hc Hl Hs Hj).
    rewrite (container_upload_new _ _ _ _ Ho Hn).
    eexists. split; [reflexivity|]. cbn. auto.
Qed.

(** X22.  Two calls of [log_phi_access] in a row are both recorded in the
    container.  The logger has a container, the sink works, the container
    is reachable and has neither name, both events serialise, the two
    identifiers drawn differ, and the clock gives dates with a four-digit
    year: then both calls return normally and afterwards the container
    holds the JSON of the first event and of the second, each under its own
    name. *)
Theorem consecutive_accesses_both_stored (self : AuditLogger) (cname : pystr)
    (w : world)
    (user1 patient1 action1 rtype1 rid1 res1 : pystr) (ip1 : option pystr)
    (md1 : option (gmap pystr pyvalue))
    (user2 patient2 action2 rtype2 rid2 res2 : pystr) (ip2 : option pystr)
    (md2 : option (gmap pystr pyvalue))
    (j1 j2 : pystr) :
  let ev1 := phi_access_event (uuid4 (ticks w), utcnow (ticks w))
               user1 patient1 action1 rtype1 rid1 res1 ip1 md1 in
  let ev2 := phi_access_event (uuid4 (S (ticks w)), utcnow (S (ticks w)))
               user2 patient2 action2 rtype2 rid2 res2 ip2 md2 in
  container_client self = Some cname ->
  sink_up w = true ->
  outage (storage w) = None ->
  model_dump_json ev1 = Ok j1 ->
  model_dump_json ev2 = Ok j2 ->
  uuid4 (ticks w) <> uuid4 (S (ticks w)) ->
  (forall n, 1000 <= year (utcnow n) < 10 ^ 4
             /\ 1 <= month (utcnow n) <= 12
             /\ 1 <= day (utcnow n) <= 31) ->
  blobs (storage w) !! blob_name_of ev1 = None ->
  blobs (storage w) !! blob_name_of ev2 = None ->
  exists w1 w2,
    phi_access self user1 patient1 action1 rtype1 rid1 res1 ip1 md1 w = (Ok tt, w1)
    /\ phi_access self user2 patient2 action2 rtype2 rid2 res2 ip2 md2 w1
       = (Ok tt, w2)
    /\ blob_name_of ev1 <> blob_name_of ev2
    /\ blobs (storage w2) !! blob_name_of ev1 = Some (mkBlob j1 (meta ev1))
    /\ blobs (storage w2) !! blob_name_of ev2 = Some (mkBlob j2 (meta ev2)).
Proof.
  intros ev1 ev2 Hc Hs Ho Hj1 Hj2 Hid Hdates Hn1 Hn2.
  assert (Hne : blob_name_of ev1 <> blob_name_of ev2).
  { intros Heq.
    destruct (Hdates (ticks w)) as (? & ? & ?).
    destruct (Hdates (S (ticks w))) as (? & ? & ?).
    apply blob_name_inj in Heq as [Heq _]; try assumption. exact (Hid Heq). }
  destruct (log_event_stores self ev1
              (mkWorld (sink_up w) (trace w) (storage w) (S (ticks w)))
              j1 cname Hc Hs Ho Hj1 Hn1)
    as ([up1 tr1 sto1 tk1] & Hrun1 & Hsto1 & Hs1 & Ht1).
  cbn in Hsto1, Hs1, Ht1. subst up1 sto1 tk1.
  destruct (log_event_stores self ev2
              (mkWorld true tr1
                 (mkContainer (<[blob_name_of ev1 := mkBlob j1 (meta ev1)]>
                                 (blobs (storage w))) None)
                 (S (S (ticks w))))
              j2 cname Hc eq_refl eq_refl Hj2)
    as (w2 & Hrun2 & Hsto2 & _).
  { cbn. now rewrite lookup_insert_ne. }
  exists (mkWorld true tr1
            (mkContainer (<[blob_name_of ev1 := mkBlob j1 (meta ev1)]>
                            (blobs (storage w))) None)
            (S (ticks w))), w2.
  split; [exact Hrun1|]. split; [exact Hrun2|]. split; [exact Hne|].
  rewrite Hsto2. cbn. split.
  - rewrite lookup_insert_ne by congruence. apply lookup_insert_eq.
  - apply lookup_insert_eq.
Qed.

End AuditCompose.

Section ProcessFailure.

Context (connect : pystr -> outcome unit).

Lemma AuditLogger_new_Raise (url : option pystr) (cname : pystr)
    (backup : bool) (w w' : world) (x : exn) :
  AuditLogger_new connect url cname backup w = (Raise x, w') ->
  (truthy_str url = true /\ connect (default [] url) = Raise x /\ w' = w)
  \/ (x = OSError /\ sink_up w = false).
Proof.
  unfold AuditLogger_new, bind, lift, ret, logger_call.
  destruct (truthy_str url).
  - destruct (connect (default [] url)) as [[]|y].
    + destruct (sink_up w); [discriminate|]. intros [= <- _]. now right.
    + intros [= <- <-]. now left.
  - destruct (sink_up w); [discriminate|]. intros [= <- _]. now right.
Qed.

(** X23.  An initialisation that fails leaves the process with the logger
    it had: [initialize_audit_logger] raises when the storage client cannot
    be built for the URL, or when the sink is broken, and in both cases
    the logger that [get_audit_logger] returns afterwards is the one from
    before the call.  The container is not touched. *)
Theorem failed_initialize_keeps_logger (url : option pystr) (p p' : process)
    (x : exn) :
  initialize_audit_logger connect url p = (Raise x, p') ->
  _audit_logger p' = _audit_logger p
  /\ storage (outside p') = storage (outside p)
  /\ (forall l, _audit_logger p = Some l ->
        get_audit_logger connect p' = (Ok l, p'))
  /\ ((truthy_str url = true /\ connect (default [] url) = Raise x)
      \/ (x = OSError /\ sink_up (outside p) = false)).
Proof.
  unfold initialize_audit_logger.
  destruct (AuditLogger_new connect url (lit "audit-logs") true (outside p))
    as [[l0|y] w1] eqn:Hnew; [discriminate|].
  intros [= <- <-]. cbn [_audit_logger outside].
  pose proof (AuditLogger_new_outcome _ _ _ _ _ _ _ Hnew) as (Hs & _).
  apply AuditLogger_new_Raise in Hnew.
  split; [reflexivity|]. split; [exact Hs|]. split.
  - intros l Hl. unfold get_audit_logger. cbn [_audit_logger]. rewrite Hl.
    reflexivity.
  - destruct Hnew as [(Hu & Hc & _)|Hsink]; [left; auto | right; exact Hsink].
Qed.

End ProcessFailure.

(** * The further properties on concrete inputs *)

(** The envelope of the sample text opens again in the state that
    [encrypt] left. *)
Lemma vault_round_trip_witness :
  aead_correct tagged_aead
  /\ truthy_str sample_vault_url = true
  /\ vault_encrypt ssn_text (Some (lit "ssn")) fresh_state
     = (Ok (envelope_of ssn_run), snd ssn_run)
  /\ vault_decrypt (envelope_of ssn_run) (Some (lit "ssn")) (snd ssn_run)
     = (Ok ssn_text, snd ssn_run).
Proof.
  assert (H : vault_encrypt ssn_text (Some (lit "ssn")) fresh_state
              = (Ok (envelope_of ssn_run), snd ssn_run))
    by (vm_compute; reflexivity).
  split; [exact tagged_aead_correct|]. split; [reflexivity|]. split; [exact H|].
  exact (proj1 (vault_round_trip tagged_aead sample_entropy sample_vault
                  sample_vault_url default_key_name ssn_text (Some (lit "ssn"))
                  fresh_state (snd ssn_run) (envelope_of ssn_run)
                  tagged_aead_correct eq_refl H)).
Defined.

(** The sample key, once fetched, is served from the cache when the vault
    is down. *)
Lemma cached_key_outlives_vault_witness :
  _get_encryption_key sample_entropy sample_vault sample_vault_url
    default_key_name fresh_state
  = (Ok sample_key, set_key_cache (Some sample_key) fresh_state)
  /\ sample_key <> []
  /\ _get_encryption_key sample_entropy down_vault sample_vault_url
       default_key_name (set_key_cache (Some sample_key) fresh_state)
     = (Ok sample_key, set_key_cache (Some sample_key) fresh_state).
Proof.
  assert (H : _get_encryption_key sample_entropy sample_vault sample_vault_url
                default_key_name fresh_state
              = (Ok sample_key, set_key_cache (Some sample_key) fresh_state))
    by (vm_compute; reflexivity).
  assert (Hne : sample_key <> []) by discriminate.
  split; [exact H|]. split; [exact Hne|].
  exact (proj2 (cached_key_outlives_vault sample_entropy sample_vault
                  sample_vault_url default_key_name fresh_state
                  (set_key_cache (Some sample_key) fresh_state) sample_key
                  eq_refl H Hne)
           down_vault sample_vault_url default_key_name
           (set_key_cache (Some sample_key) fresh_state) eq_refl).
Defined.

(** With the vault down and nothing cached, [encrypt] raises the error of
    the vault and the engine is as before. *)
Lemma key_failure_propagates_witness :
  down_vault default_key_name = Raise (ServiceError 503)
  /\ encrypt tagged_aead sample_entropy down_vault sample_vault_url
       default_key_name ssn_text None fresh_state
     = (Raise (ServiceError 503), fresh_state).
Proof.
  split; [reflexivity|].
  exact (proj1 (proj2 (key_failure_propagates tagged_aead sample_entropy
                         down_vault sample_vault_url default_key_name
                         fresh_state (ServiceError 503) eq_refl eq_refl
                         (or_introl eq_refl))
                  ssn_text None)).
Defined.

(** A vault secret of five bytes: the first [encrypt] raises [ValueError]
    and caches the key, and [decrypt] keeps raising although the vault has
    been repaired. *)
Lemma rejected_key_stays_cached_witness :
  let hello := [x68; x65; x6c; x6c; x6f] in
  b64decode (lit "aGVsbG8=") = Ok hello
  /\ AESGCM tagged_aead hello = Raise ValueError
  /\ encrypt tagged_aead sample_entropy short_key_vault sample_vault_url
       default_key_name ssn_text None fresh_state
     = (Raise ValueError, set_key_cache (Some hello) fresh_state)
  /\ vault_decrypt (envelope_of ssn_run) (Some (lit "ssn"))
       (set_key_cache (Some hello) fresh_state)
     = (Raise ValueError, set_key_cache (Some hello) fresh_state).
Proof.
  intros hello.
  assert (Hd : b64decode (lit "aGVsbG8=") = Ok hello) by (vm_compute; reflexivity).
  assert (Hrej : AESGCM tagged_aead hello = Raise ValueError) by reflexivity.
  assert (Hne : hello <> []) by discriminate.
  pose proof (rejected_key_stays_cached tagged_aead sample_entropy
                short_key_vault sample_vault_url default_key_name fresh_state
                (lit "aGVsbG8=") hello ValueError eq_refl eq_refl eq_refl Hd Hne
                Hrej ssn_text None) as [Hfirst Hlater].
  split; [exact Hd|]. split; [exact Hrej|]. split; [exact Hfirst|].
  exact (proj2 (Hlater sample_vault (envelope_of ssn_run) (Some (lit "ssn")))).
Defined.

(** The envelope of the 16 characters of the sample text has 60. *)
Lemma envelope_shape_witness :
  aead_tag16 tagged_aead
  /\ vault_encrypt ssn_text (Some (lit "ssn")) fresh_state
     = (Ok (envelope_of ssn_run), snd ssn_run)
  /\ envelope_of ssn_run <> ssn_text
  /\ length (envelope_of ssn_run) = 60.
Proof.
  assert (H : vault_encrypt ssn_text (Some (lit "ssn")) fresh_state
              = (Ok (envelope_of ssn_run), snd ssn_run))
    by (vm_compute; reflexivity).
  split; [exact tagged_aead_tag16|]. split; [exact H|].
  destruct (envelope_shape tagged_aead sample_entropy sample_vault
              sample_vault_url default_key_name ssn_text (Some (lit "ssn"))
              fresh_state (snd ssn_run) (envelope_of ssn_run)
              tagged_aead_tag16 H)
    as (Hne & _ & data & Hd & Hlen & _).
  split; [exact Hne|]. rewrite Hlen.
  vm_compute in Hd. injection Hd as <-. reflexivity.
Defined.

(** A line break in the middle of a base64 text changes nothing. *)
Lemma decrypt_ignores_foreign_characters_witness :
  (10 < 128)%N
  /\ table_a2b_base64 (b8 10) = None
  /\ b64decode (lit "aGVs" ++ 10%N :: lit "bG8=") = b64decode (lit "aGVsbG8=").
Proof.
  assert (H1 : (10 < 128)%N) by reflexivity.
  assert (H2 : table_a2b_base64 (b8 10) = None) by (vm_compute; reflexivity).
  assert (H3 : 10%N <> 61%N) by discriminate.
  split; [exact H1|]. split; [exact H2|].
  exact (proj1 (decrypt_ignores_foreign_characters tagged_aead sample_entropy
                  sample_vault sample_vault_url default_key_name
                  (lit "aGVs") (lit "bG8=") 10%N None fresh_state H1 H2 H3)).
Defined.

(** The key generated from the sample random source, put into the vault,
    is the key that the engine resolves. *)
Lemma generated_key_resolves_witness :
  generated_vault default_key_name
  = Ok (map Byte.to_N (b64encode (map sample_entropy (seq 0 32))))
  /\ _get_encryption_key sample_entropy generated_vault sample_vault_url
       default_key_name fresh_state
     = (Ok (map sample_entropy (seq 0 32)),
        set_key_cache (Some (map sample_entropy (seq 0 32))) fresh_state).
Proof.
  split; [reflexivity|].
  exact (proj2 (proj2 (proj2 (proj2
           (generated_key_resolves sample_entropy generated_vault
              sample_vault_url default_key_name fresh_state fresh_state
              eq_refl eq_refl eq_refl))))).
Defined.

(** The digest of the sample identifier is not the identifier. *)
Lemma hash_identifier_digest_witness :
  hash_identifier (lit "PATIENT-12345") <> Ok (lit "PATIENT-12345").
Proof.
  pose proof (hash_identifier_digest (lit "PATIENT-12345")) as H.
  destruct (hash_identifier (lit "PATIENT-12345")) as [h|x]; [|discriminate].
  destruct H as (_ & _ & _ & Hne & _).
  intros [= Heq]. apply Hne; [|exact Heq]. vm_compute. discriminate.
Defined.

(** A record of false values is copied without a key, here with the vault
    down. *)
Lemma nothing_to_seal_witness :
  heap falsy_store !! 0 = Some falsy_record
  /\ encrypt_fields tagged_aead sample_entropy down_vault sample_vault_url
       default_key_name 0 no_true_fields falsy_store
     = (Ok (fresh (dom (heap falsy_store))),
        set_heap (<[fresh (dom (heap falsy_store)) := falsy_record]>
                    (heap falsy_store)) falsy_store).
Proof.
  assert (H1 : heap falsy_store !! 0 = Some falsy_record)
    by (vm_compute; reflexivity).
  assert (H2 : forall k, k ∈ no_true_fields ->
            falsy_record !! k = None
            \/ exists v, falsy_record !! k = Some v /\ truthy v = false).
  { intros k Hk. unfold no_true_fields in Hk.
    repeat (apply elem_of_cons in Hk as [->|Hk];
            [first [left; vm_compute; reflexivity
                   |right; eexists; split; vm_compute; reflexivity]|]).
    now apply elem_of_nil in Hk. }
  split; [exact H1|].
  exact (proj1 (nothing_to_seal tagged_aead sample_entropy down_vault
                  sample_vault_url default_key_name 0 no_true_fields
                  falsy_store falsy_record H1 H2)).
Defined.

(** [decrypt_fields] raises on the plain sample record, and the record is
    still there. *)
Lemma records_never_mutated_witness :
  let run := vault_decrypt_fields 0 [lit "a"] sample_store in
  is_ok (fst run) = false
  /\ heap sample_store !! 0 = Some sample_record
  /\ heap (snd run) !! 0 = Some sample_record.
Proof.
  intros run.
  assert (H : heap sample_store !! 0 = Some sample_record)
    by (vm_compute; reflexivity).
  split; [vm_compute; reflexivity|]. split; [exact H|].
  exact (records_never_mutated tagged_aead sample_entropy sample_vault
           sample_vault_url default_key_name 0 [lit "a"] sample_store
           (snd run) (fst run) (or_intror (surjective_pairing run))
           0 sample_record H).
Defined.

(** The encrypted sample record is decrypted from the state in which it
    was made. *)
Lemma sealed_record_opens_again_witness :
  aead_correct tagged_aead
  /\ heap sample_store !! 0 = Some sample_record
  /\ vault_encrypt_fields 0 [lit "a"; lit "c"] sample_store
     = (Ok (reference_of sample_fields_run), snd sample_fields_run)
  /\ exists l2 st3,
       vault_decrypt_fields (reference_of sample_fields_run) [lit "a"; lit "c"]
         (snd sample_fields_run) = (Ok l2, st3)
       /\ heap st3 !! l2 = Some (restored [lit "a"; lit "c"] sample_record).
Proof.
  assert (H2 : heap sample_store !! 0 = Some sample_record)
    by (vm_compute; reflexivity).
  assert (H3 : vault_encrypt_fields 0 [lit "a"; lit "c"] sample_store
               = (Ok (reference_of sample_fields_run), snd sample_fields_run))
    by (vm_compute; reflexivity).
  split; [exact tagged_aead_correct|]. split; [exact H2|]. split; [exact H3|].
  destruct (sealed_record_opens_again tagged_aead sample_entropy sample_vault
              sample_vault_url default_key_name 0 [lit "a"; lit "c"]
              sample_store (snd sample_fields_run)
              (reference_of sample_fields_run) sample_record
              tagged_aead_correct eq_refl H2 H3)
    as (d1 & Hd1 & Hlater).
  destruct (Hlater (snd sample_fields_run) (reference_of sample_fields_run)
              Hd1 eq_refl)
    as (l2 & st3 & Hdec & Hres & _).
  exists l2, st3. split; [exact Hdec | exact Hres].
Defined.

(** The envelope of the field [ssn], found under [dob], is refused. *)
Lemma swapped_envelope_rejected_witness :
  aead_checks_tag aes_gcm gcm_tag
  /\ gcm_encrypt_run ssn_text (Some (lit "ssn")) fresh_state
     = (Ok (envelope_of ssn_run_gcm), snd ssn_run_gcm)
  /\ heap swapped_store !! 0 = Some swapped_record
  /\ swapped_record !! lit "dob" = Some (VStr (envelope_of ssn_run_gcm))
  /\ exists st3,
       decrypt_fields aes_gcm sample_entropy sample_vault sample_vault_url
         default_key_name 0 [lit "dob"] swapped_store
       = (Raise InvalidTag, st3)
       /\ heap st3 !! 0 = Some swapped_record.
Proof.
  assert (H1 : gcm_encrypt_run ssn_text (Some (lit "ssn")) fresh_state
               = (Ok (envelope_of ssn_run_gcm), snd ssn_run_gcm))
    by (vm_compute; reflexivity).
  assert (H3 : str_encode (lit "dob") = Ok [x64; x6f; x62])
    by (vm_compute; reflexivity).
  assert (H4 : heap swapped_store !! 0 = Some swapped_record)
    by (vm_compute; reflexivity).
  assert (H5 : swapped_record !! lit "dob" = Some (VStr (envelope_of ssn_run_gcm)))
    by (vm_compute; reflexivity).
  assert (H6 : bytes_eqb
                 (gcm_tag (default [] (_key_cache (snd ssn_run_gcm)))
                    (envelope_nonce (envelope_of ssn_run_gcm)) [x64; x6f; x62]
                    (envelope_body (envelope_of ssn_run_gcm)))
                 (envelope_tag (envelope_of ssn_run_gcm)) = false)
    by (vm_compute; reflexivity).
  split; [exact aes_gcm_checks_tag|]. split; [exact H1|].
  split; [exact H4|]. split; [exact H5|].
  exact (swapped_envelope_rejected aes_gcm sample_entropy sample_vault
           sample_vault_url default_key_name gcm_tag ssn_text (lit "ssn")
           (lit "dob") (envelope_of ssn_run_gcm) [x64; x6f; x62] fresh_state
           (snd ssn_run_gcm) swapped_store 0 swapped_record []
           aes_gcm_checks_tag eq_refl H1 H3 H4 H5 eq_refl H6).
Defined.

(** The integer field [b] of the sample record makes [decrypt_fields]
    raise [TypeError]. *)
Lemma decrypt_fields_rejects_non_strings_witness :
  heap sample_store !! 0 = Some sample_record
  /\ sample_record !! lit "b" = Some (VInt 5)
  /\ exists st',
       vault_decrypt_fields 0 [lit "b"] sample_store = (Raise TypeError, st').
Proof.
  assert (H1 : heap sample_store !! 0 = Some sample_record)
    by (vm_compute; reflexivity).
  assert (H2 : sample_record !! lit "b" = Some (VInt 5))
    by (vm_compute; reflexivity).
  assert (H3 : forall s, VInt 5 <> VStr s) by discriminate.
  assert (H4 : _get_encryption_key sample_entropy sample_vault sample_vault_url
                 default_key_name sample_store
               = (Ok sample_key, set_key_cache (Some sample_key) sample_store))
    by (vm_compute; reflexivity).
  split; [exact H1|]. split; [exact H2|].
  exact (proj2 (decrypt_fields_rejects_non_strings tagged_aead sample_entropy
                  sample_vault sample_vault_url default_key_name 0 (lit "b")
                  (VInt 5) sample_store sample_record H1 H2 eq_refl H3)
           sample_key (set_key_cache (Some sample_key) sample_store) []
           H4 eq_refl).
Defined.

(** A logger built with the empty string as URL leaves the container
    alone. *)
Lemma local_only_never_uploads_witness :
  let run := sample_log_event empty_url_logger sample_event quiet_world in
  truthy_str (Some []) = false
  /\ storage (snd run) = storage quiet_world.
Proof.
  intros run. split; [reflexivity|].
  exact (proj1 (local_only_never_uploads sample_dump sample_isoformat (Some [])
                  (lit "audit-logs") true sample_event quiet_world (snd run)
                  (fst run) eq_refl (surjective_pairing run))).
Defined.

(** The blob of the sample event survives a second event with the same
    name. *)
Lemma audit_storage_append_only_witness :
  let run1 := sample_log_event durable_logger sample_event quiet_world in
  let run2 := sample_log_event durable_logger later_event (snd run1) in
  let stored := mkBlob (lit "{event_id: 0f8fad5b-d9cb-469f-a165-70867728950e}")
                  (storage_metadata sample_isoformat sample_event) in
  blobs (storage (snd run1)) !! dated_name sample_event = Some stored
  /\ blob_name_of later_event = dated_name sample_event
  /\ blobs (storage (snd run2)) !! dated_name sample_event = Some stored.
Proof.
  intros run1 run2 stored.
  assert (Hb : blobs (storage (snd run1)) !! dated_name sample_event = Some stored)
    by (vm_compute; reflexivity).
  split; [exact Hb|]. split; [vm_compute; reflexivity|].
  exact (proj1 (proj1 (audit_storage_append_only sample_dump sample_isoformat
                         sample_uuid4 sample_utcnow durable_logger)
                  later_event)
           (snd run1) (fst run2) (snd run2) (surjective_pairing run2)
           (dated_name sample_event) stored Hb).
Defined.

(** With a serialiser that fails, the durable logger raises and uploads
    nothing. *)
Lemma unserialisable_event_is_lost_witness :
  unserialisable sample_event = Raise SerializationError
  /\ exists e,
       log_event unserialisable sample_isoformat durable_logger sample_event
         quiet_world
       = (Raise SerializationError, record_effect e quiet_world)
       /\ is_upload e = false.
Proof.
  split; [reflexivity|].
  destruct (unserialisable_event_is_lost unserialisable sample_isoformat
              durable_logger sample_event quiet_world SerializationError
              eq_refl)
    as (e & Hrun & _ & Hup & _).
  exists e. split; [exact Hrun | exact Hup].
Defined.

(** Two events with one identifier on one day share their blob name,
    whatever the time of day. *)
Lemma blob_name_determines_event_witness :
  event_id sample_event = event_id later_event
  /\ second (timestamp sample_event) <> second (timestamp later_event)
  /\ blob_name_of sample_event = blob_name_of later_event.
Proof.
  split; [reflexivity|]. split; [discriminate|].
  apply (blob_name_determines_event sample_event later_event);
    try (cbn; lia). repeat split.
Defined.

(** Initialising with a URL, then asking for the logger. *)
Lemma initialize_then_get_witness :
  let run := initialize_audit_logger always_connect
               (Some (lit "https://account.blob.example")) new_process in
  fst run = Ok durable_logger
  /\ get_audit_logger always_connect (snd run) = (Ok durable_logger, snd run).
Proof.
  intros run.
  assert (H : initialize_audit_logger always_connect
                (Some (lit "https://account.blob.example")) new_process
              = (Ok durable_logger, snd run)) by (vm_compute; reflexivity).
  split; [vm_compute; reflexivity|].
  exact (proj1 (proj2 (proj2 (initialize_then_get always_connect
                                (Some (lit "https://account.blob.example"))
                                new_process (snd run) durable_logger H)))).
Defined.

(** The first request in a new process gives a local-only logger. *)
Lemma lazy_logger_is_local_only_witness :
  let run := get_audit_logger always_connect new_process in
  _audit_logger new_process = None
  /\ exists l, fst run = Ok l /\ container_client l = None
               /\ get_audit_logger always_connect (snd run) = (Ok l, snd run).
Proof.
  intros run. split; [reflexivity|].
  destruct (lazy_logger_is_local_only always_connect new_process (snd run)
              (fst run) eq_refl (surjective_pairing run))
    as (_ & Hok & Hl & _).
  destruct (Hok eq_refl) as (l & Hr). exists l. split; [exact Hr|].
  destruct (Hl l Hr) as (Hc & _ & _ & _ & Hget). split; [exact Hc | exact Hget].
Defined.

(** The sample event is a PHI event of severity INFO or WARNING. *)
Lemma convenience_events_classified_witness :
  event_type sample_event ∈ [PHI_VIEW; PHI_CREATE; PHI_UPDATE; PHI_DELETE; PHI_EXPORT]
  /\ severity sample_event ∈ [INFO; WARNING].
Proof.
  destruct (proj1 (convenience_events_classified
                     (lit "0f8fad5b-d9cb-469f-a165-70867728950e", sample_utcnow 0))
              (lit "dr_smith") (lit "5e884898da28047151d0e56f8dc62927")
              (lit "view") (lit "encounter") (lit "enc_abcdef123456")
              (lit "success") None None)
    as (Ht & Hs & _).
  split; [exact Ht | exact Hs].
Defined.

(** The two true fields of the sample record hold envelopes afterwards. *)
Lemma listed_fields_leave_no_plaintext_witness :
  aead_tag16 tagged_aead
  /\ heap sample_store !! 0 = Some sample_record
  /\ vault_encrypt_fields 0 [lit "a"; lit "c"] sample_store
     = (Ok (reference_of sample_fields_run), snd sample_fields_run)
  /\ exists d1 e,
       heap (snd sample_fields_run) !! reference_of sample_fields_run = Some d1
       /\ d1 !! lit "a" = Some (VStr e)
       /\ e <> lit "x".
Proof.
  assert (H2 : heap sample_store !! 0 = Some sample_record)
    by (vm_compute; reflexivity).
  assert (H3 : vault_encrypt_fields 0 [lit "a"; lit "c"] sample_store
               = (Ok (reference_of sample_fields_run), snd sample_fields_run))
    by (vm_compute; reflexivity).
  split; [exact tagged_aead_tag16|]. split; [exact H2|]. split; [exact H3|].
  destruct (listed_fields_leave_no_plaintext tagged_aead sample_entropy
              sample_vault sample_vault_url default_key_name 0
              [lit "a"; lit "c"] sample_store (snd sample_fields_run)
              (reference_of sample_fields_run) sample_record
              tagged_aead_tag16 H2 H3)
    as (d1 & Hd1 & Hall).
  destruct (Hall (lit "a") (VStr (lit "x"))) as (e & He & Hne & _);
    [left | vm_compute; reflexivity | reflexivity |].
  exists d1, e. split; [exact Hd1|]. split; [exact He | exact Hne].
Defined.

(** Two PHI accesses in a new world: both blobs are in the container. *)
Lemma consecutive_accesses_both_stored_witness :
  let first_event :=
    phi_access_event (sample_uuid4 0, sample_utcnow 0) (lit "dr_smith")
      (lit "5e884898") (lit "view") (lit "encounter") (lit "enc_1")
      (lit "success") None None in
  let second_event :=
    phi_access_event (sample_uuid4 1, sample_utcnow 1) (lit "nurse_lee")
      (lit "5e884898") (lit "update") (lit "encounter") (lit "enc_1")
      (lit "success") None None in
  sample_uuid4 0 <> sample_uuid4 1
  /\ exists w1 w2,
       log_phi_access sample_dump sample_isoformat sample_uuid4 sample_utcnow
         durable_logger (lit "dr_smith") (lit "5e884898") (lit "view")
         (lit "encounter") (lit "enc_1") (lit "success") None None quiet_world
       = (Ok tt, w1)
       /\ log_phi_access sample_dump sample_isoformat sample_uuid4 sample_utcnow
            durable_logger (lit "nurse_lee") (lit "5e884898") (lit "update")
            (lit "encounter") (lit "enc_1") (lit "success") None None w1
          = (Ok tt, w2)
       /\ is_Some (blobs (storage w2) !! blob_name_of first_event)
       /\ is_Some (blobs (storage w2) !! blob_name_of second_event).
Proof.
  intros first_event second_event.
  assert (Hid : sample_uuid4 0 <> sample_uuid4 1) by (vm_compute; discriminate).
  assert (Hdates : forall n, 1000 <= year (sample_utcnow n) < 10 ^ 4
                             /\ 1 <= month (sample_utcnow n) <= 12
                             /\ 1 <= day (sample_utcnow n) <= 31)
    by (intros n; cbn; lia).
  split; [exact Hid|].
  destruct (consecutive_accesses_both_stored sample_dump sample_isoformat
              sample_uuid4 sample_utcnow durable_logger (lit "audit-logs")
              quiet_world
              (lit "dr_smith") (lit "5e884898") (lit "view") (lit "encounter")
              (lit "enc_1") (lit "success") None None
              (lit "nurse_lee") (lit "5e884898") (lit "update") (lit "encounter")
              (lit "enc_1") (lit "success") None None
              (lit "{event_id: " ++ sample_uuid4 0 ++ lit "}")
              (lit "{event_id: " ++ sample_uuid4 1 ++ lit "}")
              eq_refl eq_refl eq_refl eq_refl eq_refl Hid Hdates
              (lookup_empty _) (lookup_empty _))
    as (w1 & w2 & H1 & H2 & _ & Hb1 & Hb2).
  exists w1, w2. split; [exact H1|]. split; [exact H2|]. split; eauto.
Defined.

(** The storage client cannot be built: the process keeps its logger. *)
Lemma failed_initialize_keeps_logger_witness :
  let run := initialize_audit_logger refusing_connect
               (Some (lit "https://account.blob.example")) running_process in
  fst run = Raise ValueError
  /\ get_audit_logger refusing_connect (snd run) = (Ok empty_url_logger, snd run).
Proof.
  intros run.
  assert (H : initialize_audit_logger refusing_connect
                (Some (lit "https://account.blob.example")) running_process
              = (Raise ValueError, snd run)) by (vm_compute; reflexivity).
  split; [vm_compute; reflexivity|].
  exact (proj1 (proj2 (proj2 (failed_initialize_keeps_logger refusing_connect
                                (Some (lit "https://account.blob.example"))
                                running_process (snd run) ValueError H)))
           empty_url_logger eq_refl).
Defined.
